(** * incidents-client: state container, reducers, worker bridge, executor

    A shallow embedding of the state/I-O coordination layer of the
    incident-tracking client:

    - [Js]            the JavaScript values the core manipulates;
    - [Actions]       core/store/actions.js;
    - [Reducers]      core/store/reducers.js;
    - [Store]         core/store/store.js (class Store and its event loop);
    - [ApiWorker]     core/workers/api.worker.js (executor and response cache);
    - [WorkerBridge]  core/workers/worker-bridge.js (promise based RPC);
    - [ApiService]    core/services/api.service.js (facade).

Definitions come first, the properties proved about them follow. *)

From Stdlib Require Import Ascii.
From stdpp Require Import gmap strings list fin_maps pretty.

Open Scope string_scope.
Open Scope list_scope.
Open Scope stdpp_scope.

(* ===================================================================== *)
(** ** JavaScript values *)
(* ===================================================================== *)

Module Js.

(** Primitive values.  Numbers are the integers the application stores
    (identifiers, timestamps, durations); [VNaN] is kept apart because
    [NaN === NaN] is false. *)
Inductive value : Type :=
| VUndef
| VNull
| VBool (b : bool)
| VNum (n : Z)
| VNaN
| VStr (s : string).

(** A plain object with primitive fields (an incident, a patch, a
    notification, an error record): its own enumerable properties. *)
Abbreviation obj := (gmap string value).

(** [o.k]: a missing property reads as [undefined]. *)
Definition get (o : obj) (k : string) : value := default VUndef (o !! k).

(** [a === b] *)
Definition strict_eq (a b : value) : bool :=
  match a, b with
  | VUndef, VUndef => true
  | VNull, VNull => true
  | VBool x, VBool y => Bool.eqb x y
  | VNum x, VNum y => (x =? y)%Z
  | VStr x, VStr y => String.eqb x y
  | _, _ => false
  end.

(** ToBoolean *)
Definition truthy (v : value) : bool :=
  match v with
  | VUndef | VNull | VNaN => false
  | VBool b => b
  | VNum n => negb (n =? 0)%Z
  | VStr s => negb (String.eqb s "")
  end.

(** [typeof v === "object"] for a primitive: only [null]. *)
Definition typeof_is_object (v : value) : bool :=
  match v with VNull => true | _ => false end.

(** [{ ...a, ...b }]: the properties of [b] win. *)
Definition spread (a b : obj) : obj := b ∪ a.

(** Template-literal conversion of a primitive, [`${v}`]. *)
Definition to_string (v : value) : string :=
  match v with
  | VUndef => "undefined"
  | VNull => "null"
  | VBool true => "true"
  | VBool false => "false"
  | VNum n => pretty n
  | VNaN => "NaN"
  | VStr s => s
  end.

(** [s.startsWith(p)] *)
Definition startsWith (s p : string) : bool := String.prefix p s.

(** What a [throw] carries. *)
Inductive exn : Type :=
| Error (message : string)
| TypeError (message : string)
| ThrownObject (o : obj).          (* [throw] of a plain object *)

(** How a call ends. *)
Inductive completion (A : Type) : Type :=
| Returns (x : A)
| Throws (e : exn).
Arguments Returns {A} x.
Arguments Throws {A} e.

End Js.

(* ===================================================================== *)
(** ** core/store/actions.js *)
(* ===================================================================== *)

Module Actions.
Import Js.

Module ActionTypes.
Module UI.
Definition SET_LOADING := "ui/setLoading".
Definition SET_DARK_MODE := "ui/setDarkMode".
Definition TOGGLE_MENU := "ui/toggleMenu".
Definition SET_FILTER_STATUS := "ui/setFilterStatus".
End UI.
Module INCIDENTS.
Definition LOAD_INCIDENTS := "incidents/loadIncidents".
Definition SET_INCIDENTS := "incidents/setIncidents".
Definition ADD_INCIDENT := "incidents/addIncident".
Definition UPDATE_INCIDENT := "incidents/updateIncident".
Definition DELETE_INCIDENT := "incidents/deleteIncident".
Definition SET_CURRENT_INCIDENT := "incidents/setCurrentIncident".
Definition CLEAR_CURRENT_INCIDENT := "incidents/clearCurrentIncident".
End INCIDENTS.
Module NOTIFICATIONS.
Definition ADD_NOTIFICATION := "notifications/addNotification".
Definition REMOVE_NOTIFICATION := "notifications/removeNotification".
Definition MARK_NOTIFICATION_DISPLAYED :=
  "notifications/markNotificationDisplayed".
End NOTIFICATIONS.
Module ERRORS.
Definition SET_ERROR := "errors/setError".
Definition CLEAR_ERROR := "errors/clearError".
End ERRORS.
End ActionTypes.

(** The [{type, payload}] objects the application dispatches, as a
    tagged union: one constructor per entry of [ActionTypes], carrying
    the payload its reducers read, in the shape the action creators and
    their callers give it.  [Other t] is an object whose [type] property
    reads as [t] and is none of the strings above (missing: [VUndef];
    empty: [VStr ""]); no reducer has a case for it. *)
Inductive kind : Type :=
| SetLoading (payload : bool)
| SetDarkMode (payload : bool)
| ToggleMenu (payload : option bool)          (* None: undefined *)
| SetFilterStatus (payload : string)
| LoadIncidents
| SetIncidents (payload : option (list obj))  (* None: null/undefined *)
| AddIncident (payload : obj)
| UpdateIncident (payload : obj)
| DeleteIncident (payload : value)
| SetCurrentIncident (payload : option obj)   (* None: null *)
| ClearCurrentIncident
| AddNotification (payload : obj)
| RemoveNotification (payload : value)
| MarkNotificationDisplayed (payload : value)
| SetError (payload : obj)
| ClearError
| Other (type : value).

(** [action.type] *)
Definition kind_type (k : kind) : value :=
  match k with
  | SetLoading _ => VStr ActionTypes.UI.SET_LOADING
  | SetDarkMode _ => VStr ActionTypes.UI.SET_DARK_MODE
  | ToggleMenu _ => VStr ActionTypes.UI.TOGGLE_MENU
  | SetFilterStatus _ => VStr ActionTypes.UI.SET_FILTER_STATUS
  | LoadIncidents => VStr ActionTypes.INCIDENTS.LOAD_INCIDENTS
  | SetIncidents _ => VStr ActionTypes.INCIDENTS.SET_INCIDENTS
  | AddIncident _ => VStr ActionTypes.INCIDENTS.ADD_INCIDENT
  | UpdateIncident _ => VStr ActionTypes.INCIDENTS.UPDATE_INCIDENT
  | DeleteIncident _ => VStr ActionTypes.INCIDENTS.DELETE_INCIDENT
  | SetCurrentIncident _ => VStr ActionTypes.INCIDENTS.SET_CURRENT_INCIDENT
  | ClearCurrentIncident =>
      VStr ActionTypes.INCIDENTS.CLEAR_CURRENT_INCIDENT
  | AddNotification _ => VStr ActionTypes.NOTIFICATIONS.ADD_NOTIFICATION
  | RemoveNotification _ =>
      VStr ActionTypes.NOTIFICATIONS.REMOVE_NOTIFICATION
  | MarkNotificationDisplayed _ =>
      VStr ActionTypes.NOTIFICATIONS.MARK_NOTIFICATION_DISPLAYED
  | SetError _ => VStr ActionTypes.ERRORS.SET_ERROR
  | ClearError => VStr ActionTypes.ERRORS.CLEAR_ERROR
  | Other t => t
  end.

(** An action object; [_id] and [_timestamp] are the metadata the store
    stamps on it ([None] before it is dispatched). *)
Record action : Type := mkAction {
  what : kind;
  _id : option nat;
  _timestamp : option N;
}.

Definition type (a : action) : value := kind_type (what a).

(** [createAction(type)(payload)]: a bare [{type, payload}]. *)
Definition createAction (k : kind) : action :=
  {| what := k; _id := None; _timestamp := None |}.

Definition setLoading (b : bool) := createAction (SetLoading b).
Definition setDarkMode (b : bool) := createAction (SetDarkMode b).
Definition toggleMenu (p : option bool) := createAction (ToggleMenu p).
Definition setFilterStatus (s : string) := createAction (SetFilterStatus s).
Definition loadIncidents := createAction LoadIncidents.
Definition setIncidents (l : option (list obj)) :=
  createAction (SetIncidents l).
Definition addIncident (i : obj) := createAction (AddIncident i).
Definition updateIncident (p : obj) := createAction (UpdateIncident p).
Definition deleteIncident (id : value) := createAction (DeleteIncident id).
Definition setCurrentIncident (i : option obj) :=
  createAction (SetCurrentIncident i).
Definition clearCurrentIncident := createAction ClearCurrentIncident.
Definition addNotification (n : obj) := createAction (AddNotification n).
Definition removeNotification (id : value) :=
  createAction (RemoveNotification id).
Definition markNotificationDisplayed (id : value) :=
  createAction (MarkNotificationDisplayed id).
Definition setError (e : obj) := createAction (SetError e).
Definition clearError := createAction ClearError.

End Actions.

(* ===================================================================== *)
(** ** core/store/reducers.js *)
(* ===================================================================== *)

Module Reducers.
Import Js Actions.

Record ui_state : Type := mkUi {
  ui_loading : option bool;   (* absent until the first ui/setLoading *)
  darkMode : bool;
  menuOpen : bool;
  filterStatus : string;
}.

Record log_entry : Type := mkLogEntry {
  log_type : value;
  log_payload : kind;
  log_timestamp : option N;
}.

(** The state tree. *)
Record State : Type := mkState {
  loading : bool;
  incidents : list obj;
  currentIncident : option obj;
  notifications : list obj;
  error : option obj;
  ui : ui_state;
  _actionLog : list log_entry;
}.

Definition uiReducer (state : ui_state) (a : action) (globalState : State)
  : ui_state :=
  match what a with
  | SetLoading p =>
      {| ui_loading := Some p; darkMode := darkMode state;
         menuOpen := menuOpen state; filterStatus := filterStatus state |}
  | SetDarkMode p =>
      {| ui_loading := ui_loading state; darkMode := p;
         menuOpen := menuOpen state; filterStatus := filterStatus state |}
  | ToggleMenu p =>
      {| ui_loading := ui_loading state; darkMode := darkMode state;
         menuOpen := match p with
                     | Some b => b
                     | None => negb (menuOpen state)
                     end;
         filterStatus := filterStatus state |}
  | SetFilterStatus p =>
      {| ui_loading := ui_loading state; darkMode := darkMode state;
         menuOpen := menuOpen state; filterStatus := p |}
  | _ => state
  end.

Definition incidentsReducer (state : list obj) (a : action)
    (globalState : State) : list obj :=
  match what a with
  | SetIncidents p => default [] p
  | AddIncident p => state ++ [p]
  | UpdateIncident p =>
      map (fun incident =>
             if strict_eq (get incident "id") (get p "id")
             then spread incident p
             else incident) state
  | DeleteIncident p =>
      filter (fun incident => negb (strict_eq (get incident "id") p) = true)
             state
  | _ => state
  end.

Definition currentIncidentReducer (state : option obj) (a : action)
    (globalState : State) : option obj :=
  match what a with
  | SetCurrentIncident p => p
  | ClearCurrentIncident => None
  | UpdateIncident p =>
      match state with
      | Some s =>
          if strict_eq (get s "id") (get p "id")
          then Some (spread s p)
          else state
      | None => state
      end
  | DeleteIncident p =>
      match state with
      | Some s => if strict_eq (get s "id") p then None else state
      | None => state
      end
  | _ => state
  end.

Definition notificationsReducer (state : list obj) (a : action)
    (globalState : State) : list obj :=
  match what a with
  | AddNotification p => state ++ [p]
  | RemoveNotification p =>
      filter (fun notification =>
                negb (strict_eq (get notification "id") p) = true) state
  | MarkNotificationDisplayed p =>
      map (fun notification =>
             if strict_eq (get notification "id") p
             then <["displayed" := VBool true]> notification
             else notification) state
  | _ => state
  end.

Definition errorReducer (state : option obj) (a : action)
    (globalState : State) : option obj :=
  match what a with
  | SetError p => Some p
  | ClearError => None
  | _ => state
  end.

Definition loadingReducer (state : bool) (a : action) (globalState : State)
  : bool :=
  match what a with
  | SetLoading p => p
  | _ => state
  end.

(** [createReducer()]: [combineReducers] over the six slices; every
    slice reducer sees the previous full state, and [_actionLog], which
    has no reducer, is carried over. *)
Definition createReducer (state : State) (a : action) : State :=
  {| loading := loadingReducer (loading state) a state;
     incidents := incidentsReducer (incidents state) a state;
     currentIncident :=
       currentIncidentReducer (currentIncident state) a state;
     notifications := notificationsReducer (notifications state) a state;
     error := errorReducer (error state) a state;
     ui := uiReducer (ui state) a state;
     _actionLog := _actionLog state |}.

End Reducers.

Module ReducerSpec.
Import Js Actions Reducers.

Definition update_one (p incident : obj) : obj :=
  if strict_eq (get incident "id") (get p "id")
  then spread incident p else incident.

(** Actions whose [currentIncident] case stores the payload. *)
Definition selects (a : action) : bool :=
  match what a with SetCurrentIncident _ => true | _ => false end.

Definition current_is_not (id : value) (st : State) : Prop :=
  forall c, currentIncident st = Some c -> strict_eq (get c "id") id = false.

Definition incident_1 : obj := {[ "id" := VNum 1 ]}.

End ReducerSpec.

(* ===================================================================== *)
(** ** core/store/store.js *)
(* ===================================================================== *)

Module Store.
Import Js Actions Reducers.

(** [initialState]; the argument is what
    [localStorage.getItem("darkMode") === "true"] evaluates to. *)
Definition initialState (storedDarkMode : bool) : State :=
  {| loading := false;
     incidents := [];
     currentIncident := None;
     notifications := [];
     error := None;
     ui := {| ui_loading := None; darkMode := storedDarkMode;
              menuOpen := false; filterStatus := "all" |};
     _actionLog := [] |}.

(** A subscriber is a function object: the [Set] of subscribers compares
    them by reference ([sub_ref]); called with the state it returns or
    throws.  (A subscriber or middleware that calls back into the store
    while it runs is not described here.) *)
Record subscriber : Type := mkSubscriber {
  sub_ref : nat;
  sub_throws : State -> bool;
}.

(** What [middleware(store)(action)] does when [dispatch] calls it: it
    throws, or returns a value that is no promise (which [Promise.all]
    takes as fulfilled), or returns a promise that the event loop settles
    later. *)
Inductive middleware_outcome : Type :=
| MwThrows (e : exn)
| MwValue
| MwPromise.

Record middleware : Type := mkMiddleware {
  mw_ref : nat;
  mw_call : State -> action -> middleware_outcome;
}.

Inductive promise_state : Type := Pending | Fulfilled | Rejected.

(** The callback given to [Promise.all(middlewarePromises).then(...)],
    with the promises it waits for. *)
Record continuation : Type := mkContinuation {
  k_action : action;
  k_promises : list promise_state;
}.

(** Observable calls, in the order they happen. *)
Inductive call : Type :=
| MiddlewareCalled (ref : nat) (a : action)
| ReducerCalled (s : State) (a : action)
| SubscriberCalled (ref : nat) (s : State)
| ConsoleError (ref : nat).

(** The fields of [class Store]. *)
Record StoreObject : Type := mkStore {
  reducer : State -> action -> State;
  state : State;
  subscribers : list subscriber;     (* a Set, in insertion order *)
  middlewares : list middleware;
  actionCounter : nat;
}.

(** A store in its single threaded event loop: the [then] callbacks not
    yet run, the calls made so far, and [process.env.NODE_ENV ===
    "development"]. *)
Record World : Type := mkWorld {
  store : StoreObject;
  development : bool;
  continuations : list continuation;
  calls : list call;
}.

(** [new Store(reducer, initialState)] *)
Definition newStore (r : State -> action -> State) (s : State)
  : StoreObject :=
  {| reducer := r; state := s; subscribers := []; middlewares := [];
     actionCounter := 0 |}.

Definition getState (w : World) : State := state (store w).

Definition with_store (w : World) (s : StoreObject) : World :=
  {| store := s; development := development w;
     continuations := continuations w; calls := calls w |}.

Definition with_calls (w : World) (c : list call) : World :=
  {| store := store w; development := development w;
     continuations := continuations w; calls := c |}.

Definition with_continuations (w : World) (k : list continuation) : World :=
  {| store := store w; development := development w;
     continuations := k; calls := calls w |}.

Definition set_state (s : StoreObject) (st : State) : StoreObject :=
  {| reducer := reducer s; state := st; subscribers := subscribers s;
     middlewares := middlewares s; actionCounter := actionCounter s |}.

Definition set_subscribers (s : StoreObject) (l : list subscriber)
  : StoreObject :=
  {| reducer := reducer s; state := state s; subscribers := l;
     middlewares := middlewares s; actionCounter := actionCounter s |}.

Definition set_actionCounter (s : StoreObject) (n : nat) : StoreObject :=
  {| reducer := reducer s; state := state s; subscribers := subscribers s;
     middlewares := middlewares s; actionCounter := n |}.

(** [applyMiddleware(middleware)] *)
Definition applyMiddleware (m : middleware) (w : World) : World :=
  with_store w
    {| reducer := reducer (store w); state := state (store w);
       subscribers := subscribers (store w);
       middlewares := middlewares (store w) ++ [m];
       actionCounter := actionCounter (store w) |}.

Definition is_subscribed (s : subscriber) (l : list subscriber) : bool :=
  existsb (fun s' => Nat.eqb (sub_ref s') (sub_ref s)) l.

(** [subscribe(subscriber)]: [Set.add]. *)
Definition subscribe (s : subscriber) (w : World) : World :=
  if is_subscribed s (subscribers (store w)) then w
  else with_store w
         (set_subscribers (store w) (subscribers (store w) ++ [s])).

(** [unsubscribe(subscriber)]: [Set.delete]. *)
Definition unsubscribe (s : subscriber) (w : World) : World :=
  with_store w
    (set_subscribers (store w)
       (filter (fun s' => sub_ref s' <> sub_ref s) (subscribers (store w)))).

Definition notify_one (st : State) (s : subscriber) : list call :=
  SubscriberCalled (sub_ref s) st ::
  (if sub_throws s st then [ConsoleError (sub_ref s)] else []).

(** [notifySubscribers()]: every subscriber is called with [this.state];
    what one throws is caught and logged. *)
Definition notifySubscribers (w : World) : World :=
  with_calls w
    (calls w ++ flat_map (notify_one (getState w)) (subscribers (store w))).

(** [reset()] *)
Definition reset (storedDarkMode : bool) (w : World) : World :=
  notifySubscribers
    (with_store w (set_state (store w) (initialState storedDarkMode))).

Definition dquote : string := String (Ascii.ascii_of_nat 34) "".

Definition invalid_action_message : string :=
  "Las acciones deben ser objetos con una propiedad "
  +:+ dquote +:+ "type" +:+ dquote.

(** The argument of [dispatch]: an object, or a primitive. *)
Inductive dispatch_arg : Type :=
| ArgPrimitive (v : value)
| ArgObject (a : action).

(** [this.middlewares.map(middleware => middleware(this)(enhancedAction))]:
    the middlewares are called in order; the first that throws ends the
    [map]. *)
Fixpoint call_middlewares (ms : list middleware) (st : State) (a : action)
  : completion (list promise_state) * list call :=
  match ms with
  | [] => (Returns [], [])
  | m :: ms' =>
      let called := MiddlewareCalled (mw_ref m) a in
      match mw_call m st a with
      | MwThrows e => (Throws e, [called])
      | outcome =>
          let p := match outcome with MwValue => Fulfilled | _ => Pending end in
          match call_middlewares ms' st a with
          | (Returns ps, cs) => (Returns (p :: ps), called :: cs)
          | (Throws e, cs) => (Throws e, called :: cs)
          end
      end
  end.

(** [{ ...action, _id: ++this.actionCounter, _timestamp: Date.now() }] *)
Definition enhance (a : action) (counter : nat) (now : N) : action :=
  {| what := what a; _id := Some counter; _timestamp := Some now |}.

(** [dispatch(action)], called when [Date.now()] is [now].  It returns
    the enhanced action; the state is computed later, by the continuation
    it leaves behind. *)
Definition dispatch (now : N) (arg : dispatch_arg) (w : World)
  : completion action * World :=
  match arg with
  | ArgPrimitive v =>
      if typeof_is_object v
      then (Throws (TypeError "Cannot read properties of null"), w)
      else (Throws (Error invalid_action_message), w)
  | ArgObject a =>
      if negb (truthy (type a))
      then (Throws (Error invalid_action_message), w)
      else
        let counter := S (actionCounter (store w)) in
        let enhancedAction := enhance a counter now in
        let w1 := with_store w (set_actionCounter (store w) counter) in
        match call_middlewares (middlewares (store w)) (getState w)
                               enhancedAction with
        | (Throws e, cs) => (Throws e, with_calls w1 (calls w ++ cs))
        | (Returns middlewarePromises, cs) =>
            (Returns enhancedAction,
             with_continuations (with_calls w1 (calls w ++ cs))
               (continuations w ++
                [{| k_action := enhancedAction;
                    k_promises := middlewarePromises |}]))
        end
  end.

Definition has_id (id : nat) (k : continuation) : bool :=
  match _id (k_action k) with Some n => Nat.eqb n id | None => false end.

Definition find_continuation (id : nat) (w : World) : option continuation :=
  find (has_id id) (continuations w).

Definition settle_promise (ok : bool) (p : promise_state) : promise_state :=
  match p with
  | Pending => if ok then Fulfilled else Rejected
  | _ => p
  end.

(** The [k]-th middleware promise of the dispatch numbered [id] is
    fulfilled ([ok]) or rejected; a settled promise stays as it is. *)
Definition settle (id k : nat) (ok : bool) (w : World) : World :=
  with_continuations w
    (map (fun c =>
            if has_id id c
            then {| k_action := k_action c;
                    k_promises := alter (settle_promise ok) k (k_promises c) |}
            else c)
         (continuations w)).

Definition is_fulfilled (p : promise_state) : bool :=
  match p with Fulfilled => true | _ => false end.

(** [Promise.all] is fulfilled when every promise is. *)
Definition all_fulfilled (c : continuation) : bool :=
  forallb is_fulfilled (k_promises c).

(** [l.slice(-n)] *)
Definition slice_last {A : Type} (n : nat) (l : list A) : list A :=
  drop (length l - n) l.

Definition set_actionLog (st : State) (l : list log_entry) : State :=
  {| loading := loading st; incidents := incidents st;
     currentIncident := currentIncident st;
     notifications := notifications st; error := error st; ui := ui st;
     _actionLog := l |}.

(** The state the [then] callback stores: the reducer's result, with the
    action appended to the log in development. *)
Definition next_state (w : World) (enhancedAction : action) : State :=
  let nextState := reducer (store w) (getState w) enhancedAction in
  if development w
  then set_actionLog nextState
         (slice_last 19 (_actionLog (getState w)) ++
          [{| log_type := type enhancedAction;
              log_payload := what enhancedAction;
              log_timestamp := _timestamp enhancedAction |}])
  else nextState.

(** The [then] callback of the dispatch numbered [id] runs, which it does
    only once [Promise.all] is fulfilled: reducer, state replaced,
    subscribers notified. *)
Definition run_continuation (id : nat) (w : World) : World :=
  match find_continuation id w with
  | Some c =>
      if all_fulfilled c
      then
        let enhancedAction := k_action c in
        let nextState := next_state w enhancedAction in
        let w1 :=
          with_continuations w
            (filter (fun c' => has_id id c' = false) (continuations w)) in
        let w2 :=
          with_calls w1
            (calls w ++ [ReducerCalled (getState w) enhancedAction]) in
        notifySubscribers (with_store w2 (set_state (store w2) nextState))
      else w
  | None => w
  end.

(** The store of the application, [new Store(createReducer(),
    initialState)], before any middleware is registered. *)
Definition store_world (dev storedDarkMode : bool) : World :=
  {| store := newStore createReducer (initialState storedDarkMode);
     development := dev; continuations := []; calls := [] |}.

(** The persistence middleware and the development logger: both return
    [Promise.resolve().then(...)]. *)
Definition persistence_middleware : middleware :=
  {| mw_ref := 1; mw_call := fun _ _ => MwPromise |}.

Definition logger_middleware : middleware :=
  {| mw_ref := 0; mw_call := fun _ _ => MwPromise |}.

(** The exported [store]. *)
Definition app_store (dev storedDarkMode : bool) : World :=
  applyMiddleware persistence_middleware
    (if dev
     then applyMiddleware logger_middleware (store_world dev storedDarkMode)
     else store_world dev storedDarkMode).


(** The states subscriber [ref] was called with, one per call. *)
Definition notified (ref : nat) (cs : list call) : list State :=
  omap (fun c => match c with
                 | SubscriberCalled r s =>
                     if decide (r = ref) then Some s else None
                 | _ => None
                 end) cs.



(** The argument is no object, or its [type] is missing, empty or
    otherwise falsy. *)
Definition lacks_type (arg : dispatch_arg) : bool :=
  match arg with
  | ArgPrimitive _ => true
  | ArgObject a => negb (truthy (type a))
  end.

(** No middleware throws when called with this state and action. *)
Definition never_throws (ms : list middleware) (st : State) (a : action)
  : bool :=
  forallb (fun m => match mw_call m st a with
                    | MwThrows _ => false
                    | _ => true
                    end) ms.

Definition promise_of (st : State) (a : action) (m : middleware)
  : promise_state :=
  match mw_call m st a with MwValue => Fulfilled | _ => Pending end.

(** A subscriber that never throws. *)
Definition quiet_subscriber (ref : nat) : subscriber :=
  {| sub_ref := ref; sub_throws := fun _ => false |}.

End Store.

(* ===================================================================== *)
(** ** core/workers/api.worker.js *)
(* ===================================================================== *)

Module ApiWorker.
Import Js.

(** What [response.json()] or [response.text()] gives. *)
Inductive body : Type :=
| Text (s : string)
| JsonObject (o : obj)
| JsonArray (l : list obj)
| JsonValue (v : value).

Record cache_entry : Type := mkEntry {
  timestamp : N;
  data : body;
}.

(** A JavaScript [Map] with string keys: entries in insertion order, one
    per key. *)
Section JsMap.
Context {V : Type}.

Definition jsmap_has (k : string) (m : list (string * V)) : bool :=
  existsb (fun e => String.eqb (fst e) k) m.

Definition jsmap_get (k : string) (m : list (string * V)) : option V :=
  snd <$> find (fun e => String.eqb (fst e) k) m.

(** [m.set(k, v)]: a present key keeps its place. *)
Definition jsmap_set (k : string) (v : V) (m : list (string * V))
  : list (string * V) :=
  if jsmap_has k m
  then map (fun e => if String.eqb (fst e) k then (k, v) else e) m
  else m ++ [(k, v)].

Definition jsmap_delete (k : string) (m : list (string * V))
  : list (string * V) :=
  filter (fun e => fst e <> k) m.

Definition jsmap_keys (m : list (string * V)) : list string := map fst m.

End JsMap.

(** The [payload] object of a message: the properties [processRequest]
    and [purgeCache] read from it, each possibly missing. *)
Record payload : Type := mkPayload {
  url : option string;
  method : option string;
  body_ : option body;
  headers : gmap string string;
  useCache : option bool;
  cacheTTL : option Z;
  pattern : option string;
  olderThan : value;
}.

Definition empty_payload : payload :=
  {| url := None; method := None; body_ := None; headers := ∅;
     useCache := None; cacheTTL := None; pattern := None;
     olderThan := VUndef |}.

(** [`${s}`] for a string that may be undefined. *)
Definition template (s : option string) : string := default "undefined" s.

Definition defaultOptions_headers : gmap string string :=
  {[ "Content-Type" := "application/json"; "Accept" := "application/json" ]}.

(** [if (body)] for the body of a request. *)
Definition body_truthy (b : body) : bool :=
  match b with
  | Text s => negb (String.eqb s "")
  | JsonObject _ | JsonArray _ => true
  | JsonValue v => truthy v
  end.

(** The arguments of one [fetch(url, options)] call. *)
Record fetch_call : Type := mkFetch {
  f_url : option string;
  f_method : string;
  f_headers : gmap string string;
  f_body : option body;
}.

Record response : Type := mkResponse {
  ok : bool;
  status : Z;
  statusText : string;
  response_headers : list (string * string);
  response_data : body;
}.

(** How the network call ends: [fetch] or the reading of the body throws,
    or a response arrives with its body, after [responseTime] ms. *)
Inductive fetch_outcome : Type :=
| FetchFails (message : string)
| FetchResponds (r : response) (responseTime : Z).

(** The [result] objects posted back. *)
Inductive result : Type :=
| FromCache (d : body)                       (* {success: true, data, fromCache: true} *)
| Fetched (success : bool) (st : Z) (stText : string)
          (hs : list (string * string)) (d : body) (responseTime : Z)
| NetworkError (error : string)              (* {success: false, error, isNetworkError: true} *)
| Purged (purged : list string)              (* {purged} *)
| CacheStats (size : nat) (keys : list string) (totalSize : nat)
| Unsupported (error : string).              (* {success: false, error} *)

Record envelope : Type := mkEnvelope {
  env_id : string;
  env_result : result;
}.

(** The executor: its cache, the network calls it has made and the
    messages it has posted. *)
Record Worker : Type := mkWorker {
  apiCache : list (string * cache_entry);
  fetches : list fetch_call;
  posted : list envelope;
}.

Definition with_cache (w : Worker) (c : list (string * cache_entry))
  : Worker :=
  {| apiCache := c; fetches := fetches w; posted := posted w |}.

Definition with_fetch (w : Worker) (f : fetch_call) : Worker :=
  {| apiCache := apiCache w; fetches := fetches w ++ [f];
     posted := posted w |}.

Definition post (w : Worker) (e : envelope) : Worker :=
  {| apiCache := apiCache w; fetches := fetches w;
     posted := posted w ++ [e] |}.

(** What [processRequest] keeps across its [await fetch(...)]. *)
Record in_flight : Type := mkInFlight {
  fl_cacheKey : string;
  fl_method : string;
  fl_useCache : bool;
}.

Inductive step (A : Type) : Type :=
| Done (r : A)
| Awaiting (p : in_flight).
Arguments Done {A} r.
Arguments Awaiting {A} p.

(** [processRequest(request)] up to [await fetch(url, options)], entered
    when [Date.now()] is [now]. *)
Definition processRequest_begin (request : payload) (now : N) (w : Worker)
  : step result * Worker :=
  let method_ := default "GET" (method request) in
  let useCache_ := default false (useCache request) in
  let cacheTTL_ := default 300000%Z (cacheTTL request) in
  let cacheKey := method_ +:+ ":" +:+ template (url request) in
  let options :=
    {| f_url := url request; f_method := method_;
       f_headers := headers request ∪ defaultOptions_headers;
       f_body :=
         if String.eqb method_ "GET" then None
         else match body_ request with
              | Some b => if body_truthy b then Some b else None
              | None => None
              end |} in
  let in_flight_ :=
    {| fl_cacheKey := cacheKey; fl_method := method_;
       fl_useCache := useCache_ |} in
  if String.eqb method_ "GET" && useCache_ && jsmap_has cacheKey (apiCache w)
  then
    match jsmap_get cacheKey (apiCache w) with
    | Some cachedData =>
        let isCacheValid :=
          (Z.of_N now - Z.of_N (timestamp cachedData) <? cacheTTL_)%Z in
        if isCacheValid
        then (Done (FromCache (data cachedData)), w)
        else
          (Awaiting in_flight_,
           with_fetch (with_cache w (jsmap_delete cacheKey (apiCache w)))
                      options)
    | None => (Awaiting in_flight_, with_fetch w options)
    end
  else (Awaiting in_flight_, with_fetch w options).

(** [processRequest] from the moment the network call ends, when
    [Date.now()] is [now]. *)
Definition processRequest_resume (p : in_flight) (o : fetch_outcome)
    (now : N) (w : Worker) : result * Worker :=
  match o with
  | FetchFails message => (NetworkError message, w)
  | FetchResponds r responseTime =>
      let result_ :=
        Fetched (ok r) (status r) (statusText r) (response_headers r)
                (response_data r) responseTime in
      if ok r && String.eqb (fl_method p) "GET" && fl_useCache p
      then (result_,
            with_cache w
              (jsmap_set (fl_cacheKey p)
                 {| timestamp := now; data := response_data r |}
                 (apiCache w)))
      else (result_, w)
  end.

Section Platform.

(** [new RegExp(pattern)]: [None] when the pattern is no regular
    expression (a [SyntaxError]), otherwise its [test] method. *)
Variable RegExp : string -> option (string -> bool).

(** [JSON.stringify(item).length] *)
Variable JSON_stringify_length : cache_entry -> nat.

Definition is_number (v : value) : bool :=
  match v with VNum _ | VNaN => true | _ => false end.

Definition number_of (v : value) : Z :=
  match v with VNum n => n | _ => 0%Z end.

(** [if (s)] for a string that may be undefined. *)
Definition given (s : option string) : bool :=
  match s with
  | Some x => negb (String.eqb x "")
  | None => false
  end.

(** [purgeCache(options)], called when [Date.now()] is [now]. *)
Definition purgeCache (options : payload) (now : N)
    (cache : list (string * cache_entry))
  : completion (list string) * list (string * cache_entry) :=
  if given (url options)
  then
    let getKey := "GET:" +:+ template (url options) in
    (Returns [getKey], jsmap_delete getKey cache)
  else if given (pattern options)
  then
    match RegExp (template (pattern options)) with
    | None => (Throws (Error "Invalid regular expression"), cache)
    | Some test =>
        (Returns (filter (fun key => test key = true) (jsmap_keys cache)),
         filter (fun e => test (fst e) = false) cache)
    end
  else if truthy (olderThan options) && is_number (olderThan options)
  then
    let threshold := (Z.of_N now - number_of (olderThan options))%Z in
    let old (e : string * cache_entry) : bool :=
      (Z.of_N (timestamp (snd e)) <? threshold)%Z in
    (Returns (map fst (filter (fun e => old e = true) cache)),
     filter (fun e => old e = false) cache)
  else
    (Returns (jsmap_keys cache), []).

(** [getCacheStats()] *)
Definition getCacheStats (cache : list (string * cache_entry)) : result :=
  CacheStats (length cache) (jsmap_keys cache)
    (foldl (fun total item => total + JSON_stringify_length item) 0
           (map snd cache)).

(** A message [{id, action, payload}]. *)
Record message : Type := mkMessage {
  msg_id : string;
  msg_action : option string;
  msg_payload : option payload;
}.

(** How far the listener gets before it first waits: it has posted its
    answer, it waits for the network, or it threw (an unhandled rejection
    of the [async] listener, nothing posted). *)
Inductive listening : Type :=
| Answered
| WaitingForFetch (id : string) (p : in_flight)
| Failed (e : exn).

(** The [switch (action)] of the listener. *)
Inductive case : Type :=
| CaseRequest | CasePurgeCache | CaseGetCacheStats | CaseDefault.

Definition switch (action : option string) : case :=
  match action with
  | Some a =>
      if String.eqb a "request" then CaseRequest
      else if String.eqb a "purgeCache" then CasePurgeCache
      else if String.eqb a "getCacheStats" then CaseGetCacheStats
      else CaseDefault
  | None => CaseDefault
  end.

(** The [message] listener up to the first [await] that suspends it. *)
Definition listener_begin (m : message) (now : N) (w : Worker)
  : listening * Worker :=
  match switch (msg_action m) with
  | CaseRequest =>
      match msg_payload m with
      | None => (Failed (TypeError "Cannot destructure undefined"), w)
      | Some request =>
          match processRequest_begin request now w with
          | (Done r, w') =>
              (Answered, post w' {| env_id := msg_id m; env_result := r |})
          | (Awaiting p, w') => (WaitingForFetch (msg_id m) p, w')
          end
      end
  | CasePurgeCache =>
      match purgeCache (default empty_payload (msg_payload m)) now
                       (apiCache w) with
      | (Returns keys, cache') =>
          (Answered,
           post (with_cache w cache')
                {| env_id := msg_id m; env_result := Purged keys |})
      | (Throws e, cache') => (Failed e, with_cache w cache')
      end
  | CaseGetCacheStats =>
      (Answered,
       post w {| env_id := msg_id m;
                 env_result := getCacheStats (apiCache w) |})
  | CaseDefault =>
      (Answered,
       post w {| env_id := msg_id m;
                 env_result :=
                   Unsupported ("Acción no soportada: "
                                +:+ template (msg_action m)) |})
  end.

(** The listener once the network call of its request has ended. *)
Definition listener_resume (id : string) (p : in_flight) (o : fetch_outcome)
    (now : N) (w : Worker) : Worker :=
  let '(r, w') := processRequest_resume p o now w in
  post w' {| env_id := id; env_result := r |}.

Definition supported (action : option string) : bool :=
  match action with
  | Some a =>
      String.eqb a "request" || String.eqb a "purgeCache"
      || String.eqb a "getCacheStats"
  | None => false
  end.

End Platform.

(** A [GET] request with the cache enabled, as the facade sends it. *)
Definition get_request (u : string) (ttl : Z) : payload :=
  {| url := Some u; method := Some "GET"; body_ := None; headers := ∅;
     useCache := Some true; cacheTTL := Some ttl; pattern := None;
     olderThan := VUndef |}.

(** The cache holds an entry under [key] that is younger than [ttl]. *)
Definition fresh (key : string) (ttl : Z) (now : N)
    (cache : list (string * cache_entry)) : bool :=
  match jsmap_get key cache with
  | Some e => (Z.of_N now - Z.of_N (timestamp e) <? ttl)%Z
  | None => false
  end.

Definition server_error : response :=
  {| ok := false; status := 500; statusText := "Internal Server Error";
     response_headers := []; response_data := Text "" |}.

(** The keys a call removed: present before it, absent after it. *)
Definition evicted (before after : list (string * cache_entry))
  : list string :=
  filter (fun k => jsmap_has k after = false) (jsmap_keys before).

Definition url_options (u : string) : payload :=
  {| url := Some u; method := None; body_ := None; headers := ∅;
     useCache := None; cacheTTL := None; pattern := None;
     olderThan := VUndef |}.

Definition new_worker : Worker :=
  {| apiCache := []; fetches := []; posted := [] |}.

End ApiWorker.

(* ===================================================================== *)
(** ** core/workers/worker-bridge.js *)
(* ===================================================================== *)

Module WorkerBridge.
Import Js.

(** [`msg_${Date.now()}_${messageIdCounter}`] *)
Definition message_id (now : N) (counter : nat) : string :=
  "msg_" +:+ pretty now +:+ "_" +:+ pretty counter.

(** [event.data] of a message coming from a worker. *)
Record inbound : Type := mkInbound {
  in_id : option string;
  in_result : option ApiWorker.result;
  in_type : option string;
  in_message : option string;
}.

(** A call of the [resolve] or of the [reject] of a promise. *)
Inductive settlement : Type :=
| Resolved (result : option ApiWorker.result)
| RejectedWith (e : exn).

(** The closure given to [setTimeout] by [sendToWorker]. *)
Record timer : Type := mkTimer {
  t_messageId : string;
  t_promise : nat;
  t_workerName : string;
}.

(** The message listener that [initWorker] puts on a worker. *)
Record listener : Type := mkListener {
  l_name : string;
  l_promise : nat;      (* the promise [initWorker] returned *)
}.

(** The module's variables, and around them what the event loop holds:
    objects are named by the number they were created with; promises are
    observed through the calls of their [resolve] and [reject]. *)
Record Bridge : Type := mkBridge {
  workers : gmap string nat;             (* name -> Worker object *)
  pendingCallbacks : gmap string nat;    (* message id -> promise *)
  messageIdCounter : nat;
  next_ref : nat;                        (* the next object created *)
  listeners : gmap nat listener;         (* Worker object -> its listener *)
  outbox : list (nat * ApiWorker.message);   (* postMessage calls *)
  timers : list timer;                   (* armed, not fired *)
  settlements : list (nat * settlement); (* of sendToWorker promises *)
  init_settlements : list (nat * option nat);
                                         (* of initWorker promises *)
  terminated : list nat;                 (* terminate() calls *)
}.

Definition new_bridge : Bridge :=
  {| workers := ∅; pendingCallbacks := ∅; messageIdCounter := 0;
     next_ref := 0; listeners := ∅; outbox := []; timers := [];
     settlements := []; init_settlements := []; terminated := [] |}.

Definition set_pending (b : Bridge) (m : gmap string nat) : Bridge :=
  {| workers := workers b; pendingCallbacks := m;
     messageIdCounter := messageIdCounter b; next_ref := next_ref b;
     listeners := listeners b; outbox := outbox b; timers := timers b;
     settlements := settlements b;
     init_settlements := init_settlements b; terminated := terminated b |}.

Definition settle (b : Bridge) (p : nat) (s : settlement) : Bridge :=
  {| workers := workers b; pendingCallbacks := pendingCallbacks b;
     messageIdCounter := messageIdCounter b; next_ref := next_ref b;
     listeners := listeners b; outbox := outbox b; timers := timers b;
     settlements := settlements b ++ [(p, s)];
     init_settlements := init_settlements b; terminated := terminated b |}.

Definition settle_init (b : Bridge) (p : nat) (w : option nat) : Bridge :=
  {| workers := workers b; pendingCallbacks := pendingCallbacks b;
     messageIdCounter := messageIdCounter b; next_ref := next_ref b;
     listeners := listeners b; outbox := outbox b; timers := timers b;
     settlements := settlements b;
     init_settlements := init_settlements b ++ [(p, w)];
     terminated := terminated b |}.

Definition set_timers (b : Bridge) (l : list timer) : Bridge :=
  {| workers := workers b; pendingCallbacks := pendingCallbacks b;
     messageIdCounter := messageIdCounter b; next_ref := next_ref b;
     listeners := listeners b; outbox := outbox b; timers := l;
     settlements := settlements b;
     init_settlements := init_settlements b; terminated := terminated b |}.

(** [initWorker(name, workerPath)]; [spawns] is false when [new Worker]
    throws.  Returns the promise. *)
Definition initWorker (name workerPath : string) (spawns : bool)
    (b : Bridge) : nat * Bridge :=
  let promise := next_ref b in
  if spawns
  then
    let worker := S (next_ref b) in
    (promise,
     {| workers := <[name := worker]> (workers b);
        pendingCallbacks := pendingCallbacks b;
        messageIdCounter := messageIdCounter b;
        next_ref := S (S (next_ref b));
        listeners := <[worker := mkListener name promise]> (listeners b);
        outbox := outbox b; timers := timers b;
        settlements := settlements b;
        init_settlements := init_settlements b;
        terminated := terminated b |})
  else
    (promise,
     {| workers := workers b; pendingCallbacks := pendingCallbacks b;
        messageIdCounter := messageIdCounter b;
        next_ref := S (next_ref b);
        listeners := listeners b; outbox := outbox b; timers := timers b;
        settlements := settlements b;
        init_settlements := init_settlements b ++ [(promise, None)];
        terminated := terminated b |}).

(** [id && ...] *)
Definition nonempty_id (id : option string) : option string :=
  match id with
  | Some s => if String.eqb s "" then None else Some s
  | None => None
  end.

Definition is_init (d : inbound) : bool :=
  match in_type d with Some t => String.eqb t "init" | None => false end.

(** The listener of worker object [worker] receives [data]. *)
Definition on_message (worker : nat) (d : inbound) (b : Bridge) : Bridge :=
  match listeners b !! worker with
  | None => b
  | Some l =>
      if is_init d
      then settle_init b (l_promise l) (Some worker)
      else
        match nonempty_id (in_id d) with
        | Some id =>
            match pendingCallbacks b !! id with
            | Some promise =>
                settle (set_pending b (delete id (pendingCallbacks b)))
                       promise (Resolved (in_result d))
            | None => b
            end
        | None => b
        end
  end.

(** The [error] listener of worker object [worker]. *)
Definition on_error (worker : nat) (b : Bridge) : Bridge :=
  match listeners b !! worker with
  | None => b
  | Some l => settle_init b (l_promise l) None
  end.

(** [sendToWorker(workerName, action, payload)], called when
    [Date.now()] is [now].  Returns the promise. *)
Definition sendToWorker (workerName action : string)
    (payload : option ApiWorker.payload) (now : N) (b : Bridge)
  : nat * Bridge :=
  let promise := next_ref b in
  match workers b !! workerName with
  | None =>
      (promise,
       {| workers := workers b; pendingCallbacks := pendingCallbacks b;
          messageIdCounter := messageIdCounter b;
          next_ref := S (next_ref b);
          listeners := listeners b; outbox := outbox b;
          timers := timers b;
          settlements :=
            settlements b ++
            [(promise,
              RejectedWith
                (Error ("Worker [" +:+ workerName +:+ "] no inicializado")))];
          init_settlements := init_settlements b;
          terminated := terminated b |})
  | Some worker =>
      let messageId := message_id now (messageIdCounter b) in
      (promise,
       {| workers := workers b;
          pendingCallbacks := <[messageId := promise]> (pendingCallbacks b);
          messageIdCounter := S (messageIdCounter b);
          next_ref := S (next_ref b);
          listeners := listeners b;
          outbox :=
            outbox b ++
            [(worker,
              {| ApiWorker.msg_id := messageId;
                 ApiWorker.msg_action := Some action;
                 ApiWorker.msg_payload :=
                   Some (default ApiWorker.empty_payload payload) |})];
          timers := timers b ++ [mkTimer messageId promise workerName];
          settlements := settlements b;
          init_settlements := init_settlements b;
          terminated := terminated b |})
  end.

(** The [i]-th armed timer fires, 30 seconds after its request. *)
Definition timer_fires (i : nat) (b : Bridge) : Bridge :=
  match timers b !! i with
  | None => b
  | Some t =>
      let b' := set_timers b (delete i (timers b)) in
      match pendingCallbacks b !! t_messageId t with
      | Some _ =>
          settle (set_pending b' (delete (t_messageId t) (pendingCallbacks b)))
            (t_promise t)
            (RejectedWith
               (Error ("Timeout al esperar respuesta del worker ["
                       +:+ t_workerName t +:+ "]")))
      | None => b'
      end
  end.

(** [terminateWorker(name)] *)
Definition terminateWorker (name : string) (b : Bridge) : Bridge :=
  match workers b !! name with
  | Some worker =>
      {| workers := delete name (workers b);
         pendingCallbacks :=
           filter (fun entry => startsWith (fst entry) (name +:+ "_") = false)
                  (pendingCallbacks b);
         messageIdCounter := messageIdCounter b; next_ref := next_ref b;
         listeners := listeners b; outbox := outbox b; timers := timers b;
         settlements := settlements b;
         init_settlements := init_settlements b;
         terminated := terminated b ++ [worker] |}
  | None => b
  end.

(** [terminateAllWorkers()] *)
Definition terminateAllWorkers (b : Bridge) : Bridge :=
  set_pending
    (foldr terminateWorker b (map fst (map_to_list (workers b))))
    ∅.

(** What can happen to the bridge, one event at a time. *)
Inductive event : Type :=
| InitWorker (name workerPath : string) (spawns : bool)
| Send (workerName action : string) (payload : option ApiWorker.payload)
       (now : N)
| Message (worker : nat) (d : inbound)
| WorkerError (worker : nat)
| TimerFires (i : nat)
| Terminate (name : string)
| TerminateAll.

Definition step (b : Bridge) (e : event) : Bridge :=
  match e with
  | InitWorker name path spawns => snd (initWorker name path spawns b)
  | Send name action payload now =>
      snd (sendToWorker name action payload now b)
  | Message worker d => on_message worker d b
  | WorkerError worker => on_error worker b
  | TimerFires i => timer_fires i b
  | Terminate name => terminateWorker name b
  | TerminateAll => terminateAllWorkers b
  end.

Definition run (events : list event) (b : Bridge) : Bridge :=
  fold_left step events b.

(** The ids handed out so far, in order. *)
Definition ids_sent (b : Bridge) : list string :=
  map (fun m => ApiWorker.msg_id (snd m)) (outbox b).

(** The calls of [resolve] and [reject] made on promise [p]. *)
Definition settled (p : nat) (b : Bridge) : list settlement :=
  omap (fun s => if decide (fst s = p) then Some (snd s) else None)
       (settlements b).

(** An event that is neither a response carrying [id], nor a timer, nor a
    termination. *)
Definition keeps_waiting (id : string) (e : event) : bool :=
  match e with
  | Message _ d =>
      is_init d
      || match nonempty_id (in_id d) with
         | Some id' => negb (String.eqb id' id)
         | None => true
         end
  | TimerFires _ | Terminate _ | TerminateAll => false
  | _ => true
  end.

(** A response envelope [{id, result}], as the executor posts it. *)
Definition response_with (id : string) (r : ApiWorker.result) : inbound :=
  {| in_id := Some id; in_result := Some r; in_type := None;
     in_message := None |}.

Fixpoint has_char (c : Ascii.ascii) (s : string) : bool :=
  match s with
  | EmptyString => false
  | String c' s' => Ascii.eqb c' c || has_char c s'
  end.

Definition is_message_id (counter : nat) (id : string) : Prop :=
  exists (t : N) (c : nat), id = message_id t c /\ c < counter.

(** What holds of the bridge whatever has happened to it. *)
Record invariant (b : Bridge) : Prop := mkInvariant {
  inv_pending_id :
    forall id p, pendingCallbacks b !! id = Some p ->
                 is_message_id (messageIdCounter b) id;
  inv_pending_sent :
    forall id p, pendingCallbacks b !! id = Some p -> id ∈ ids_sent b;
  inv_pending_ref :
    forall id p, pendingCallbacks b !! id = Some p -> p < next_ref b;
  inv_pending_inj :
    forall id1 id2 p, pendingCallbacks b !! id1 = Some p ->
                      pendingCallbacks b !! id2 = Some p -> id1 = id2;
  inv_pending_unsettled :
    forall id p, pendingCallbacks b !! id = Some p ->
                 p ∉ map fst (settlements b);
  inv_settled_ref :
    forall p, p ∈ map fst (settlements b) -> p < next_ref b;
  inv_settled_once : NoDup (map fst (settlements b));
  inv_timer :
    forall t, t ∈ timers b ->
      is_message_id (messageIdCounter b) (t_messageId t)
      /\ forall p, pendingCallbacks b !! t_messageId t = Some p ->
                   p = t_promise t;
  inv_sent_id :
    forall id, id ∈ ids_sent b -> is_message_id (messageIdCounter b) id;
  inv_sent_once : NoDup (ids_sent b);
  inv_workers :
    forall name w, workers b !! name = Some w -> is_Some (listeners b !! w);
}.

(** The request numbered [id] has been answered for good: its promise [p]
    was settled by [s] and its entry is gone. *)
Definition answered (id : string) (p : nat) (s : settlement) (b : Bridge)
  : Prop :=
  pendingCallbacks b !! id = None /\ id ∈ ids_sent b /\ settled p b = [s].

End WorkerBridge.

(* ===================================================================== *)
(** ** core/services/api.service.js *)
(* ===================================================================== *)

Module ApiService.
Import Js Actions Reducers.

Definition API_BASE_URL : string := "http://localhost:3000".

(** [apiUrl(path)] of config.js *)
Definition apiUrl (path : string) : string :=
  API_BASE_URL +:+ (if startsWith path "/" then path else "/" +:+ path).

(** The [options] of [request]. *)
Record options : Type := mkOptions {
  body : option ApiWorker.body;
  params : option (list (string * value));
  useCache : option bool;
  showLoader : option bool;
}.

Definition no_options : options :=
  {| body := None; params := None; useCache := None; showLoader := None |}.

(** The singleton, the store it dispatches to and the bridge it sends
    through. *)
Record App : Type := mkApp {
  initialized : bool;
  pendingRequests : gset string;
  store : Store.World;
  bridge : WorkerBridge.Bridge;
}.

Definition with_pending (a : App) (s : gset string) : App :=
  {| initialized := initialized a; pendingRequests := s;
     store := store a; bridge := bridge a |}.

Definition with_store (a : App) (w : Store.World) : App :=
  {| initialized := initialized a; pendingRequests := pendingRequests a;
     store := w; bridge := bridge a |}.

Definition with_bridge (a : App) (b : WorkerBridge.Bridge) : App :=
  {| initialized := initialized a; pendingRequests := pendingRequests a;
     store := store a; bridge := b |}.

(** [store.dispatch(action)] for an action made by an action creator. *)
Definition store_dispatch (now : N) (action : action) (a : App) : App :=
  with_store a (snd (Store.dispatch now (Store.ArgObject action) (store a))).

(** [abortPendingRequests()] *)
Definition abortPendingRequests (a : App) : App := with_pending a ∅.

(** [x || y] on values. *)
Definition or_else (x y : value) : value := if truthy x then x else y.

(** [_handleError(error)]: records the error in the store and throws
    [error] again. *)
Definition _handleError (error : obj) (now : N) (a : App) : exn * App :=
  (ThrownObject error,
   store_dispatch now
     (setError
        {[ "message" :=
             or_else (get error "message")
                     (VStr "Error de comunicación con el servidor");
           "code" := or_else (get error "status") (VStr "NETWORK_ERROR");
           "timestamp" := VNum (Z.of_N now) ]})
     a).

Section Platform.

(** [queryParams.toString()] for the pairs appended to a
    [URLSearchParams]. *)
Variable URLSearchParams_toString : list (string * string) -> string.

Definition is_nullish (v : value) : bool :=
  match v with VUndef | VNull => true | _ => false end.

(** The URL [request] builds. *)
Definition request_url (endpoint : string) (o : options) : string :=
  let url := apiUrl endpoint in
  match params o with
  | Some ps =>
      let queryParams :=
        map (fun kv => (fst kv, to_string (snd kv)))
            (filter (fun kv => is_nullish (snd kv) = false) ps) in
      let queryString := URLSearchParams_toString queryParams in
      if String.eqb queryString "" then url
      else url +:+ (if WorkerBridge.has_char "?"%char url then "&" else "?")
               +:+ queryString
  | None => url
  end.

(** What [request] keeps across its [await sendToWorker(...)]. *)
Record suspended : Type := mkSuspended {
  requestId : string;
  s_showLoader : bool;
  s_promise : nat;
}.

(** [request(method, endpoint, options)] up to its [await], entered when
    [Date.now()] is [now]. *)
Definition request_begin (method endpoint : string) (o : options) (now : N)
    (a : App) : suspended * App :=
  let useCache_ := default true (useCache o) in
  let showLoader_ := default true (showLoader o) in
  let url := request_url endpoint o in
  let requestId_ := method +:+ ":" +:+ url +:+ ":" +:+ pretty now in
  let a1 := with_pending a ({[ requestId_ ]} ∪ pendingRequests a) in
  let a2 := if showLoader_ then store_dispatch now (setLoading true) a1
            else a1 in
  let '(promise, b) :=
    WorkerBridge.sendToWorker "api" "request"
      (Some {| ApiWorker.url := Some url;
               ApiWorker.method := Some method;
               ApiWorker.body_ := body o;
               ApiWorker.headers := ∅;
               ApiWorker.useCache :=
                 Some (useCache_ && String.eqb method "GET");
               ApiWorker.cacheTTL := Some 300000%Z;
               ApiWorker.pattern := None;
               ApiWorker.olderThan := VUndef |})
      now (bridge a2) in
  ({| requestId := requestId_; s_showLoader := showLoader_;
      s_promise := promise |},
   with_bridge a2 b).

(** [response.success], [response.status] and [response.data?.error] *)
Definition response_success (r : ApiWorker.result) : bool :=
  match r with
  | ApiWorker.FromCache _ => true
  | ApiWorker.Fetched success _ _ _ _ _ => success
  | _ => false
  end.

Definition response_status (r : ApiWorker.result) : value :=
  match r with
  | ApiWorker.Fetched _ st _ _ _ _ => VNum st
  | _ => VUndef
  end.

Definition response_data (r : ApiWorker.result) : option ApiWorker.body :=
  match r with
  | ApiWorker.FromCache d => Some d
  | ApiWorker.Fetched _ _ _ _ d _ => Some d
  | _ => None
  end.

Definition data_error (d : option ApiWorker.body) : value :=
  match d with
  | Some (ApiWorker.JsonObject o) => get o "error"
  | _ => VUndef
  end.

(** The [catch] block of [request]: the error is recorded and thrown. *)
Definition request_catch (message : value) (now : N) (a : App)
  : completion (option ApiWorker.body) * App :=
  let '(e, a') :=
    _handleError
      {[ "message" := or_else message (VStr "Error de conexión");
         "status" := VStr "NETWORK_ERROR" ]} now a in
  (Throws e, a').

Definition exn_message (e : exn) : value :=
  match e with
  | Error m | TypeError m => VStr m
  | ThrownObject o => get o "message"
  end.

(** [request] from the moment the promise of [sendToWorker] is settled,
    when [Date.now()] is [now]. *)
Definition request_resume (s : suspended)
    (outcome : WorkerBridge.settlement) (now : N) (a : App)
  : completion (option ApiWorker.body) * App :=
  match outcome with
  | WorkerBridge.RejectedWith e => request_catch (exn_message e) now a
  | WorkerBridge.Resolved None =>
      request_catch (VStr "Cannot read properties of undefined") now
        (let a1 := with_pending a (pendingRequests a ∖ {[ requestId s ]}) in
         if s_showLoader s && bool_decide (size (pendingRequests a1) = 0)
         then store_dispatch now (setLoading false) a1 else a1)
  | WorkerBridge.Resolved (Some response) =>
      let a1 := with_pending a (pendingRequests a ∖ {[ requestId s ]}) in
      let a2 :=
        if s_showLoader s && bool_decide (size (pendingRequests a1) = 0)
        then store_dispatch now (setLoading false) a1 else a1 in
      if negb (response_success response)
      then
        let error : obj :=
          {[ "message" :=
               or_else (data_error (response_data response))
                       (VStr "Error en la petición");
             "status" := response_status response ]} in
        let '(thrown, a3) := _handleError error now a2 in
        request_catch (exn_message thrown) now a3
      else (Returns (response_data response), a2)
  end.

End Platform.

(** The application after start-up: the store with its middleware, the
    [api] worker initialised, nothing pending. *)
Definition started : App :=
  {| initialized := true; pendingRequests := ∅;
     store := Store.app_store false false;
     bridge :=
       snd (WorkerBridge.initWorker "api" "src/core/workers/api.worker.js"
              true WorkerBridge.new_bridge) |}.

End ApiService.

(* ===================================================================== *)
(** ** More of core/store/actions.js and of the reducers' vocabulary *)
(* ===================================================================== *)

Module Notifications.
Import Js Actions Reducers.

(** The payload of the [show...Notification] helpers, built when
    [Date.now()] is [now]. *)
Definition notification (now : N) (message type_ : string) (duration : Z)
  : obj :=
  {[ "id" := VNum (Z.of_N now);
     "message" := VStr message;
     "type" := VStr type_;
     "duration" := VNum duration;
     "displayed" := VBool false ]}.

Definition showSuccessNotification (now : N) (message : string) : action :=
  createAction (AddNotification (notification now message "success" 5000)).

Definition showErrorNotification (now : N) (message : string) : action :=
  createAction (AddNotification (notification now message "error" 7000)).

Definition showWarningNotification (now : N) (message : string) : action :=
  createAction (AddNotification (notification now message "warning" 6000)).

Definition showInfoNotification (now : N) (message : string) : action :=
  createAction (AddNotification (notification now message "info" 5000)).

End Notifications.

Module Slices.
Import Js Actions Reducers.

(** The action types for which a slice reducer has a [case]. *)
Definition loading_case (k : kind) : bool :=
  match k with SetLoading _ => true | _ => false end.

Definition ui_case (k : kind) : bool :=
  match k with
  | SetLoading _ | SetDarkMode _ | ToggleMenu _ | SetFilterStatus _ => true
  | _ => false
  end.

Definition incidents_case (k : kind) : bool :=
  match k with
  | SetIncidents _ | AddIncident _ | UpdateIncident _ | DeleteIncident _ =>
      true
  | _ => false
  end.

Definition currentIncident_case (k : kind) : bool :=
  match k with
  | SetCurrentIncident _ | ClearCurrentIncident | UpdateIncident _
  | DeleteIncident _ => true
  | _ => false
  end.

Definition notifications_case (k : kind) : bool :=
  match k with
  | AddNotification _ | RemoveNotification _ | MarkNotificationDisplayed _ =>
      true
  | _ => false
  end.

Definition error_case (k : kind) : bool :=
  match k with SetError _ | ClearError => true | _ => false end.

(** The selected incident, when there is one, is an element of the
    list. *)
Definition selected_is_listed (st : State) : Prop :=
  match currentIncident st with
  | Some c => c ∈ incidents st
  | None => True
  end.

(** The actions that replace the list or the selection wholesale. *)
Definition replaces (k : kind) : bool :=
  match k with
  | SetIncidents _ | SetCurrentIncident _ => true
  | _ => false
  end.

End Slices.

(* ===================================================================== *)
(** ** The store over time *)
(* ===================================================================== *)

Module StoreRuns.
Import Js Actions Reducers Store.

(** What can be done to the store, and what its event loop can do. *)
Inductive store_event : Type :=
| Subscribe (s : subscriber)
| Unsubscribe (s : subscriber)
| ApplyMiddleware (m : middleware)
| Dispatch (now : N) (arg : dispatch_arg)
| Settle (id k : nat) (ok : bool)
| RunContinuation (id : nat)
| Reset (storedDarkMode : bool).

Definition store_step (w : World) (e : store_event) : World :=
  match e with
  | Subscribe s => subscribe s w
  | Unsubscribe s => unsubscribe s w
  | ApplyMiddleware m => applyMiddleware m w
  | Dispatch now arg => snd (dispatch now arg w)
  | Settle id k ok => settle id k ok w
  | RunContinuation id => run_continuation id w
  | Reset d => reset d w
  end.

Definition store_run (events : list store_event) (w : World) : World :=
  fold_left store_step events w.

(** The calls made from world [w] to the later world [w']. *)
Definition calls_since (w w' : World) : list call :=
  drop (length (calls w)) (calls w').

(** The middlewares called by a list of calls, in order. *)
Definition middlewares_called (cs : list call) : list nat :=
  omap (fun c => match c with MiddlewareCalled r _ => Some r | _ => None end)
       cs.

End StoreRuns.

(* ===================================================================== *)
(** ** The persistence middleware of store.js *)
(* ===================================================================== *)

Module Persistence.
Import Js Actions Reducers Store StoreRuns.

(** The members of the [actions] object that actions.js exports, each
    with what its [type] property reads as: a creator made by
    [createAction] carries its action type, the four notification helpers
    are plain arrow functions. *)
Definition actions : list (string * value) :=
  [ ("setLoading", VStr ActionTypes.UI.SET_LOADING);
    ("setDarkMode", VStr ActionTypes.UI.SET_DARK_MODE);
    ("toggleMenu", VStr ActionTypes.UI.TOGGLE_MENU);
    ("setFilterStatus", VStr ActionTypes.UI.SET_FILTER_STATUS);
    ("loadIncidents", VStr ActionTypes.INCIDENTS.LOAD_INCIDENTS);
    ("setIncidents", VStr ActionTypes.INCIDENTS.SET_INCIDENTS);
    ("addIncident", VStr ActionTypes.INCIDENTS.ADD_INCIDENT);
    ("updateIncident", VStr ActionTypes.INCIDENTS.UPDATE_INCIDENT);
    ("deleteIncident", VStr ActionTypes.INCIDENTS.DELETE_INCIDENT);
    ("setCurrentIncident", VStr ActionTypes.INCIDENTS.SET_CURRENT_INCIDENT);
    ("clearCurrentIncident",
     VStr ActionTypes.INCIDENTS.CLEAR_CURRENT_INCIDENT);
    ("addNotification", VStr ActionTypes.NOTIFICATIONS.ADD_NOTIFICATION);
    ("removeNotification",
     VStr ActionTypes.NOTIFICATIONS.REMOVE_NOTIFICATION);
    ("markNotificationDisplayed",
     VStr ActionTypes.NOTIFICATIONS.MARK_NOTIFICATION_DISPLAYED);
    ("setError", VStr ActionTypes.ERRORS.SET_ERROR);
    ("clearError", VStr ActionTypes.ERRORS.CLEAR_ERROR);
    ("showSuccessNotification", VUndef);
    ("showErrorNotification", VUndef);
    ("showWarningNotification", VUndef);
    ("showInfoNotification", VUndef) ].

(** [actions.<name>.type]: reading [type] of a member that is not there
    throws. *)
Definition member_type (name : string) : completion value :=
  match ApiWorker.jsmap_get name actions with
  | Some t => Returns t
  | None =>
      Throws (TypeError "Cannot read properties of undefined (reading 'type')")
  end.

(** The callback the persistence middleware gives to
    [Promise.resolve().then]: the [localStorage.setItem] it makes, if
    any, or what it throws. *)
Definition persistence_callback (st : State) (a : action)
  : completion (option (string * string)) :=
  match member_type "SET_DARK_MODE" with
  | Throws e => Throws e
  | Returns t =>
      if strict_eq (type a) t
      then Returns (Some ("darkMode", to_string (VBool (darkMode (ui st)))))
      else Returns None
  end.

(** The promise a [then] returns is fulfilled when its callback returns
    and rejected when it throws. *)
Definition fulfils {A : Type} (c : completion A) : bool :=
  match c with Returns _ => true | Throws _ => false end.

(** The place of the persistence middleware among the middlewares of the
    exported store. *)
Definition persistence_index (dev : bool) : nat := if dev then 1 else 0.

(** An event of the store as the code lets it happen: the promise of the
    persistence middleware settles the way its callback ends. *)
Definition as_coded (dev : bool) (w : World) (e : store_event) : bool :=
  match e with
  | Settle id k ok =>
      if Nat.eqb k (persistence_index dev)
      then
        match find_continuation id w with
        | Some c =>
            Bool.eqb ok
              (fulfils (persistence_callback (getState w) (k_action c)))
        | None => true
        end
      else true
  | _ => true
  end.

Fixpoint coded_run (dev : bool) (events : list store_event) (w : World)
  : bool :=
  match events with
  | [] => true
  | e :: events' =>
      as_coded dev w e && coded_run dev events' (store_step w e)
  end.

Definition is_reducer_call (c : call) : bool :=
  match c with ReducerCalled _ _ => true | _ => false end.

(** The dispatch numbered [id] was not reduced by this call. *)
Definition spares (id : nat) (c : call) : bool :=
  match c with
  | ReducerCalled _ a =>
      match _id a with Some n => negb (Nat.eqb n id) | None => true end
  | _ => true
  end.

(** The event loop of the exported store runs dry: for each dispatch
    still waiting, the oldest first, the promise of the logger (in
    development) is fulfilled, the promise of the persistence middleware
    settles as its callback ends, and the continuation gets its turn. *)
Definition run_dry (dev : bool) (w : World) : World :=
  fold_left
    (fun w' c =>
       match _id (k_action c) with
       | Some id =>
           let w1 := if dev then settle id 0 true w' else w' in
           run_continuation id
             (settle id (persistence_index dev)
                (fulfils (persistence_callback (getState w1) (k_action c)))
                w1)
       | None => w'
       end)
    (continuations w) w.

(** The first dispatch numbered [id] that is still waiting has a rejected
    middleware promise. *)
Definition rejected_dispatch (id : nat) (w : World) : Prop :=
  exists c, find_continuation id w = Some c /\ Rejected ∈ k_promises c.

(** What holds of the exported store while the promise of the persistence
    middleware settles as its callback ends. *)
Definition stuck (dev : bool) (w : World) : Prop :=
  (exists m, middlewares (store w) !! persistence_index dev = Some m
             /\ forall st a, mw_call m st a = MwPromise)
  /\ Forall (fun c => exists p, k_promises c !! persistence_index dev = Some p
                                /\ is_fulfilled p = false)
            (continuations w)
  /\ forallb (fun c => negb (is_reducer_call c)) (calls w) = true
  /\ exists d, getState w = initialState d.

End Persistence.

(* ===================================================================== *)
(** ** The executor over time *)
(* ===================================================================== *)

Module WorkerRuns.
Import Js ApiWorker.

Section Platform.

Variable RegExp : string -> option (string -> bool).
Variable JSON_stringify_length : cache_entry -> nat.

(** A message arrives, or the network call of a request ends. *)
Inductive worker_event : Type :=
| Receives (m : message) (now : N)
| FetchEnds (id : string) (p : in_flight) (o : fetch_outcome) (now : N).

Definition worker_step (w : Worker) (e : worker_event) : Worker :=
  match e with
  | Receives m now =>
      snd (listener_begin RegExp JSON_stringify_length m now w)
  | FetchEnds id p o now => listener_resume id p o now w
  end.

Definition worker_run (events : list worker_event) (w : Worker) : Worker :=
  fold_left worker_step events w.

End Platform.

(** The envelopes posted from [w] to the later [w']. *)
Definition posted_since (w w' : Worker) : list envelope :=
  drop (length (posted w)) (posted w').

Definition pattern_options (p : string) : payload :=
  {| url := None; method := None; body_ := None; headers := ∅;
     useCache := None; cacheTTL := None; pattern := Some p;
     olderThan := VUndef |}.

End WorkerRuns.

(* ===================================================================== *)
(** ** The bridge: requests that wait, requests that are dropped *)
(* ===================================================================== *)

Module BridgeRuns.
Import Js WorkerBridge.

(** Promise [p] exists, has not been settled, and no entry of
    [pendingCallbacks] holds its [resolve] and [reject] any more. *)
Definition abandoned (p : nat) (b : Bridge) : Prop :=
  p < next_ref b
  /\ (p ∉ map fst (settlements b))
  /\ forall id, pendingCallbacks b !! id <> Some p.

(** Every pending entry has its [setTimeout] closure still armed. *)
Definition armed (b : Bridge) : Prop :=
  forall id p, pendingCallbacks b !! id = Some p ->
    exists t, t ∈ timers b /\ t_messageId t = id /\ t_promise t = p.

Definition timeout_error (workerName : string) : settlement :=
  RejectedWith
    (Error ("Timeout al esperar respuesta del worker ["
            +:+ workerName +:+ "]")).

Definition not_initialised (workerName : string) : settlement :=
  RejectedWith (Error ("Worker [" +:+ workerName +:+ "] no inicializado")).

End BridgeRuns.

(* ===================================================================== *)
(** ** The facade on a store whose middlewares return *)
(* ===================================================================== *)

Module ServiceRuns.
Import Js Actions Reducers ApiService.

(** No middleware of the application's store throws, whatever it is
    called with: the persistence middleware and the logger both return a
    promise.  Then [store.dispatch] of an action made by an action
    creator returns. *)
Definition quiet (a : App) : Prop :=
  forall st act,
    Store.never_throws (Store.middlewares (Store.store (store a))) st act
    = true.

(** The flag the loader shows once the exported store has caught up with
    the actions dispatched to it. *)
Definition loading_shown (a : App) : bool :=
  loading (Store.getState (Persistence.run_dry false (store a))).

(** The payloads of the [setLoading] actions given to [store.dispatch],
    oldest first, as the middlewares were called with them. *)
Definition loading_dispatched (a : App) : list bool :=
  omap (fun c => match c with
                 | Store.MiddlewareCalled _ act =>
                     match what act with
                     | SetLoading b => Some b
                     | _ => None
                     end
                 | _ => None
                 end)
       (Store.calls (store a)).

(** The condition under which the executor may use its cache for a
    request made by the facade. *)
Definition asks_for_cache (method : string) (o : options) : bool :=
  default true (useCache o) && String.eqb method "GET".

End ServiceRuns.

(* ===================================================================== *)
(** * Properties *)
(* ===================================================================== *)

Section ReducerProps.
Import Js Actions Reducers ReducerSpec.

Lemma strict_eq_true (a b : value) : strict_eq a b = true -> a = b.
Proof.
  destruct a, b; simpl; try discriminate; try reflexivity; intros H.
  - f_equal. by apply Bool.eqb_prop.
  - f_equal. by apply Z.eqb_eq.
  - f_equal. by apply String.eqb_eq.
Qed.

Lemma spread_idem (o p : obj) : spread (spread o p) p = spread o p.
Proof. unfold spread. by rewrite (assoc_L (∪)), (idemp_L (∪)). Qed.

(** The [id] of a merged object: the patch's when it has one, the
    original's otherwise. *)
Lemma get_spread_id (o p : obj) (k : string) :
  get (spread o p) k = match p !! k with Some v => v | None => get o k end.
Proof.
  unfold get, spread. rewrite lookup_union.
  destruct (p !! k), (o !! k); reflexivity.
Qed.

(** An object that matched the patch still matches once merged with it. *)
Lemma spread_keeps_id (o p : obj) :
  strict_eq (get o "id") (get p "id") = true ->
  get (spread o p) "id" = get o "id".
Proof.
  intros H. rewrite get_spread_id.
  apply strict_eq_true in H. unfold get in *.
  destruct (p !! "id"); simpl in *; congruence.
Qed.

Lemma update_one_idem (p i : obj) :
  update_one p (update_one p i) = update_one p i.
Proof.
  unfold update_one.
  destruct (strict_eq (get i "id") (get p "id")) eqn:E.
  - rewrite (spread_keeps_id _ _ E), E. apply spread_idem.
  - by rewrite E.
Qed.

(** C8. Applying the reducer for the same [updateIncident] payload twice
    gives the same state as applying it once: the [incidents] slice and
    the [currentIncident] slice (and with them the whole tree) are equal,
    whatever metadata the two dispatches stamped on the action; the slice
    keeps its length, and every element whose [id] is not [===] the
    payload's is left as it was. *)
Theorem updateIncident_idempotent
    (st : State) (p : obj) (id1 id2 : option nat) (t1 t2 : option N) :
  let a1 := mkAction (UpdateIncident p) id1 t1 in
  let a2 := mkAction (UpdateIncident p) id2 t2 in
  let once := createReducer st a1 in
  let twice := createReducer once a2 in
  incidents twice = incidents once
  /\ currentIncident twice = currentIncident once
  /\ twice = once
  /\ length (incidents once) = length (incidents st)
  /\ (forall (k : nat) (i : obj),
        incidents st !! k = Some i ->
        (strict_eq (get i "id") (get p "id") = false ->
         incidents once !! k = Some i)
        /\ (strict_eq (get i "id") (get p "id") = true ->
            incidents once !! k = Some (spread i p))).
Proof.
  intros a1 a2 once twice.
  assert (Hinc : incidents twice = incidents once).
  { subst once twice a1 a2. simpl. unfold incidentsReducer. simpl.
    rewrite map_map. apply map_ext. intros i. apply update_one_idem. }
  assert (Hcur : currentIncident twice = currentIncident once).
  { subst once twice a1 a2. simpl. unfold currentIncidentReducer. simpl.
    destruct (currentIncident st) as [c|]; [|reflexivity].
    destruct (strict_eq (get c "id") (get p "id")) eqn:E.
    - rewrite (spread_keeps_id _ _ E), E. by rewrite spread_idem.
    - by rewrite E. }
  split; [exact Hinc|]. split; [exact Hcur|]. split.
  - subst once twice. unfold createReducer in *. simpl in *.
    f_equal; [exact Hinc | exact Hcur].
  - split.
    + subst once a1. simpl. unfold incidentsReducer. simpl.
      apply length_map.
    + intros k i Hk. subst once a1. simpl. unfold incidentsReducer. simpl.
      change (map ?f ?l) with (f <$> l).
      rewrite list_lookup_fmap, Hk. simpl.
      split; intros ->; reflexivity.
Qed.

(** The consequence C10 draws is false as it stands: an incident deleted
    in an earlier dispatch is selected again by a later
    [setCurrentIncident], whose reducer case stores its payload as it
    comes. *)
Lemma deleteIncident_then_select_refers_to_deleted :
  let st0 := {| loading := false; incidents := [incident_1];
                currentIncident := Some incident_1; notifications := [];
                error := None;
                ui := mkUi None false false "all"; _actionLog := [] |} in
  let st1 := createReducer st0 (deleteIncident (VNum 1)) in
  let st2 := createReducer st1 (setCurrentIncident (Some incident_1)) in
  incidents st1 = [] /\ currentIncident st1 = None
  /\ incidents st2 = []
  /\ exists c, currentIncident st2 = Some c
               /\ strict_eq (get c "id") (VNum 1) = true.
Proof.
  simpl. repeat split; try reflexivity.
  exists incident_1. split; reflexivity.
Qed.

Lemma current_is_not_step (id : value) (st : State) (a : action) :
  selects a = false ->
  current_is_not id st -> current_is_not id (createReducer st a).
Proof.
  unfold current_is_not, selects. intros Hsel Hst c. simpl.
  unfold currentIncidentReducer.
  destruct (what a) eqn:Ea; try discriminate; try (apply Hst); try discriminate.
  - destruct (currentIncident st) as [s|] eqn:Es; [|discriminate].
    destruct (strict_eq (get s "id") (get payload "id")) eqn:E.
    + intros [= <-]. rewrite (spread_keeps_id _ _ E). by apply Hst.
    + intros [= <-]. by apply Hst.
  - destruct (currentIncident st) as [s|] eqn:Es; [|discriminate].
    destruct (strict_eq (get s "id") payload) eqn:E; [discriminate|].
    intros [= <-]. by apply Hst.
Qed.

(** C10, amended. The reducer for [deleteIncident(id)] clears
    [currentIncident] exactly when it is non-null and its [id] is [===]
    the deleted one, and leaves it as it was otherwise; every incident
    with that [id] leaves the [incidents] slice; so after the dispatch the
    selected incident does not have the deleted [id], and this stays so
    through every later action that is not a [setCurrentIncident]. *)
Theorem deleteIncident_clears_current
    (st : State) (id : value) (n : option nat) (t : option N)
    (later : list action) :
  let a := mkAction (DeleteIncident id) n t in
  let st' := createReducer st a in
  (forall c, currentIncident st = Some c ->
             strict_eq (get c "id") id = true ->
             currentIncident st' = None)
  /\ (forall c, currentIncident st = Some c ->
                strict_eq (get c "id") id = false ->
                currentIncident st' = currentIncident st)
  /\ (currentIncident st = None -> currentIncident st' = None)
  /\ (forall i, i ∈ incidents st' ->
                i ∈ incidents st /\ strict_eq (get i "id") id = false)
  /\ current_is_not id st'
  /\ (forallb (fun b => negb (selects b)) later = true ->
      current_is_not id (fold_left createReducer later st')).
Proof.
  intros a st'. subst st' a. simpl.
  assert (Hnow : current_is_not id
            (createReducer st (mkAction (DeleteIncident id) n t))).
  { unfold current_is_not. simpl. unfold currentIncidentReducer. simpl.
    intros c. destruct (currentIncident st) as [s|]; [|discriminate].
    destruct (strict_eq (get s "id") id) eqn:E; [discriminate|].
    by intros [= <-]. }
  repeat split.
  - intros c -> E. unfold currentIncidentReducer. simpl. by rewrite E.
  - intros c -> E. unfold currentIncidentReducer. simpl. by rewrite E.
  - intros ->. reflexivity.
  - unfold incidentsReducer in H. simpl in H.
    apply list_elem_of_filter in H. tauto.
  - unfold incidentsReducer in H. simpl in H.
    apply list_elem_of_filter in H. destruct H as [H _].
    by apply negb_true_iff in H.
  - exact Hnow.
  - intros Hl. revert Hnow.
    generalize (createReducer st (mkAction (DeleteIncident id) n t)).
    induction later as [|b later IH]; intros s Hs; simpl; [exact Hs|].
    simpl in Hl. apply andb_true_iff in Hl as [Hb Hl].
    apply IH; [exact Hl|]. apply current_is_not_step; [|exact Hs].
    by apply negb_true_iff in Hb.
Qed.

Lemma updateIncident_idempotent_witness :
  let patch : obj := {[ "id" := VNum 1; "status" := VStr "resuelto" ]} in
  let other : obj := {[ "id" := VNum 2; "status" := VStr "pendiente" ]} in
  let st := {| loading := false;
               incidents :=
                 [{[ "id" := VNum 1; "status" := VStr "pendiente" ]}; other];
               currentIncident := Some incident_1; notifications := [];
               error := None;
               ui := mkUi None false false "all"; _actionLog := [] |} in
  let once := createReducer st (mkAction (UpdateIncident patch) (Some 1)
                                         (Some 10%N)) in
  let twice := createReducer once (mkAction (UpdateIncident patch) (Some 2)
                                            (Some 20%N)) in
  incidents st !! 1 = Some other
  /\ strict_eq (get other "id") (get patch "id") = false
  /\ incidents once !! 1 = Some other
  /\ twice = once.
Proof.
  intros patch other st once twice.
  pose proof (updateIncident_idempotent st patch (Some 1) (Some 2)
                (Some 10%N) (Some 20%N)) as (_ & _ & Hsame & _ & Hrest).
  split; [reflexivity|]. split; [reflexivity|]. split.
  - apply (Hrest 1 other); reflexivity.
  - exact Hsame.
Defined.

Lemma deleteIncident_clears_current_witness :
  let st := {| loading := false; incidents := [incident_1];
               currentIncident := Some incident_1; notifications := [];
               error := None;
               ui := mkUi None false false "all"; _actionLog := [] |} in
  let later := [updateIncident incident_1; clearError] in
  strict_eq (get incident_1 "id") (VNum 1) = true
  /\ forallb (fun b => negb (selects b)) later = true
  /\ currentIncident (createReducer st (deleteIncident (VNum 1))) = None
  /\ current_is_not (VNum 1)
       (fold_left createReducer later
                  (createReducer st (deleteIncident (VNum 1)))).
Proof.
  intros st later.
  pose proof (deleteIncident_clears_current st (VNum 1) None None later)
    as (Hclear & _ & _ & _ & _ & Hlater).
  split; [reflexivity|]. split; [reflexivity|]. split.
  - apply (Hclear incident_1); reflexivity.
  - apply Hlater. reflexivity.
Defined.

End ReducerProps.

Section StoreProps.
Import Js Actions Reducers Store.


(** C7. When the argument of [dispatch] is no object, or is an object
    whose [type] is missing or empty (or falsy in any other way),
    [dispatch] throws and leaves the world exactly as it was: the state,
    the action counter, the pending continuations and the list of calls,
    which shows that no middleware, reducer or subscriber ran. *)
Theorem dispatch_without_type_throws
    (now : N) (arg : dispatch_arg) (w : World) :
  lacks_type arg = true ->
  exists e, dispatch now arg w = (Throws e, w).
Proof.
  destruct arg as [v|a]; simpl; intros H.
  - destruct (typeof_is_object v); eauto.
  - rewrite H. eauto.
Qed.

Lemma dispatch_without_type_throws_witness :
  lacks_type (ArgObject (createAction (Other VUndef))) = true
  /\ lacks_type (ArgObject (createAction (Other (VStr "")))) = true
  /\ exists e,
       dispatch 7 (ArgObject (createAction (Other VUndef)))
                (app_store false false)
       = (Throws e, app_store false false).
Proof.
  split; [reflexivity|]. split; [reflexivity|].
  apply (dispatch_without_type_throws 7
           (ArgObject (createAction (Other VUndef)))
           (app_store false false)).
  reflexivity.
Defined.


Lemma notified_app (r : nat) (l1 l2 : list call) :
  notified r (l1 ++ l2) = notified r l1 ++ notified r l2.
Proof. unfold notified. apply omap_app. Qed.

Lemma notified_notify_one (r : nat) (st : State) (s : subscriber) :
  notified r (notify_one st s) = if decide (sub_ref s = r) then [st] else [].
Proof.
  unfold notify_one, notified. simpl.
  destruct (decide (sub_ref s = r)), (sub_throws s st); reflexivity.
Qed.

Lemma notified_absent (r : nat) (st : State) (subs : list subscriber) :
  r ∉ map sub_ref subs ->
  notified r (flat_map (notify_one st) subs) = [].
Proof.
  induction subs as [|s subs IH]; cbn [flat_map map]; intros Hr;
    [reflexivity|].
  rewrite notified_app, notified_notify_one.
  rewrite not_elem_of_cons in Hr. destruct Hr as [Hne Hr].
  rewrite decide_False by congruence. simpl. by apply IH.
Qed.

(** In one round of notification a subscriber of the set is called once. *)
Lemma notified_once (r : nat) (st : State) (subs : list subscriber) :
  NoDup (map sub_ref subs) -> r ∈ map sub_ref subs ->
  notified r (flat_map (notify_one st) subs) = [st].
Proof.
  induction subs as [|s subs IH]; cbn [flat_map map]; intros Hnd Hr.
  - by apply elem_of_nil in Hr.
  - apply NoDup_cons in Hnd as [Hs Hnd].
    rewrite notified_app, notified_notify_one.
    destruct (decide (sub_ref s = r)) as [<-|Hne].
    + by rewrite notified_absent.
    + simpl. apply IH; [exact Hnd|].
      apply elem_of_cons in Hr as [Hr|Hr]; [congruence|exact Hr].
Qed.

(** Settling a middleware promise touches neither the state nor the
    subscribers: only the continuation computes the next state. *)
Lemma settle_keeps_state (id k : nat) (ok : bool) (w : World) :
  getState (settle id k ok w) = getState w
  /\ calls (settle id k ok w) = calls w.
Proof. split; reflexivity. Qed.


Lemma find_filter_none {A : Type} (f : A -> bool) (l : list A) :
  find f (filter (fun x => f x = false) l) = None.
Proof.
  induction l as [|x l IH]; simpl; [reflexivity|].
  destruct (f x) eqn:E.
  - rewrite filter_cons_False by congruence. exact IH.
  - rewrite filter_cons_True by exact E. simpl. by rewrite E.
Qed.

Lemma run_continuation_ready (id : nat) (w : World) (c : continuation) :
  find_continuation id w = Some c -> all_fulfilled c = true ->
  let w' := run_continuation id w in
  getState w' = next_state w (k_action c)
  /\ calls w' =
       calls w ++ ReducerCalled (getState w) (k_action c)
               :: flat_map (notify_one (next_state w (k_action c)))
                           (subscribers (store w))
  /\ subscribers (store w') = subscribers (store w)
  /\ find_continuation id w' = None.
Proof.
  unfold run_continuation. intros -> ->. simpl.
  repeat split.
  - by rewrite <- app_assoc.
  - unfold find_continuation. simpl. apply find_filter_none.
Qed.




End StoreProps.

Section WorkerProps.
Import Js ApiWorker.

Variable RegExp : string -> option (string -> bool).
Variable JSON_stringify_length : cache_entry -> nat.

Lemma jsmap_has_get {V : Type} (k : string) (m : list (string * V)) :
  jsmap_has k m = true <-> is_Some (jsmap_get k m).
Proof.
  unfold jsmap_has, jsmap_get.
  induction m as [|[k' v] m IH]; simpl.
  - split; [discriminate|]. intros [x Hx]. discriminate.
  - destruct (String.eqb k' k); simpl; [split; eauto|exact IH].
Qed.

Lemma jsmap_get_delete_eq {V : Type} (k : string) (m : list (string * V)) :
  jsmap_get k (jsmap_delete k m) = None.
Proof.
  unfold jsmap_get, jsmap_delete.
  induction m as [|[k' v] m IH]; [reflexivity|].
  destruct (decide (k' = k)) as [->|Hne].
  - rewrite filter_cons_False by (simpl; auto). exact IH.
  - rewrite filter_cons_True by exact Hne. simpl.
    apply String.eqb_neq in Hne. rewrite Hne. exact IH.
Qed.

Lemma jsmap_get_delete_ne {V : Type} (k k' : string)
    (m : list (string * V)) :
  k <> k' -> jsmap_get k' (jsmap_delete k m) = jsmap_get k' m.
Proof.
  intros Hne. unfold jsmap_get, jsmap_delete.
  induction m as [|[k0 v] m IH]; [reflexivity|].
  destruct (decide (k0 = k)) as [->|Hk].
  - rewrite filter_cons_False by (simpl; auto). simpl.
    apply String.eqb_neq in Hne. rewrite Hne. exact IH.
  - rewrite filter_cons_True by exact Hk. simpl.
    destruct (String.eqb k0 k'); [reflexivity|exact IH].
Qed.

Lemma jsmap_delete_absent {V : Type} (k : string) (m : list (string * V)) :
  jsmap_get k m = None -> jsmap_delete k m = m.
Proof.
  unfold jsmap_get, jsmap_delete.
  induction m as [|[k' v] m IH]; [reflexivity|]. simpl.
  destruct (String.eqb k' k) eqn:E; [discriminate|]. intros H.
  apply String.eqb_neq in E.
  rewrite filter_cons_True by exact E. by rewrite IH.
Qed.

Lemma jsmap_get_set_eq {V : Type} (k : string) (v : V)
    (m : list (string * V)) :
  jsmap_get k (jsmap_set k v m) = Some v.
Proof.
  unfold jsmap_set. destruct (jsmap_has k m) eqn:Hhas.
  - unfold jsmap_has, jsmap_get in *.
    induction m as [|[k' v'] m IH]; [discriminate|]. simpl in *.
    destruct (String.eqb k' k) eqn:E; simpl.
    + by rewrite String.eqb_refl.
    + rewrite E. by apply IH.
  - assert (Hnone : jsmap_get k m = None).
    { destruct (jsmap_get k m) eqn:E; [|reflexivity].
      assert (is_Some (jsmap_get k m)) as Hs by (rewrite E; eauto).
      apply jsmap_has_get in Hs. congruence. }
    clear Hhas. unfold jsmap_get in *.
    induction m as [|[k' v'] m IH]; simpl in *.
    + by rewrite String.eqb_refl.
    + destruct (String.eqb k' k); [discriminate|]. by apply IH.
Qed.

Lemma jsmap_get_set_ne {V : Type} (k k' : string) (v : V)
    (m : list (string * V)) :
  k <> k' -> jsmap_get k' (jsmap_set k v m) = jsmap_get k' m.
Proof.
  intros Hne. apply String.eqb_neq in Hne.
  unfold jsmap_set. destruct (jsmap_has k m).
  - unfold jsmap_get. induction m as [|[k0 v0] m IH]; [reflexivity|].
    simpl. destruct (String.eqb k0 k) eqn:E; simpl.
    + rewrite Hne. apply String.eqb_eq in E. subst k0. rewrite Hne.
      exact IH.
    + destruct (String.eqb k0 k'); [reflexivity|exact IH].
  - unfold jsmap_get. induction m as [|[k0 v0] m IH]; simpl.
    + by rewrite Hne.
    + destruct (String.eqb k0 k'); [reflexivity|exact IH].
Qed.

(** The last part of claim C3 fails as stated: the executor caches only
    [ok] responses, so when the first of two identical requests is
    answered with a 500, the second, 20 ms later and well within the TTL,
    goes to the network again: two network calls. *)
Lemma two_requests_two_network_calls :
  let request := get_request "/incidents" 300000 in
  exists p1 w1 r1 w2 p2 w3,
    processRequest_begin request 1000 new_worker = (Awaiting p1, w1)
    /\ processRequest_resume p1 (FetchResponds server_error 10) 1010 w1
       = (r1, w2)
    /\ processRequest_begin request 1020 w2 = (Awaiting p2, w3)
    /\ length (fetches w3) = 2.
Proof.
  simpl. do 6 eexists. repeat split.
Qed.

(** C3, amended. For a request with method GET and [useCache]: a cached
    entry under ["GET:<url>"] younger than [cacheTTL] is returned with
    [fromCache] and nothing else happens (no network call, cache as it
    was); otherwise the request goes to the network, and a stale entry is
    gone from the cache by then; an [ok] response writes the entry, with
    the time of the write, and leaves the other keys alone, while a
    response that is not [ok], or a failure, leaves the cache as it is;
    and so two such requests in a row, the first finding no fresh entry
    and getting an [ok] response, the second within the TTL of the write,
    make exactly one network call, the second being served the first's
    data from the cache. *)
Theorem cached_get_request
    (request : payload) (now : N) (w : Worker) :
  let key := "GET:" +:+ template (url request) in
  let ttl := default 300000%Z (cacheTTL request) in
  default "GET" (method request) = "GET" ->
  useCache request = Some true ->
  (forall e, jsmap_get key (apiCache w) = Some e ->
             (Z.of_N now - Z.of_N (timestamp e) < ttl)%Z ->
             processRequest_begin request now w
             = (Done (FromCache (data e)), w))
  /\ (fresh key ttl now (apiCache w) = false ->
      exists p call,
        processRequest_begin request now w
        = (Awaiting p,
           {| apiCache := jsmap_delete key (apiCache w);
              fetches := fetches w ++ [call];
              posted := posted w |})
        /\ jsmap_get key (jsmap_delete key (apiCache w)) = None
        /\ f_url call = url request /\ f_method call = "GET"
        /\ p = mkInFlight key "GET" true
        /\ forall (o : fetch_outcome) (now1 : N) (w1 : Worker),
             let after := snd (processRequest_resume p o now1 w1) in
             fetches after = fetches w1
             /\ match o with
                | FetchResponds r _ =>
                    if ok r
                    then jsmap_get key (apiCache after)
                         = Some (mkEntry now1 (response_data r))
                         /\ (forall k, k <> key ->
                               jsmap_get k (apiCache after)
                               = jsmap_get k (apiCache w1))
                    else apiCache after = apiCache w1
                | FetchFails _ => apiCache after = apiCache w1
                end)
  /\ (fresh key ttl now (apiCache w) = false ->
      forall (r : response) (t : Z) (now1 now2 : N),
        ok r = true ->
        (Z.of_N now2 - Z.of_N now1 < ttl)%Z ->
        exists p w1 res w2,
          processRequest_begin request now w = (Awaiting p, w1)
          /\ processRequest_resume p (FetchResponds r t) now1 w1 = (res, w2)
          /\ processRequest_begin request now2 w2
             = (Done (FromCache (response_data r)), w2)
          /\ length (fetches w2) = S (length (fetches w))).
Proof.
  intros key ttl Hm Hc.
  assert (Hbegin : fresh key ttl now (apiCache w) = false ->
    processRequest_begin request now w
    = (Awaiting (mkInFlight key "GET" true),
       {| apiCache := jsmap_delete key (apiCache w);
          fetches := fetches w ++
            [{| f_url := url request; f_method := "GET";
                f_headers := headers request ∪ defaultOptions_headers;
                f_body := None |}];
          posted := posted w |})).
  { unfold fresh, processRequest_begin. rewrite Hm, Hc. simpl.
    change ("GET" +:+ ":" +:+ template (url request)) with key.
    change (from_option id 300000%Z (cacheTTL request)) with ttl.
    destruct (jsmap_get key (apiCache w)) as [e|] eqn:Eg.
    - assert (jsmap_has key (apiCache w) = true) as ->.
      { apply jsmap_has_get. rewrite Eg. eauto. }
      intros ->. reflexivity.
    - intros _. rewrite (jsmap_delete_absent _ _ Eg).
      destruct (jsmap_has key (apiCache w)); destruct w; reflexivity. }
  assert (Hhit : forall c e n, jsmap_get key (apiCache c) = Some e ->
    (Z.of_N n - Z.of_N (timestamp e) < ttl)%Z ->
    processRequest_begin request n c = (Done (FromCache (data e)), c)).
  { intros c e n Eg Hage. unfold processRequest_begin.
    rewrite Hm, Hc. simpl.
    change ("GET" +:+ ":" +:+ template (url request)) with key.
    change (from_option id 300000%Z (cacheTTL request)) with ttl.
    assert (jsmap_has key (apiCache c) = true) as ->.
    { apply jsmap_has_get. rewrite Eg. eauto. }
    rewrite Eg. apply Z.ltb_lt in Hage. by rewrite Hage. }
  split; [intros e He Ha; exact (Hhit w e now He Ha)|]. split.
  - intros Hf. do 2 eexists. split; [apply (Hbegin Hf)|].
    split; [apply jsmap_get_delete_eq|]. do 3 (split; [reflexivity|]).
    intros o now1 w1. destruct o as [msg|r t]; simpl.
    + split; reflexivity.
    + destruct (ok r); simpl; [|split; reflexivity].
      split; [reflexivity|]. split; [apply jsmap_get_set_eq|].
      intros k Hk. by apply jsmap_get_set_ne.
  - intros Hf r t now1 now2 Hok Hage.
    do 4 eexists. split; [apply (Hbegin Hf)|].
    split; [unfold processRequest_resume; rewrite Hok; reflexivity|].
    split.
    + apply (Hhit _ (mkEntry now1 (response_data r))); [|exact Hage].
      apply jsmap_get_set_eq.
    + simpl. rewrite length_app. simpl. lia.
Qed.

Lemma jsmap_has_keys {V : Type} (k : string) (m : list (string * V)) :
  jsmap_has k m = true <-> k ∈ jsmap_keys m.
Proof.
  unfold jsmap_has, jsmap_keys. induction m as [|[k' v] m IH]; simpl.
  - split; [discriminate|]. intros H. by apply elem_of_nil in H.
  - rewrite elem_of_cons, orb_true_iff, IH, String.eqb_eq.
    split; (intros [E|E]; [left; by symmetry|by right]).
Qed.

Lemma filter_agree {A : Type} (P Q : A -> Prop)
    {decP : forall x, Decision (P x)} {decQ : forall x, Decision (Q x)}
    (l : list A) :
  (forall x, x ∈ l -> P x <-> Q x) -> filter P l = filter Q l.
Proof.
  induction l as [|x l IH]; intros Hall; [done|].
  assert (Hx : P x <-> Q x) by (apply Hall; left).
  assert (Hl : filter P l = filter Q l).
  { apply IH. intros y Hy. apply Hall. by right. }
  destruct (decide (P x)) as [Hp|Hp].
  - rewrite !filter_cons_True by tauto. by rewrite Hl.
  - rewrite !filter_cons_False by tauto. exact Hl.
Qed.

(** Filtering the entries of a map evicts the keys of the entries
    filtered out, and no others. *)
Lemma evicted_filter (P : string * cache_entry -> bool)
    (cache : list (string * cache_entry)) :
  NoDup (jsmap_keys cache) ->
  evicted cache (filter (fun e => P e = false) cache)
  = map fst (filter (fun e => P e = true) cache).
Proof.
  unfold evicted, jsmap_keys.
  induction cache as [|e cache IH]; intros Hnd; [done|].
  simpl in Hnd. apply NoDup_cons in Hnd as [He Hnd]. specialize (IH Hnd).
  destruct (P e) eqn:Ep.
  - rewrite (filter_cons_False _ e) by congruence.
    rewrite (filter_cons_True _ e) by done. simpl.
    rewrite filter_cons_True; [by rewrite IH|].
    destruct (jsmap_has e.1 (filter (fun e0 => P e0 = false) cache)) eqn:Eh;
      [|done].
    apply jsmap_has_keys in Eh. unfold jsmap_keys in Eh.
    apply list_elem_of_fmap in Eh as (x & Hx & Hin).
    apply list_elem_of_filter in Hin as [_ Hin].
    destruct He. rewrite Hx. apply list_elem_of_fmap. eauto.
  - rewrite (filter_cons_True _ e) by done.
    rewrite (filter_cons_False _ e) by congruence. simpl.
    rewrite filter_cons_False.
    2:{ unfold jsmap_has. simpl. by rewrite String.eqb_refl. }
    rewrite <- IH. apply filter_agree. intros k Hk.
    unfold jsmap_has. simpl.
    assert (String.eqb e.1 k = false) as ->; [|done].
    apply String.eqb_neq. intros <-. done.
Qed.

Lemma evicted_all (cache : list (string * cache_entry)) :
  evicted cache [] = jsmap_keys cache.
Proof.
  unfold evicted. induction (jsmap_keys cache) as [|k l IH]; [done|].
  rewrite filter_cons_True by done. by rewrite IH.
Qed.

Lemma map_fst_filter_key {V : Type} (test : string -> bool)
    (m : list (string * V)) :
  map fst (filter (fun e => test (fst e) = true) m)
  = filter (fun k => test k = true) (map fst m).
Proof.
  induction m as [|e m IH]; [done|]. simpl.
  destruct (test e.1) eqn:E.
  - rewrite !filter_cons_True by done. simpl. by rewrite IH.
  - rewrite !filter_cons_False by congruence. exact IH.
Qed.

(** What [purgeCache] does in each of its modes, taken in the order
    [url], [pattern], [olderThan], everything: the [url] mode deletes the
    entry of ["GET:<url>"] and leaves every other entry as it is; with no
    option the cache is emptied and all its keys are returned; and in the
    pattern, age and full modes the keys returned are the keys evicted. *)
Lemma purgeCache_modes (options : payload) (now : N)
    (cache : list (string * cache_entry)) :
  NoDup (jsmap_keys cache) ->
  let key := "GET:" +:+ template (url options) in
  let r := purgeCache RegExp options now cache in
  (given (url options) = true ->
   r = (Returns [key], jsmap_delete key cache)
   /\ jsmap_get key (snd r) = None
   /\ forall k, k <> key -> jsmap_get k (snd r) = jsmap_get k cache)
  /\ (given (url options) = false ->
      match r with
      | (Returns purged, cache') => purged = evicted cache cache'
      | (Throws _, cache') => cache' = cache
      end)
  /\ (given (url options) = false -> given (pattern options) = false ->
      truthy (olderThan options) && is_number (olderThan options) = false ->
      r = (Returns (jsmap_keys cache), [])).
Proof.
  intros Hnd key r. subst r. unfold purgeCache. fold key.
  split; [|split].
  - intros ->. split; [done|]. simpl.
    split; [apply jsmap_get_delete_eq|].
    intros k Hk. by apply jsmap_get_delete_ne.
  - intros ->. destruct (given (pattern options)).
    + destruct (RegExp (template (pattern options))) as [test|]; [|done].
      rewrite (evicted_filter (fun e => test (fst e)) cache Hnd).
      symmetry. apply map_fst_filter_key.
    + destruct (truthy (olderThan options) && is_number (olderThan options)).
      * by rewrite evicted_filter.
      * symmetry. apply evicted_all.
  - by intros -> -> ->.
Qed.

(** C9. A message whose [action] is none of "request", "purgeCache" and
    "getCacheStats" (a missing [action] included) is answered at once:
    the listener posts exactly one envelope, carrying the id of the
    message and the result [{success: false, error}] that names the
    action; the cache is not touched and no network call is made. *)
Theorem unsupported_action_is_answered
    (m : message) (now : N) (w : Worker) :
  supported (msg_action m) = false ->
  listener_begin RegExp JSON_stringify_length m now w =
    (Answered,
     {| apiCache := apiCache w;
        fetches := fetches w;
        posted :=
          posted w ++
          [{| env_id := msg_id m;
              env_result :=
                Unsupported ("Acción no soportada: "
                             +:+ template (msg_action m)) |}] |}).
Proof.
  unfold supported, listener_begin, switch.
  destruct (msg_action m) as [a|]; [|reflexivity].
  intros H. apply orb_false_iff in H as [H H3].
  apply orb_false_iff in H as [H1 H2].
  rewrite H1, H2, H3. reflexivity.
Qed.

End WorkerProps.

Section WorkerExamples.
Import Js ApiWorker.

Lemma unsupported_action_is_answered_witness :
  supported (Some "deleteAll") = false
  /\ listener_begin (fun _ => None) (fun _ => 0)
       (mkMessage "msg_1_0" (Some "deleteAll") None) 5 new_worker
     = (Answered,
        mkWorker [] []
          [mkEnvelope "msg_1_0"
             (Unsupported "Acción no soportada: deleteAll")]).
Proof.
  split; [reflexivity|].
  apply (unsupported_action_is_answered (fun _ => None) (fun _ => 0)
           (mkMessage "msg_1_0" (Some "deleteAll") None) 5 new_worker).
  reflexivity.
Defined.

Lemma cached_get_request_witness :
  let request := get_request "/incidents" 300000 in
  default "GET" (method request) = "GET"
  /\ useCache request = Some true
  /\ fresh "GET:/incidents" 300000 1000 (apiCache new_worker) = false
  /\ exists p w1 res w2,
       processRequest_begin request 1000 new_worker = (Awaiting p, w1)
       /\ processRequest_resume p
            (FetchResponds (mkResponse true 200 "OK" [] (JsonArray [])) 12)
            1012 w1 = (res, w2)
       /\ processRequest_begin request 2000 w2
          = (Done (FromCache (JsonArray [])), w2)
       /\ length (fetches w2) = S (length (fetches new_worker)).
Proof.
  intros request.
  split; [reflexivity|]. split; [reflexivity|]. split; [reflexivity|].
  destruct (cached_get_request request 1000 new_worker eq_refl eq_refl)
    as (_ & _ & H).
  apply (H eq_refl (mkResponse true 200 "OK" [] (JsonArray [])) 12%Z
           1012%N 2000%N); [reflexivity|reflexivity].
Defined.

(** C6 does not hold of the code in its [url] mode. With one entry in the
    cache, for ["/incidents"], [purgeCache({url: "/missing"})] removes
    nothing, the cache is as it was, and yet it returns
    [{purged: ["GET:/missing"]}], a key that was not evicted (and was
    never there).  The pattern, age and full modes return the keys they
    delete. *)
Lemma purgeCache_url_reports_absent_key :
  let cache := [("GET:/incidents", mkEntry 1000 (JsonArray []))] in
  let '(returned, cache') :=
    purgeCache (fun _ => None) (url_options "/missing") 2000 cache in
  jsmap_has "GET:/missing" cache = false
  /\ returned = Returns ["GET:/missing"]
  /\ cache' = cache
  /\ evicted cache cache' = [].
Proof. vm_compute. repeat split. Qed.

End WorkerExamples.

Section BridgeProps.
Import Js WorkerBridge.

Lemma pretty_N_go_no_underscore (x : N) (s : string) :
  has_char "_"%char (pretty_N_go x s) = has_char "_"%char s.
Proof.
  revert s. induction (N.lt_wf_0 x) as [x _ IH]; intros s.
  assert (x = 0 \/ 0 < x)%N as [->|Hx] by lia.
  - by rewrite pretty_N_go_0.
  - rewrite pretty_N_go_step by done. rewrite IH by (by apply N.div_lt).
    simpl. unfold pretty_N_char. by repeat case_match.
Qed.

Lemma pretty_N_no_underscore (x : N) : has_char "_"%char (pretty x) = false.
Proof.
  unfold pretty, pretty_N. case_decide; [reflexivity|].
  by rewrite pretty_N_go_no_underscore.
Qed.

(** The first underscore of a string splits it in one way only. *)
Lemma split_at_underscore (a a' r r' : string) :
  has_char "_"%char a = false -> has_char "_"%char a' = false ->
  a +:+ "_" +:+ r = a' +:+ "_" +:+ r' -> a = a' /\ r = r'.
Proof.
  revert a'. induction a as [|c a IH]; intros [|c' a'] H H' Heq;
    cbn in H, H', Heq.
  - by simplify_eq.
  - by simplify_eq.
  - by simplify_eq.
  - injection Heq as -> Heq.
    apply orb_false_iff in H as [_ H]. apply orb_false_iff in H' as [_ H'].
    destruct (IH a' H H' Heq) as [-> ->]. done.
Qed.

(** Ids made from different counter values differ. *)
Lemma message_id_inj (t t' : N) (c c' : nat) :
  message_id t c = message_id t' c' -> t = t' /\ c = c'.
Proof.
  unfold message_id. intros [= H].
  apply split_at_underscore in H as [Ht Hc];
    try apply pretty_N_no_underscore.
  split; [by apply (inj pretty)|by apply (inj pretty)].
Qed.

Lemma message_id_nonempty (t : N) (c : nat) :
  nonempty_id (Some (message_id t c)) = Some (message_id t c).
Proof. reflexivity. Qed.

Lemma is_message_id_mono (n m : nat) (id : string) :
  n <= m -> is_message_id n id -> is_message_id m id.
Proof. intros Hle (t & c & -> & Hc). exists t, c. split; [done|lia]. Qed.

Lemma is_message_id_fresh (n : nat) (t : N) (id : string) :
  is_message_id n id -> id <> message_id t n.
Proof.
  intros (t' & c & -> & Hc) Heq.
  apply message_id_inj in Heq as [_ ->]. lia.
Qed.

Lemma invariant_new : invariant new_bridge.
Proof.
  split; simpl; try (intros; simplify_map_eq; fail);
    try (intros ? H; by apply elem_of_nil in H); try apply NoDup_nil_2.
Qed.

(** Dropping pending entries and registry entries keeps the invariant. *)
Lemma invariant_shrink (b b' : Bridge) :
  invariant b ->
  pendingCallbacks b' ⊆ pendingCallbacks b ->
  workers b' ⊆ workers b ->
  listeners b' = listeners b ->
  messageIdCounter b' = messageIdCounter b ->
  next_ref b' = next_ref b ->
  settlements b' = settlements b ->
  timers b' = timers b ->
  outbox b' = outbox b ->
  invariant b'.
Proof.
  intros [] Hp Hw Hl Hc Hn Hs Ht Ho.
  assert (Hsub : forall id p, pendingCallbacks b' !! id = Some p ->
                              pendingCallbacks b !! id = Some p).
  { intros id p H. eapply lookup_weaken; eauto. }
  split; unfold ids_sent in *; rewrite ?Hc, ?Hn, ?Hs, ?Ht, ?Ho, ?Hl; eauto.
  - intros t Ht'. destruct (inv_timer0 t Ht') as [H1 H2]. eauto.
  - intros name w Hw'. eapply inv_workers0. eapply lookup_weaken; eauto.
Qed.

Lemma invariant_initWorker (name path : string) (spawns : bool)
    (b : Bridge) :
  invariant b -> invariant (snd (initWorker name path spawns b)).
Proof.
  intros []. unfold initWorker. destruct spawns; simpl.
  - split; simpl; eauto.
    + intros id p H. apply inv_pending_ref0 in H. lia.
    + intros p H. apply inv_settled_ref0 in H. lia.
    + intros n w H. apply lookup_insert_Some in H as [[-> <-]|[Hne H]].
      * rewrite lookup_insert_eq. eauto.
      * apply inv_workers0 in H.
        destruct (decide (S (next_ref b) = w)) as [->|Hw].
        -- rewrite lookup_insert_eq. eauto.
        -- by rewrite lookup_insert_ne.
  - split; simpl; eauto.
    + intros id p H. apply inv_pending_ref0 in H. lia.
    + intros p H. apply inv_settled_ref0 in H. lia.
Qed.

Lemma invariant_sendToWorker (name action : string)
    (payload : option ApiWorker.payload) (now : N) (b : Bridge) :
  invariant b -> invariant (snd (sendToWorker name action payload now b)).
Proof.
  intros []. unfold sendToWorker.
  destruct (workers b !! name) as [w|]; simpl.
  - assert (Hfresh : forall id, is_message_id (messageIdCounter b) id ->
                       id <> message_id now (messageIdCounter b)).
    { intros id. apply is_message_id_fresh. }
    assert (Hnew : is_message_id (S (messageIdCounter b))
                     (message_id now (messageIdCounter b))).
    { exists now, (messageIdCounter b). split; [done|lia]. }
    assert (Hup : forall id, is_message_id (messageIdCounter b) id ->
                    is_message_id (S (messageIdCounter b)) id).
    { intros id. apply is_message_id_mono. lia. }
    split; simpl.
    + intros id p H. apply lookup_insert_Some in H as [[<- <-]|[Hne H]]; eauto.
    + intros id p H. unfold ids_sent. simpl. rewrite map_app.
      apply elem_of_app.
      apply lookup_insert_Some in H as [[<- <-]|[Hne H]];
        [right; simpl; apply list_elem_of_singleton; done|left; eauto].
    + intros id p H. apply lookup_insert_Some in H as [[<- <-]|[Hne H]];
        [lia|]. apply inv_pending_ref0 in H. lia.
    + intros id1 id2 p H1 H2.
      apply lookup_insert_Some in H1 as [[<- <-]|[Hne1 H1]];
        apply lookup_insert_Some in H2 as [[<- E]|[Hne2 H2]]; try done.
      * apply inv_pending_ref0 in H2. lia.
      * apply inv_pending_ref0 in H1. lia.
      * eauto.
    + intros id p H. apply lookup_insert_Some in H as [[<- <-]|[Hne H]];
        [|eauto]. intros Hin. apply inv_settled_ref0 in Hin. lia.
    + intros p H. apply inv_settled_ref0 in H. lia.
    + done.
    + intros t Ht. apply elem_of_app in Ht as [Ht|Ht].
      * destruct (inv_timer0 t Ht) as [H1 H2]. split; [eauto|].
        intros p Hp. apply H2. rewrite lookup_insert_ne in Hp; [done|].
        intros E. by apply (Hfresh _ H1).
      * apply list_elem_of_singleton in Ht as ->. simpl. split; [done|].
        intros p. rewrite lookup_insert_eq. by intros [= <-].
    + unfold ids_sent. simpl. rewrite map_app. simpl.
      intros id Hid. apply elem_of_app in Hid as [Hid|Hid]; [eauto|].
      apply list_elem_of_singleton in Hid as ->. done.
    + unfold ids_sent in *. simpl. rewrite map_app. simpl.
      apply NoDup_app. split; [done|]. split; [|apply NoDup_singleton].
      intros id Hid Hid'. apply list_elem_of_singleton in Hid' as ->.
      by apply (Hfresh _ (inv_sent_id0 _ Hid)).
    + done.
  - split; simpl; eauto.
    + intros id p H. apply inv_pending_ref0 in H. lia.
    + intros id p H. rewrite map_app. simpl. intros Hin.
      apply elem_of_app in Hin as [Hin|Hin]; [by eapply inv_pending_unsettled0|].
      apply list_elem_of_singleton in Hin as ->.
      apply inv_pending_ref0 in H. lia.
    + intros p. rewrite map_app. simpl. intros Hin.
      apply elem_of_app in Hin as [Hin|Hin].
      * apply inv_settled_ref0 in Hin. lia.
      * apply list_elem_of_singleton in Hin as ->. lia.
    + rewrite map_app. simpl. apply NoDup_app. split; [done|].
      split; [|apply NoDup_singleton].
      intros p Hin Hin'. apply list_elem_of_singleton in Hin' as ->.
      apply inv_settled_ref0 in Hin. lia.
Qed.

(** Settling the promise of a pending entry while that entry is removed
    keeps the invariant. *)
Lemma invariant_answer (b : Bridge) (id : string) (p : nat)
    (s : settlement) (l : list timer) :
  invariant b ->
  pendingCallbacks b !! id = Some p ->
  l ⊆ timers b ->
  invariant
    (settle (set_pending (set_timers b l) (delete id (pendingCallbacks b)))
            p s).
Proof.
  intros [] Hp Hl. split; simpl.
  - intros id' p' H. apply lookup_delete_Some in H as [_ H]. eauto.
  - intros id' p' H. apply lookup_delete_Some in H as [_ H].
    by eapply inv_pending_sent0.
  - intros id' p' H. apply lookup_delete_Some in H as [_ H]. eauto.
  - intros id1 id2 p' H1 H2. apply lookup_delete_Some in H1 as [_ H1].
    apply lookup_delete_Some in H2 as [_ H2]. eauto.
  - intros id' p' H. apply lookup_delete_Some in H as [Hne H].
    rewrite map_app. simpl. intros Hin.
    apply elem_of_app in Hin as [Hin|Hin]; [by eapply inv_pending_unsettled0|].
    apply list_elem_of_singleton in Hin as ->. apply Hne. eauto.
  - intros p'. rewrite map_app. simpl. intros Hin.
    apply elem_of_app in Hin as [Hin|Hin]; [eauto|].
    apply list_elem_of_singleton in Hin as ->. eauto.
  - rewrite map_app. simpl. apply NoDup_app. split; [done|].
    split; [|apply NoDup_singleton].
    intros p' Hin Hin'. apply list_elem_of_singleton in Hin' as ->.
    by eapply inv_pending_unsettled0.
  - intros t Ht. apply Hl in Ht. destruct (inv_timer0 t Ht) as [H1 H2].
    split; [done|]. intros p' H. apply lookup_delete_Some in H as [_ H]. eauto.
  - done.
  - done.
  - done.
Qed.

Lemma invariant_on_message (w : nat) (d : inbound) (b : Bridge) :
  invariant b -> invariant (on_message w d b).
Proof.
  intros Hinv. unfold on_message.
  destruct (listeners b !! w) as [l|]; [|done].
  destruct (is_init d).
  { destruct Hinv. by split. }
  destruct (nonempty_id (in_id d)) as [id|]; [|done].
  destruct (pendingCallbacks b !! id) as [p|] eqn:Hp; [|done].
  by apply (invariant_answer b id p _ (timers b) Hinv Hp).
Qed.

Lemma invariant_on_error (w : nat) (b : Bridge) :
  invariant b -> invariant (on_error w b).
Proof.
  intros Hinv. unfold on_error. destruct (listeners b !! w); [|done].
  destruct Hinv. by split.
Qed.

Lemma invariant_timer_fires (i : nat) (b : Bridge) :
  invariant b -> invariant (timer_fires i b).
Proof.
  intros Hinv. unfold timer_fires.
  destruct (timers b !! i) as [t|] eqn:Ht; [|done].
  assert (Hsub : delete i (timers b) ⊆ timers b).
  { apply sublist_subseteq, sublist_delete. }
  destruct (pendingCallbacks b !! t_messageId t) as [p|] eqn:Hp.
  - destruct (proj2 (inv_timer b Hinv t (list_elem_of_lookup_2 _ _ _ Ht))
                    p Hp).
    by apply (invariant_answer b (t_messageId t) p _ _ Hinv Hp).
  - destruct Hinv. split; simpl; eauto.
Qed.

Lemma invariant_terminateWorker (name : string) (b : Bridge) :
  invariant b -> invariant (terminateWorker name b).
Proof.
  intros Hinv. unfold terminateWorker.
  destruct (workers b !! name) as [w|]; [|done].
  apply (invariant_shrink b); simpl; try done.
  - apply map_filter_subseteq.
  - apply delete_subseteq.
Qed.

(** What [terminateWorker] leaves alone, also when it is repeated. *)
Lemma terminate_many (names : list string) (b : Bridge) :
  let b' := foldr terminateWorker b names in
  pendingCallbacks b' ⊆ pendingCallbacks b
  /\ workers b' ⊆ workers b
  /\ listeners b' = listeners b
  /\ messageIdCounter b' = messageIdCounter b
  /\ next_ref b' = next_ref b
  /\ settlements b' = settlements b
  /\ timers b' = timers b
  /\ outbox b' = outbox b.
Proof.
  induction names as [|n names IH]; simpl; [done|].
  destruct IH as (H1 & H2 & H3 & H4 & H5 & H6 & H7 & H8).
  revert H1 H2 H3 H4 H5 H6 H7 H8.
  generalize (foldr terminateWorker b names). intros b'.
  unfold terminateWorker. destruct (workers b' !! n); simpl; [|done].
  intros; repeat split; try done.
  - etrans; [apply map_filter_subseteq|done].
  - etrans; [apply delete_subseteq|done].
Qed.

Lemma invariant_terminateAllWorkers (b : Bridge) :
  invariant b -> invariant (terminateAllWorkers b).
Proof.
  intros Hinv. unfold terminateAllWorkers.
  destruct (terminate_many (map fst (map_to_list (workers b))) b)
    as (H1 & H2 & H3 & H4 & H5 & H6 & H7 & H8).
  apply (invariant_shrink b); simpl; try done.
  apply map_empty_subseteq.
Qed.

Lemma invariant_step (b : Bridge) (e : event) :
  invariant b -> invariant (step b e).
Proof.
  destruct e; simpl;
    auto using invariant_initWorker, invariant_sendToWorker,
      invariant_on_message, invariant_on_error, invariant_timer_fires,
      invariant_terminateWorker, invariant_terminateAllWorkers.
Qed.

Lemma invariant_run (events : list event) (b : Bridge) :
  invariant b -> invariant (run events b).
Proof.
  revert b. induction events as [|e events IH]; intros b Hb; [done|].
  apply IH. by apply invariant_step.
Qed.

Lemma settled_settle (p q : nat) (s : settlement) (b : Bridge) :
  settled p (settle b q s)
  = settled p b ++ (if decide (q = p) then [s] else []).
Proof.
  unfold settled, settle. simpl. rewrite omap_app. simpl.
  by destruct (decide (q = p)).
Qed.

Lemma calls_on_nil (p : nat) (l : list (nat * settlement)) :
  p ∉ map fst l ->
  omap (fun s => if decide (fst s = p) then Some (snd s) else None) l = [].
Proof.
  induction l as [|[q s] l IH]; simpl; [done|].
  intros H. apply not_elem_of_cons in H as [Hne H].
  rewrite decide_False by done. by apply IH.
Qed.

Lemma settled_nil (p : nat) (b : Bridge) :
  p ∉ map fst (settlements b) -> settled p b = [].
Proof. apply calls_on_nil. Qed.

Lemma settled_at_most_once (p : nat) (b : Bridge) :
  NoDup (map fst (settlements b)) -> length (settled p b) <= 1.
Proof.
  unfold settled. induction (settlements b) as [|[q s] l IH]; simpl;
    [lia|].
  intros H. apply NoDup_cons in H as [Hq Hl].
  destruct (decide (q = p)) as [->|Hne]; [|by apply IH].
  simpl. rewrite calls_on_nil; [simpl; lia|done].
Qed.

Lemma settled_elem (p : nat) (s : settlement) (b : Bridge) :
  settled p b = [s] -> p ∈ map fst (settlements b).
Proof.
  intros H. destruct (decide (p ∈ map fst (settlements b))) as [|Hn];
    [done|]. by rewrite (settled_nil _ _ Hn) in H.
Qed.

(** One event adds at most one settlement, and only for a promise that
    had none; it adds pending entries only under ids that were not yet
    in use; and it keeps the ids handed out. *)
Lemma step_effect (b : Bridge) (e : event) :
  invariant b ->
  (settlements (step b e) = settlements b
   \/ (exists q s, settlements (step b e) = settlements b ++ [(q, s)]
                   /\ (q ∉ map fst (settlements b))
                   /\ forall id, pendingCallbacks b !! id <> Some q
                                 \/ pendingCallbacks (step b e) !! id = None))
  /\ (forall id p, pendingCallbacks (step b e) !! id = Some p ->
                   pendingCallbacks b !! id = Some p
                   \/ ~ is_message_id (messageIdCounter b) id)
  /\ (forall id, id ∈ ids_sent b -> id ∈ ids_sent (step b e)).
Proof.
  intros Hinv. destruct e as [n path sp|n act pl now|w d|w|i|n|]; simpl.
  - unfold initWorker. destruct sp; simpl; eauto.
  - unfold sendToWorker. destruct (workers b !! n); simpl.
    + split; [by left|]. split.
      * intros id p H. apply lookup_insert_Some in H as [[<- <-]|[_ H]];
          [right|by left].
        intros H. by apply (is_message_id_fresh _ now) in H.
      * unfold ids_sent. simpl. intros id H. rewrite map_app.
        apply elem_of_app. by left.
    + split; [|eauto]. right. do 2 eexists. split; [done|]. split.
      * intros H. apply (inv_settled_ref _ Hinv) in H. lia.
      * intros id. left. intros H.
        apply (inv_pending_ref _ Hinv) in H. lia.
  - unfold on_message. destruct (listeners b !! w); [|eauto].
    destruct (is_init d); [simpl; eauto|].
    destruct (nonempty_id (in_id d)) as [id|]; [|eauto].
    destruct (pendingCallbacks b !! id) as [p|] eqn:Hp; [|eauto].
    simpl. split; [|split; [|done]].
    + right. do 2 eexists. split; [done|].
      split; [by eapply inv_pending_unsettled|].
      intros id'. destruct (decide (id' = id)) as [->|Hne].
      * right. apply lookup_delete_eq.
      * left. intros H. apply Hne. by eapply inv_pending_inj.
    + intros id' p' H. apply lookup_delete_Some in H as [_ H]. by left.
  - unfold on_error. destruct (listeners b !! w); simpl; eauto.
  - unfold timer_fires. destruct (timers b !! i) as [t|] eqn:Ht; [|eauto].
    destruct (pendingCallbacks b !! t_messageId t) as [p|] eqn:Hp;
      [|simpl; eauto].
    simpl. split; [|split; [|done]].
    + right. do 2 eexists. split; [done|].
      destruct (proj2 (inv_timer b Hinv t (list_elem_of_lookup_2 _ _ _ Ht))
                      p Hp).
      split; [by eapply inv_pending_unsettled|].
      intros id'. destruct (decide (id' = t_messageId t)) as [->|Hne].
      * right. apply lookup_delete_eq.
      * left. intros H. apply Hne. by eapply inv_pending_inj.
    + intros id' p' H. apply lookup_delete_Some in H as [_ H]. by left.
  - unfold terminateWorker. destruct (workers b !! n); simpl; [|eauto].
    split; [by left|]. split; [|done].
    intros id p H. apply map_lookup_filter_Some in H as [H _]. by left.
  - unfold terminateAllWorkers.
    destruct (terminate_many (map fst (map_to_list (workers b))) b)
      as (H1 & H2 & H3 & H4 & H5 & H6 & H7 & H8).
    simpl. split; [by left|]. split.
    + intros id p H. by rewrite lookup_empty in H.
    + unfold ids_sent. simpl. by rewrite H8.
Qed.

(** While nothing answers a request, it stays pending and unsettled. *)
Lemma step_keeps_waiting (b : Bridge) (e : event) (id : string) (p : nat) :
  invariant b ->
  pendingCallbacks b !! id = Some p ->
  keeps_waiting id e = true ->
  pendingCallbacks (step b e) !! id = Some p.
Proof.
  intros Hinv Hp. destruct e as [n path sp|n act pl now|w d|w|i|n|]; simpl;
    try discriminate.
  - intros _. unfold initWorker. by destruct sp.
  - intros _. unfold sendToWorker. destruct (workers b !! n); simpl; [|done].
    rewrite lookup_insert_ne; [done|].
    intros E. symmetry in E. revert E. apply is_message_id_fresh.
    by eapply inv_pending_id.
  - intros Hk. unfold on_message. destruct (listeners b !! w); [|done].
    destruct (is_init d); [done|]. simpl in Hk.
    destruct (nonempty_id (in_id d)) as [id'|]; [|done].
    apply negb_true_iff, String.eqb_neq in Hk.
    destruct (pendingCallbacks b !! id'); [|done].
    simpl. by rewrite lookup_delete_ne.
  - intros _. unfold on_error. by destruct (listeners b !! w).
Qed.

(** Once a request has been answered, nothing that follows settles its
    promise again or brings its entry back. *)
Lemma step_answered (b : Bridge) (e : event) (id : string) (p : nat)
    (s : settlement) :
  invariant b -> answered id p s b -> answered id p s (step b e).
Proof.
  intros Hinv (Hnone & Hsent & Hs).
  destruct (step_effect b e Hinv) as (Hset & Hpend & Hids).
  split; [|split; [by apply Hids|]].
  - destruct (pendingCallbacks (step b e) !! id) as [q|] eqn:Hq; [|done].
    destruct (Hpend _ _ Hq) as [H|H]; [congruence|].
    destruct H. by eapply inv_sent_id.
  - destruct Hset as [Heq|(q & s' & Heq & Hq & _)].
    + unfold settled in *. by rewrite Heq.
    + unfold settled in *. rewrite Heq, omap_app. simpl.
      rewrite decide_False; [by rewrite app_nil_r|].
      intros ->. apply Hq. by eapply settled_elem.
Qed.

Lemma run_answered (events : list event) (b : Bridge) (id : string)
    (p : nat) (s : settlement) :
  invariant b -> answered id p s b -> answered id p s (run events b).
Proof.
  revert b. induction events as [|e events IH]; intros b Hinv Ha; [done|].
  apply IH; [by apply invariant_step|by apply step_answered].
Qed.

Lemma run_keeps_waiting (events : list event) (b : Bridge) (id : string)
    (p : nat) :
  invariant b ->
  pendingCallbacks b !! id = Some p ->
  forallb (keeps_waiting id) events = true ->
  pendingCallbacks (run events b) !! id = Some p.
Proof.
  revert b. induction events as [|e events IH]; intros b Hinv Hp Hk;
    [done|].
  simpl in Hk. apply andb_true_iff in Hk as [He Hk].
  apply IH; [by apply invariant_step| |done].
  by apply step_keeps_waiting.
Qed.

Lemma run_app (l1 l2 : list event) (b : Bridge) :
  run (l1 ++ l2) b = run l2 (run l1 b).
Proof. apply fold_left_app. Qed.

Lemma step_listeners (b : Bridge) (e : event) (w : nat) :
  is_Some (listeners b !! w) -> is_Some (listeners (step b e) !! w).
Proof.
  intros H. destruct e as [n path sp|n act pl now|w' d|w'|i|n|]; simpl.
  - unfold initWorker. destruct sp; simpl; [|done].
    destruct (decide (S (next_ref b) = w)) as [->|Hne].
    + rewrite lookup_insert_eq. eauto.
    + by rewrite lookup_insert_ne.
  - unfold sendToWorker. by destruct (workers b !! n).
  - unfold on_message. destruct (listeners b !! w'); [|done].
    destruct (is_init d); [done|].
    destruct (nonempty_id (in_id d)) as [id|]; [|done].
    by destruct (pendingCallbacks b !! id).
  - unfold on_error. by destruct (listeners b !! w').
  - unfold timer_fires. destruct (timers b !! i) as [t|]; [|done].
    by destruct (pendingCallbacks b !! t_messageId t).
  - unfold terminateWorker. by destruct (workers b !! n).
  - unfold terminateAllWorkers.
    destruct (terminate_many (map fst (map_to_list (workers b))) b)
      as (_ & _ & H3 & _).
    simpl. by rewrite H3.
Qed.

Lemma run_listeners (events : list event) (b : Bridge) (w : nat) :
  is_Some (listeners b !! w) -> is_Some (listeners (run events b) !! w).
Proof.
  revert b. induction events as [|e events IH]; intros b H; [done|].
  apply IH. by apply step_listeners.
Qed.

Lemma run_ids_sent (events : list event) (b : Bridge) (id : string) :
  invariant b -> id ∈ ids_sent b -> id ∈ ids_sent (run events b).
Proof.
  revert b. induction events as [|e events IH]; intros b Hinv H; [done|].
  apply IH; [by apply invariant_step|].
  by apply (step_effect b e Hinv).
Qed.

(** A request that is pending, once sent. *)
Lemma sendToWorker_pending (name action : string)
    (payload : option ApiWorker.payload) (now : N) (b : Bridge) (w : nat) :
  workers b !! name = Some w ->
  let id := message_id now (messageIdCounter b) in
  let '(p, b1) := sendToWorker name action payload now b in
  p = next_ref b
  /\ pendingCallbacks b1 !! id = Some p
  /\ id ∈ ids_sent b1.
Proof.
  intros Hw. unfold sendToWorker. rewrite Hw. simpl.
  split; [done|]. split; [apply lookup_insert_eq|].
  unfold ids_sent. simpl. rewrite map_app. apply elem_of_app. right.
  simpl. apply list_elem_of_singleton. done.
Qed.

(** A response that finds its entry resolves the promise, for good. *)
Lemma response_resolves (b : Bridge) (worker : nat) (id : string) (p : nat)
    (r : ApiWorker.result) :
  invariant b ->
  pendingCallbacks b !! id = Some p ->
  is_Some (listeners b !! worker) ->
  let b' := on_message worker (response_with id r) b in
  invariant b' /\ answered id p (Resolved (Some r)) b'.
Proof.
  intros Hinv Hp [l Hl] b'.
  split; [by apply invariant_on_message|].
  assert (Hmsg : b' = settle (set_pending b (delete id (pendingCallbacks b)))
                             p (Resolved (Some r))).
  { subst b'. unfold on_message. rewrite Hl.
    change (is_init (response_with id r)) with false. cbv iota.
    change (in_id (response_with id r)) with (Some id).
    destruct (inv_pending_id b Hinv id p Hp) as (t & c & -> & _).
    rewrite message_id_nonempty. by rewrite Hp. }
  rewrite Hmsg. split; [apply lookup_delete_eq|]. split.
  - unfold ids_sent. simpl. by eapply inv_pending_sent.
  - rewrite settled_settle, decide_True by done.
    change (settled p (set_pending b (delete id (pendingCallbacks b))))
      with (settled p b).
    rewrite settled_nil; [done|]. by eapply inv_pending_unsettled.
Qed.

(** A timer that finds its entry rejects the promise, for good. *)
Lemma timeout_rejects (b : Bridge) (i : nat) (t : timer) (p : nat) :
  invariant b ->
  timers b !! i = Some t ->
  pendingCallbacks b !! t_messageId t = Some p ->
  let b' := timer_fires i b in
  invariant b'
  /\ answered (t_messageId t) p
       (RejectedWith
          (Error ("Timeout al esperar respuesta del worker ["
                  +:+ t_workerName t +:+ "]"))) b'.
Proof.
  intros Hinv Ht Hp b'.
  split; [by apply invariant_timer_fires|].
  subst b'. unfold timer_fires. rewrite Ht, Hp.
  destruct (proj2 (inv_timer b Hinv t (list_elem_of_lookup_2 _ _ _ Ht)) p Hp).
  split; [apply lookup_delete_eq|]. split.
  - unfold ids_sent. simpl. by eapply inv_pending_sent.
  - rewrite settled_settle, decide_True by done.
    match goal with
    | |- settled ?q ?x ++ _ = _ => change (settled q x) with (settled q b)
    end.
    rewrite settled_nil; [done|]. by eapply inv_pending_unsettled.
Qed.

(** C2. Whatever has happened to the bridge: the correlation ids handed
    out are pairwise distinct, and no promise returned by [sendToWorker]
    has its [resolve] or [reject] called more than once.  A response
    that arrives while the entry of its id is pending resolves the
    promise of that entry with its result, and a timer that fires while
    the entry is pending rejects it; either way the entry is removed and
    nothing that follows settles the promise again.  So a request sent
    to an initialised worker gets an id never used before, and when the
    events that follow it bring no response with that id, no timer and no
    termination, however many other requests and responses in whatever
    order, the first response with its id resolves its promise, with the
    result of that response and with nothing else, duplicates
    notwithstanding.  A response whose id has no pending entry, because
    the request has been answered or has timed out, changes nothing. *)
Theorem correlation_at_most_once :
  (forall events, NoDup (ids_sent (run events new_bridge)))
  /\ (forall events p, length (settled p (run events new_bridge)) <= 1)
  /\ (forall events worker id p r after,
        let b := run events new_bridge in
        let final := run after (on_message worker (response_with id r) b) in
        pendingCallbacks b !! id = Some p ->
        is_Some (listeners b !! worker) ->
        settled p final = [Resolved (Some r)]
        /\ pendingCallbacks final !! id = None)
  /\ (forall events i t p after,
        let b := run events new_bridge in
        let final := run after (timer_fires i b) in
        timers b !! i = Some t ->
        pendingCallbacks b !! t_messageId t = Some p ->
        settled p final
        = [RejectedWith
             (Error ("Timeout al esperar respuesta del worker ["
                     +:+ t_workerName t +:+ "]"))]
        /\ pendingCallbacks final !! t_messageId t = None)
  /\ (forall before name action payload now worker waiting r after,
        let b0 := run before new_bridge in
        let id := message_id now (messageIdCounter b0) in
        let p := fst (sendToWorker name action payload now b0) in
        let final :=
          run (before ++ Send name action payload now
                      :: waiting ++ Message worker (response_with id r)
                      :: after) new_bridge in
        workers b0 !! name = Some worker ->
        forallb (keeps_waiting id) waiting = true ->
        (id ∉ ids_sent b0)
        /\ settled p final = [Resolved (Some r)]
        /\ pendingCallbacks final !! id = None)
  /\ (forall events worker d id,
        let b := run events new_bridge in
        is_init d = false ->
        nonempty_id (in_id d) = Some id ->
        pendingCallbacks b !! id = None ->
        on_message worker d b = b).
Proof.
  split; [|split; [|split; [|split; [|split]]]].
  - intros events. apply inv_sent_once, invariant_run, invariant_new.
  - intros events p. apply settled_at_most_once, inv_settled_once,
      invariant_run, invariant_new.
  - intros events worker id p r after b final Hp Hl.
    assert (Hinv : invariant b) by apply invariant_run, invariant_new.
    destruct (response_resolves b worker id p r Hinv Hp Hl) as [Hinv' Ha].
    destruct (run_answered after _ id p _ Hinv' Ha) as (H1 & _ & H3).
    done.
  - intros events i t p after b final Ht Hp.
    assert (Hinv : invariant b) by apply invariant_run, invariant_new.
    destruct (timeout_rejects b i t p Hinv Ht Hp) as [Hinv' Ha].
    destruct (run_answered after _ _ p _ Hinv' Ha) as (H1 & _ & H3).
    done.
  - intros before name action payload now worker waiting r after
      b0 id p final Hw Hwait.
    assert (Hinv0 : invariant b0) by apply invariant_run, invariant_new.
    split.
    { intros Hin. apply (inv_sent_id _ Hinv0) in Hin.
      by apply (is_message_id_fresh _ now) in Hin. }
    pose proof (sendToWorker_pending name action payload now b0 worker Hw)
      as Hsend.
    pose proof (invariant_sendToWorker name action payload now b0 Hinv0)
      as Hinv1.
    subst final. rewrite run_app. simpl. rewrite run_app. simpl.
    fold b0. subst p.
    destruct (sendToWorker name action payload now b0) as [p b1] eqn:Esend.
    cbv zeta in Hsend. simpl in Hinv1 |- *.
    destruct Hsend as (Hp & Hpend & Hsent). fold id in Hpend, Hsent.
    set (b2 := run waiting b1).
    assert (Hinv2 : invariant b2) by by apply invariant_run.
    assert (Hpend2 : pendingCallbacks b2 !! id = Some p).
    { by apply run_keeps_waiting. }
    assert (Hl : is_Some (listeners b2 !! worker)).
    { apply run_listeners.
      assert (Hl1 : is_Some (listeners b0 !! worker))
        by by eapply inv_workers.
      apply (step_listeners b0 (Send name action payload now)) in Hl1.
      simpl in Hl1. by rewrite Esend in Hl1. }
    destruct (response_resolves b2 worker id p r Hinv2 Hpend2 Hl)
      as [Hinv3 Ha].
    destruct (run_answered after _ id p _ Hinv3 Ha) as (H1 & _ & H3).
    done.
  - intros events worker d id b Hinit Hid Hnone. unfold on_message.
    destruct (listeners b !! worker); [|done].
    by rewrite Hinit, Hid, Hnone.
Qed.

(** For the [api] worker the clean-up loop of [terminateWorker] never
    finds an id to delete. *)
Lemma terminateWorker_api_keeps_every_entry (events : list event) :
  let b := run events new_bridge in
  pendingCallbacks (terminateWorker "api" b) = pendingCallbacks b.
Proof.
  intros b. unfold terminateWorker.
  destruct (workers b !! "api"); [|done]. simpl.
  apply map_filter_id. intros id p Hp.
  assert (Hinv : invariant b) by apply invariant_run, invariant_new.
  destruct (inv_pending_id b Hinv id p Hp) as (t & c & -> & _).
  reflexivity.
Qed.

(** C5 does not hold of the code. After [initWorker("api", ...)] and a
    [sendToWorker("api", "request", ...)] that is still unanswered,
    [terminateWorker("api")] discards the registry entry of the worker
    and terminates it, but the pending entry of the request stays in
    [pendingCallbacks] and its promise is neither resolved nor rejected:
    the clean-up loop looks for ids that start with ["api_"], and every
    id starts with ["msg_"]. *)
Lemma terminateWorker_leaves_pending_entry :
  let b1 := snd (initWorker "api" "src/core/workers/api.worker.js" true
                            new_bridge) in
  let '(promise, b2) := sendToWorker "api" "request" None 1700000000000 b1 in
  let b3 := terminateWorker "api" b2 in
  workers b2 !! "api" = Some 1
  /\ workers b3 !! "api" = None
  /\ terminated b3 = [1]
  /\ ids_sent b2 = ["msg_1700000000000_0"]
  /\ pendingCallbacks b2 !! "msg_1700000000000_0" = Some promise
  /\ pendingCallbacks b3 !! "msg_1700000000000_0" = Some promise
  /\ settled promise b3 = [].
Proof. vm_compute. repeat split. Qed.

Lemma correlation_at_most_once_witness :
  let path := "src/core/workers/api.worker.js" in
  let first := ApiWorker.FromCache (ApiWorker.JsonArray []) in
  let second := ApiWorker.NetworkError "Failed to fetch" in
  let before := [InitWorker "api" path true] in
  let waiting :=
    [Send "api" "request" None 1001;
     Message 1 (response_with "msg_1001_1" second)] in
  let after := [Message 1 (response_with "msg_1000_0" second)] in
  let final :=
    run (before ++ Send "api" "request" None 1000
                :: waiting ++ Message 1 (response_with "msg_1000_0" first)
                :: after) new_bridge in
  workers (run before new_bridge) !! "api" = Some 1
  /\ forallb (keeps_waiting "msg_1000_0") waiting = true
  /\ settled 2 final = [Resolved (Some first)]
  /\ settled 3 final = [Resolved (Some second)]
  /\ pendingCallbacks final = ∅.
Proof.
  intros path first second before waiting after final.
  assert (Hw : workers (run before new_bridge) !! "api" = Some 1)
    by reflexivity.
  assert (Hk : forallb (keeps_waiting "msg_1000_0") waiting = true)
    by reflexivity.
  split; [exact Hw|]. split; [exact Hk|]. split.
  - destruct correlation_at_most_once as (_ & _ & _ & _ & H & _).
    destruct (H before "api" "request" None 1000%N 1 waiting first after
                Hw Hk) as (_ & Hs & _).
    exact Hs.
  - split; vm_compute; reflexivity.
Defined.

End BridgeProps.
Section ServiceProps.
Import Js Actions Reducers ApiService ServiceRuns.

(** C4 does not hold of the code. A [GET] with the loader shown is begun
    on the started application: its identifier enters [pendingRequests]
    and [setLoading(true)] is dispatched.  The worker never answers and
    after 30 seconds the timer of the bridge rejects the promise.
    [request] then goes straight to its [catch] block: it rejects, the
    identifier is still in [pendingRequests], and no [setLoading(false)]
    has been dispatched.  When the same request is answered instead, be
    it with a 500, the identifier is removed and [setLoading(false)] is
    dispatched.  And the identifier left behind stays: a later request
    that succeeds removes its own identifier and finds the set not empty,
    so it does not dispatch [setLoading(false)] either.  The flag in the
    state is [false] all along, at every one of these points: on the
    exported store the promise of the persistence middleware is rejected
    and no dispatch is reduced. *)
Lemma request_timeout_leaves_request_pending :
  let encode := fun _ : list (string * string) => "" in
  let timeout :=
    WorkerBridge.RejectedWith
      (Error "Timeout al esperar respuesta del worker [api]") in
  let failed :=
    WorkerBridge.Resolved
      (Some (ApiWorker.Fetched false 500 "Internal Server Error" []
               (ApiWorker.Text "") 12)) in
  let succeeded :=
    WorkerBridge.Resolved
      (Some (ApiWorker.Fetched true 200 "OK" []
               (ApiWorker.JsonArray []) 12)) in
  let '(s, a1) := request_begin encode "GET" "incidents" no_options 1000
                                started in
  let a2 := with_bridge a1 (WorkerBridge.timer_fires 0 (bridge a1)) in
  let '(outcome, a3) := request_resume s timeout 31000 a2 in
  let '(outcome', a3') := request_resume s failed 1012 a1 in
  let '(s2, a4) := request_begin encode "GET" "incidents/7" no_options 40000
                                 a3 in
  let '(outcome2, a5) := request_resume s2 succeeded 40012 a4 in
  elements (pendingRequests a1)
  = ["GET:http://localhost:3000/incidents:1000"]
  /\ loading_dispatched a1 = [true]
  /\ WorkerBridge.settled (s_promise s) (bridge a2) = [timeout]
  /\ (exists e, outcome = Throws e)
  /\ elements (pendingRequests a3)
     = ["GET:http://localhost:3000/incidents:1000"]
  /\ loading_dispatched a3 = [true]
  /\ (exists e, outcome' = Throws e)
  /\ elements (pendingRequests a3') = []
  /\ loading_dispatched a3' = [true; false]
  /\ outcome2 = Returns (Some (ApiWorker.JsonArray []))
  /\ elements (pendingRequests a5)
     = ["GET:http://localhost:3000/incidents:1000"]
  /\ loading_dispatched a5 = [true; true]
  /\ map loading_shown [started; a1; a3; a3'; a5]
     = [false; false; false; false; false].
Proof.
  vm_compute. repeat split; eauto.
Qed.

End ServiceProps.

Section ReducerExtras.
Import Js Actions Reducers ReducerSpec Notifications Slices.

(** Each slice changes only under the action types its reducer has a
    case for; [_actionLog] never changes; an action of any other type,
    [incidents/loadIncidents] included, leaves the whole state as it
    is. *)
Theorem reducers_frame (st : State) (a : action) :
  let st' := createReducer st a in
  (loading_case (what a) = false -> loading st' = loading st)
  /\ (ui_case (what a) = false -> ui st' = ui st)
  /\ (incidents_case (what a) = false -> incidents st' = incidents st)
  /\ (currentIncident_case (what a) = false ->
      currentIncident st' = currentIncident st)
  /\ (notifications_case (what a) = false ->
      notifications st' = notifications st)
  /\ (error_case (what a) = false -> error st' = error st)
  /\ _actionLog st' = _actionLog st
  /\ (what a = LoadIncidents \/ (exists t, what a = Other t) -> st' = st).
Proof.
  intros st'. subst st'. unfold createReducer. simpl.
  unfold loadingReducer, uiReducer, incidentsReducer,
    currentIncidentReducer, notificationsReducer, errorReducer.
  repeat split; try (destruct (what a); simpl; intros; done).
  intros [E|[t E]]; rewrite E; by destruct st.
Qed.

(** Adding an incident and then deleting it by its id gives back the
    list, provided no incident of the list has that id. *)
Theorem add_then_delete (state : list obj) (x : obj) (id : value)
    (g g' : State) (n n' : option nat) (t t' : option N) :
  strict_eq (get x "id") id = true ->
  Forall (fun i => strict_eq (get i "id") id = false) state ->
  incidentsReducer
    (incidentsReducer state (mkAction (AddIncident x) n t) g)
    (mkAction (DeleteIncident id) n' t') g'
  = state.
Proof.
  intros Hx Hall. unfold incidentsReducer. simpl.
  rewrite filter_app, filter_cons_False, filter_nil, app_nil_r.
  2:{ rewrite Hx. simpl. discriminate. }
  induction Hall as [|i l Hi _ IH]; [done|].
  rewrite filter_cons_True by (by rewrite Hi). by rewrite IH.
Qed.

Lemma add_then_delete_witness :
  let other : obj := {[ "id" := VNum 2 ]} in
  strict_eq (get incident_1 "id") (VNum 1) = true
  /\ Forall (fun i => strict_eq (get i "id") (VNum 1) = false) [other]
  /\ incidentsReducer
       (incidentsReducer [other] (addIncident incident_1)
                         (Store.initialState false))
       (deleteIncident (VNum 1)) (Store.initialState false)
     = [other].
Proof.
  intros other.
  assert (H1 : strict_eq (get incident_1 "id") (VNum 1) = true)
    by reflexivity.
  assert (H2 : Forall (fun i => strict_eq (get i "id") (VNum 1) = false)
                      [other]).
  { apply Forall_singleton. reflexivity. }
  split; [exact H1|]. split; [exact H2|].
  apply (add_then_delete [other] incident_1 (VNum 1) _ _ None None
           None None H1 H2).
Defined.


(** The selected incident stays an element of the list under every
    action except [setIncidents] and [setCurrentIncident]: an update
    changes both copies alike, and a delete that removes it from the
    list clears the selection. *)
Theorem selection_stays_listed (st : State) (a : action) :
  replaces (what a) = false ->
  selected_is_listed st ->
  selected_is_listed (createReducer st a).
Proof.
  unfold selected_is_listed. simpl.
  unfold currentIncidentReducer, incidentsReducer.
  destruct (what a) eqn:Ea; simpl; try discriminate; intros _; try done.
  - destruct (currentIncident st); [|done]. intros H.
    apply elem_of_app. by left.
  - destruct (currentIncident st) as [c|]; [|done]. intros H.
    destruct (strict_eq (get c "id") (get payload "id")) eqn:E.
    + apply list_elem_of_fmap. exists c. by rewrite E.
    + apply list_elem_of_fmap. exists c. by rewrite E.
  - destruct (currentIncident st) as [c|]; [|done]. intros H.
    destruct (strict_eq (get c "id") payload) eqn:E; [done|].
    apply list_elem_of_filter. by rewrite E.
Qed.

Lemma selection_stays_listed_witness :
  let st := {| loading := false; incidents := [incident_1];
               currentIncident := Some incident_1; notifications := [];
               error := None;
               ui := mkUi None false false "all"; _actionLog := [] |} in
  let a := updateIncident {[ "id" := VNum 1; "status" := VStr "resuelto" ]} in
  replaces (what a) = false
  /\ selected_is_listed st
  /\ selected_is_listed (createReducer st a).
Proof.
  intros st a.
  assert (H : selected_is_listed st).
  { unfold selected_is_listed. simpl. apply list_elem_of_singleton. done. }
  split; [reflexivity|]. split; [exact H|].
  apply (selection_stays_listed st a eq_refl H).
Defined.

(** [toggleMenu()] without a payload flips the menu, so two of them give
    back the state; [toggleMenu(b)] sets the menu to [b], whatever it
    was, so a second one changes nothing.  Either way only [menuOpen]
    changes. *)
Theorem toggleMenu_twice (st : State) (b : bool)
    (n n' : option nat) (t t' : option N) :
  let flipped := createReducer st (mkAction (ToggleMenu None) n t) in
  let forced := createReducer st (mkAction (ToggleMenu (Some b)) n t) in
  let with_menu (m : bool) :=
    {| loading := loading st; incidents := incidents st;
       currentIncident := currentIncident st;
       notifications := notifications st; error := error st;
       ui := {| ui_loading := ui_loading (ui st);
                darkMode := darkMode (ui st);
                menuOpen := m;
                filterStatus := filterStatus (ui st) |};
       _actionLog := _actionLog st |} in
  flipped = with_menu (negb (menuOpen (ui st)))
  /\ forced = with_menu b
  /\ createReducer flipped (mkAction (ToggleMenu None) n' t') = st
  /\ createReducer forced (mkAction (ToggleMenu (Some b)) n' t') = forced.
Proof.
  destruct st as [l i c ns e [ul d m f] log].
  unfold createReducer, uiReducer. simpl.
  rewrite negb_involutive. done.
Qed.

(** The notification helpers take [Date.now()] as the id, so two
    notifications made in the same millisecond share it: removing one by
    its id removes both, and marking one displayed marks both. *)
Theorem same_millisecond_notifications (st : State) (now : N)
    (m1 m2 : string) :
  let st2 :=
    createReducer (createReducer st (showSuccessNotification now m1))
                  (showErrorNotification now m2) in
  let id := VNum (Z.of_N now) in
  notifications st2
  = notifications st ++ [notification now m1 "success" 5000;
                         notification now m2 "error" 7000]
  /\ notifications (createReducer st2 (removeNotification id))
     = notifications (createReducer st (removeNotification id))
  /\ notifications (createReducer st2 (markNotificationDisplayed id))
     = notifications (createReducer st (markNotificationDisplayed id))
       ++ [<["displayed" := VBool true]>
             (notification now m1 "success" 5000);
           <["displayed" := VBool true]>
             (notification now m2 "error" 7000)].
Proof.
  intros st2 id. subst st2 id. simpl. unfold notificationsReducer. simpl.
  assert (Hid : forall m ty d,
            strict_eq (get (notification now m ty d) "id")
                      (VNum (Z.of_N now)) = true).
  { intros. unfold get, notification.
    rewrite lookup_insert_eq. simpl. apply Z.eqb_refl. }
  split; [by rewrite <- app_assoc|]. split.
  - rewrite <- app_assoc, filter_app. simpl.
    rewrite filter_cons_False by (rewrite Hid; simpl; discriminate).
    rewrite filter_cons_False by (rewrite Hid; simpl; discriminate).
    by rewrite filter_nil, app_nil_r.
  - rewrite <- app_assoc, map_app. simpl. by rewrite !Hid.
Qed.

End ReducerExtras.

Section StoreExtras.
Import Js Actions Reducers Store StoreRuns.







Lemma world_eta (w : World) :
  {| store := {| reducer := reducer (store w); state := state (store w);
                 subscribers := subscribers (store w);
                 middlewares := middlewares (store w);
                 actionCounter := actionCounter (store w) |};
     development := development w; continuations := continuations w;
     calls := calls w |} = w.
Proof. by destruct w as [[] ? ? ?]. Qed.

Lemma filter_other_refs (s : subscriber) (l : list subscriber) :
  is_subscribed s l = false ->
  filter (fun s' => sub_ref s' <> sub_ref s) l = l.
Proof.
  unfold is_subscribed. induction l as [|x l IH]; simpl; intros H; [done|].
  apply orb_false_iff in H as [Hx Hl]. apply Nat.eqb_neq in Hx.
  rewrite filter_cons_True by done. by rewrite IH.
Qed.

(** Subscribing a function that is subscribed already changes nothing;
    unsubscribing one that was just added gives back the store; and a
    function that has been unsubscribed is not called by the next round
    of notifications. *)
Theorem subscribe_unsubscribe (s : subscriber) (w : World) :
  subscribe s (subscribe s w) = subscribe s w
  /\ (is_subscribed s (subscribers (store w)) = false ->
      unsubscribe s (subscribe s w) = w)
  /\ notified (sub_ref s) (calls (notifySubscribers (unsubscribe s w)))
     = notified (sub_ref s) (calls w).
Proof.
  split; [|split].
  - unfold subscribe.
    destruct (is_subscribed s (subscribers (store w))) eqn:E.
    + by rewrite E.
    + simpl. unfold is_subscribed. rewrite existsb_app. simpl.
      by rewrite Nat.eqb_refl, orb_true_r.
  - intros E. unfold subscribe. rewrite E. unfold unsubscribe. simpl.
    rewrite filter_app, (filter_other_refs _ _ E).
    rewrite filter_cons_False by (simpl; auto).
    rewrite filter_nil, app_nil_r.
    unfold with_store, set_subscribers. simpl. apply world_eta.
  - unfold notifySubscribers, unsubscribe. simpl.
    rewrite notified_app, notified_absent; [by rewrite app_nil_r|].
    intros H. apply list_elem_of_fmap in H as (x & Hx & Hin).
    apply list_elem_of_filter in Hin as [Hne _]. congruence.
Qed.

Lemma subscribe_unsubscribe_witness :
  let w := app_store false false in
  is_subscribed (quiet_subscriber 3) (subscribers (store w)) = false
  /\ unsubscribe (quiet_subscriber 3) (subscribe (quiet_subscriber 3) w) = w.
Proof.
  intros w. split; [reflexivity|].
  destruct (subscribe_unsubscribe (quiet_subscriber 3) w) as (_ & H & _).
  apply H. reflexivity.
Defined.

Lemma find_after_run (i j : nat) (w : World) :
  i <> j ->
  find_continuation i (run_continuation j w) = find_continuation i w.
Proof.
  intros Hne. unfold run_continuation.
  destruct (find_continuation j w) as [c|]; [|done].
  destruct (all_fulfilled c); [|done].
  unfold find_continuation. simpl.
  induction (continuations w) as [|x l IH]; [done|].
  destruct (has_id j x) eqn:Ej.
  - rewrite filter_cons_False by congruence. simpl.
    assert (has_id i x = false) as ->; [|exact IH].
    unfold has_id in *. destruct (_id (k_action x)); [|done].
    apply Nat.eqb_eq in Ej. subst. by apply Nat.eqb_neq.
  - rewrite filter_cons_True by done. simpl.
    destruct (has_id i x); [done|exact IH].
Qed.

(** Two dispatches whose middleware promises have all been fulfilled are
    applied in the order in which their continuations run, not in the
    order of the dispatches: the one that runs first is reduced on the
    state it finds, and the one that runs second on top of the state the
    first one stored; out of development that is the reducer applied
    twice, in the order of completion. *)
Theorem completion_order (w : World) (i j : nat) (ci cj : continuation) :
  i <> j ->
  find_continuation i w = Some ci -> all_fulfilled ci = true ->
  find_continuation j w = Some cj -> all_fulfilled cj = true ->
  let wi := run_continuation i w in
  let wj := run_continuation j w in
  getState wj = next_state w (k_action cj)
  /\ getState (run_continuation i wj) = next_state wj (k_action ci)
  /\ getState wi = next_state w (k_action ci)
  /\ getState (run_continuation j wi) = next_state wi (k_action cj)
  /\ (development w = false ->
      getState (run_continuation i wj)
      = reducer (store w) (reducer (store w) (getState w) (k_action cj))
                (k_action ci)
      /\ getState (run_continuation j wi)
         = reducer (store w) (reducer (store w) (getState w) (k_action ci))
                   (k_action cj)).
Proof.
  intros Hne Hi Hri Hj Hrj. cbv zeta.
  assert (Hone : forall a b ca cb, a <> b ->
            find_continuation a w = Some ca -> all_fulfilled ca = true ->
            find_continuation b w = Some cb -> all_fulfilled cb = true ->
            getState (run_continuation b w) = next_state w (k_action cb)
            /\ getState (run_continuation a (run_continuation b w))
               = next_state (run_continuation b w) (k_action ca)
            /\ (development w = false ->
                getState (run_continuation a (run_continuation b w))
                = reducer (store w)
                    (reducer (store w) (getState w) (k_action cb))
                    (k_action ca))).
  { intros a b ca cb Hab Ha Hra Hb Hrb.
    destruct (run_continuation_ready b w cb Hb Hrb) as (Hst & _).
    assert (Ha' : find_continuation a (run_continuation b w) = Some ca)
      by by rewrite find_after_run.
    destruct (run_continuation_ready a _ ca Ha' Hra) as (Hst' & _).
    simpl in Hst, Hst'. split; [exact Hst|]. split; [exact Hst'|].
    intros Hdev. rewrite Hst'. unfold next_state at 1.
    assert (development (run_continuation b w) = false) as ->.
    { unfold run_continuation. rewrite Hb, Hrb. exact Hdev. }
    assert (reducer (store (run_continuation b w)) = reducer (store w)) as ->.
    { unfold run_continuation. by rewrite Hb, Hrb. }
    rewrite Hst. unfold next_state. by rewrite Hdev. }
  destruct (Hone i j ci cj Hne Hi Hri Hj Hrj) as (H1 & H2 & H3).
  assert (Hne' : j <> i) by congruence.
  destruct (Hone j i cj ci Hne' Hj Hrj Hi Hri) as (H4 & H5 & H6).
  repeat split; auto.
Qed.

Lemma completion_order_witness :
  let slow := {| mw_ref := 7; mw_call := fun _ _ => MwPromise |} in
  let w0 := applyMiddleware slow (store_world false false) in
  let w1 := snd (dispatch 10 (ArgObject (setLoading true)) w0) in
  let w2 := snd (dispatch 11 (ArgObject (setLoading false)) w1) in
  let w := settle 1 0 true (settle 2 0 true w2) in
  let first := mkContinuation (enhance (setLoading true) 1 10) [Fulfilled] in
  let second :=
    mkContinuation (enhance (setLoading false) 2 11) [Fulfilled] in
  continuations w2
  = [mkContinuation (enhance (setLoading true) 1 10) [Pending];
     mkContinuation (enhance (setLoading false) 2 11) [Pending]]
  /\ find_continuation 1 w = Some first
  /\ find_continuation 2 w = Some second
  /\ loading (getState (run_continuation 2 (run_continuation 1 w))) = false
  /\ loading (getState (run_continuation 1 (run_continuation 2 w))) = true.
Proof.
  intros slow w0 w1 w2 w first second.
  split; [reflexivity|]. split; [reflexivity|]. split; [reflexivity|].
  destruct (completion_order w 1 2 first second)
    as (_ & _ & _ & _ & H); try reflexivity; [lia|].
  destruct (H eq_refl) as [H12 H21].
  split; [rewrite H21|rewrite H12]; reflexivity.
Defined.

(** In development the action log never holds more than 20 entries: the
    continuation keeps the last 19 entries of the log it finds, in their
    order, and appends the action it has just reduced, with its type,
    payload and timestamp; so the oldest entries are the ones dropped. *)
Theorem actionLog_is_bounded (w : World) (id : nat) (c : continuation) :
  find_continuation id w = Some c -> all_fulfilled c = true ->
  development w = true ->
  let found := _actionLog (getState w) in
  let log' := _actionLog (getState (run_continuation id w)) in
  let entry :=
    mkLogEntry (type (k_action c)) (what (k_action c))
               (_timestamp (k_action c)) in
  log' = drop (length found - 19) found ++ [entry]
  /\ length log' <= 20
  /\ last log' = Some entry
  /\ (length found < 19 -> log' = found ++ [entry])
  /\ (19 <= length found -> length log' = 20)
  /\ (forall k, k < length log' - 1 ->
                log' !! k = found !! (k + (length found - 19))).
Proof.
  intros Hf Hr Hdev found log' entry.
  destruct (run_continuation_ready id w c Hf Hr) as (Hst & _).
  simpl in Hst. subst log'. rewrite Hst. unfold next_state.
  rewrite Hdev. simpl. fold found. unfold slice_last. fold entry.
  split; [done|].
  rewrite length_app, length_drop. simpl.
  split; [lia|]. split; [apply last_snoc|].
  split; [|split; [lia|]].
  - intros Hlt. replace (length found - 19) with 0 by lia. done.
  - intros k Hk. rewrite lookup_app_l by (rewrite length_drop; lia).
    rewrite lookup_drop. f_equal. lia.
Qed.

Lemma actionLog_is_bounded_witness :
  let old (n : nat) :=
    mkLogEntry (VStr "incidents/loadIncidents") LoadIncidents
               (Some (N.of_nat n)) in
  let full := store_world true false in
  let w0 :=
    with_store full
      (set_state (store full)
         (set_actionLog (getState full) (map old (seq 0 20)))) in
  let w := snd (dispatch 100 (ArgObject (setLoading true)) w0) in
  let c := mkContinuation (enhance (setLoading true) 1 100) [] in
  let log' := _actionLog (getState (run_continuation 1 w)) in
  find_continuation 1 w = Some c
  /\ length (_actionLog (getState w)) = 20
  /\ log' = map old (seq 1 19)
            ++ [mkLogEntry (VStr "ui/setLoading") (SetLoading true)
                           (Some 100%N)]
  /\ length log' = 20.
Proof.
  intros old full w0 w c log'.
  split; [reflexivity|]. split; [reflexivity|].
  destruct (actionLog_is_bounded w 1 c eq_refl eq_refl eq_refl)
    as (Heq & _ & _ & _ & Hfull & _).
  split; [exact Heq|]. apply Hfull. simpl. lia.
Defined.

Lemma call_middlewares_throws (ms1 ms2 : list middleware) (m : middleware)
    (st : State) (a : action) (e : exn) :
  never_throws ms1 st a = true ->
  mw_call m st a = MwThrows e ->
  call_middlewares (ms1 ++ m :: ms2) st a
  = (Throws e, map (fun x => MiddlewareCalled (mw_ref x) a) (ms1 ++ [m])).
Proof.
  induction ms1 as [|x ms1 IH]; simpl; intros H Hm.
  - by rewrite Hm.
  - apply andb_true_iff in H as [Hx H]. rewrite (IH H Hm).
    by destruct (mw_call x st a).
Qed.

Lemma middlewares_called_map (l : list middleware) (a : action) :
  middlewares_called (map (fun x => MiddlewareCalled (mw_ref x) a) l)
  = map mw_ref l.
Proof.
  unfold middlewares_called. induction l as [|x l IH]; cbn in *; [done|].
  by f_equal.
Qed.

(** When a middleware throws, [dispatch] throws what it threw: the
    middlewares before it have been called, those after it have not; the
    sequence number is used up; and no continuation is left, so the
    action never reaches the reducer or the subscribers. *)
Theorem dispatch_middleware_throws (now : N) (a : action) (w : World)
    (ms1 ms2 : list middleware) (m : middleware) (e : exn) :
  let enhancedAction := enhance a (S (actionCounter (store w))) now in
  truthy (type a) = true ->
  middlewares (store w) = ms1 ++ m :: ms2 ->
  never_throws ms1 (getState w) enhancedAction = true ->
  mw_call m (getState w) enhancedAction = MwThrows e ->
  exists w',
    dispatch now (ArgObject a) w = (Throws e, w')
    /\ actionCounter (store w') = S (actionCounter (store w))
    /\ getState w' = getState w
    /\ continuations w' = continuations w
    /\ middlewares_called (calls_since w w') = map mw_ref (ms1 ++ [m]).
Proof.
  intros ea Ht Hms Hnt Hm. unfold dispatch. rewrite Ht. simpl.
  fold ea. rewrite Hms, (call_middlewares_throws _ _ _ _ _ _ Hnt Hm).
  eexists. split; [reflexivity|]. simpl.
  repeat split. unfold calls_since. simpl. rewrite drop_app_length.
  apply middlewares_called_map.
Qed.

Lemma dispatch_middleware_throws_witness :
  let failing := mkMiddleware 7 (fun _ _ => MwThrows (Error "boom")) in
  let w := applyMiddleware logger_middleware
             (applyMiddleware failing (app_store false false)) in
  exists w',
    dispatch 10 (ArgObject (setLoading true)) w = (Throws (Error "boom"), w')
    /\ actionCounter (store w') = 1
    /\ continuations w' = []
    /\ middlewares_called (calls_since w w') = [1; 7].
Proof.
  intros failing w.
  destruct (dispatch_middleware_throws 10 (setLoading true) w
              [persistence_middleware] [logger_middleware] failing
              (Error "boom") eq_refl eq_refl eq_refl eq_refl)
    as (w' & Hd & Hc & _ & Hk & Hm).
  exists w'. split; [exact Hd|]. split; [exact Hc|]. split; [exact Hk|].
  exact Hm.
Defined.

(** [reset()] stores the initial state and calls each subscriber once
    with it, but leaves the dispatches in flight where they are: when
    the continuation of one runs afterwards, its action is reduced on
    top of the initial state. *)
Theorem reset_keeps_dispatches_in_flight (d : bool) (w : World)
    (id : nat) (c : continuation) :
  NoDup (map sub_ref (subscribers (store w))) ->
  find_continuation id w = Some c -> all_fulfilled c = true ->
  let w' := reset d w in
  getState w' = initialState d
  /\ (forall s, s ∈ subscribers (store w) ->
        notified (sub_ref s) (calls_since w w') = [initialState d])
  /\ continuations w' = continuations w
  /\ getState (run_continuation id w')
     = next_state w' (k_action c)
  /\ (development w = false ->
      getState (run_continuation id w')
      = reducer (store w) (initialState d) (k_action c)).
Proof.
  intros Hnd Hf Hr w'. subst w'. unfold reset.
  split; [done|]. split.
  { intros s Hs. unfold calls_since, notifySubscribers. simpl.
    rewrite drop_app_length. apply notified_once; [done|].
    apply list_elem_of_fmap. eauto. }
  split; [done|].
  assert (Hf' : find_continuation id
            (notifySubscribers
               (with_store w (set_state (store w) (initialState d))))
          = Some c) by exact Hf.
  destruct (run_continuation_ready id _ c Hf' Hr) as (Hst & _).
  simpl in Hst. split; [exact Hst|].
  intros Hdev. rewrite Hst. unfold next_state. simpl. by rewrite Hdev.
Qed.

Lemma reset_keeps_dispatches_in_flight_witness :
  let w := snd (dispatch 10 (ArgObject (setLoading true))
                         (subscribe (quiet_subscriber 0)
                                    (store_world false true))) in
  let c := mkContinuation (enhance (setLoading true) 1 10) [] in
  NoDup (map sub_ref (subscribers (store w)))
  /\ find_continuation 1 w = Some c
  /\ getState (reset false w) = initialState false
  /\ loading (getState (run_continuation 1 (reset false w))) = true.
Proof.
  intros w c.
  assert (Hnd : NoDup (map sub_ref (subscribers (store w))))
    by apply NoDup_singleton.
  split; [exact Hnd|]. split; [reflexivity|].
  destruct (reset_keeps_dispatches_in_flight false w 1 c Hnd eq_refl eq_refl)
    as (H1 & _ & _ & _ & H5).
  split; [exact H1|]. rewrite (H5 eq_refl). reflexivity.
Defined.

End StoreExtras.

Section WorkerExtras.
Import Js ApiWorker WorkerRuns.

Variable RegExp : string -> option (string -> bool).
Variable JSON_stringify_length : cache_entry -> nat.

Lemma jsmap_set_keys {V : Type} (k : string) (v : V)
    (m : list (string * V)) :
  jsmap_keys (jsmap_set k v m)
  = if jsmap_has k m then jsmap_keys m else jsmap_keys m ++ [k].
Proof.
  unfold jsmap_set, jsmap_keys. destruct (jsmap_has k m).
  - rewrite map_map. apply map_ext_in. intros [k' v'] _. simpl.
    destruct (String.eqb k' k) eqn:E; [|done].
    apply String.eqb_eq in E. by subst.
  - by rewrite map_app.
Qed.

Lemma jsmap_set_NoDup {V : Type} (k : string) (v : V)
    (m : list (string * V)) :
  NoDup (jsmap_keys m) -> NoDup (jsmap_keys (jsmap_set k v m)).
Proof.
  intros H. rewrite jsmap_set_keys.
  destruct (jsmap_has k m) eqn:E; [done|].
  apply NoDup_app. split; [done|]. split; [|apply NoDup_singleton].
  intros x Hx Hx'. apply list_elem_of_singleton in Hx' as ->.
  apply jsmap_has_keys in Hx. congruence.
Qed.

Lemma keys_filter_NoDup {V : Type} (P : string * V -> Prop)
    {decP : forall e, Decision (P e)} (m : list (string * V)) :
  NoDup (jsmap_keys m) -> NoDup (jsmap_keys (filter P m)).
Proof.
  intros H. unfold jsmap_keys in *.
  apply (sublist_NoDup _ (map fst m)); [exact H|].
  apply (fmap_sublist fst), sublist_filter.
Qed.

Lemma purgeCache_NoDup (options : payload) (now : N)
    (cache : list (string * cache_entry)) :
  NoDup (jsmap_keys cache) ->
  NoDup (jsmap_keys (snd (purgeCache RegExp options now cache))).
Proof.
  intros H. unfold purgeCache.
  destruct (given (url options)); [by apply keys_filter_NoDup|].
  destruct (given (pattern options)).
  { destruct (RegExp _); [by apply keys_filter_NoDup|done]. }
  destruct (truthy (olderThan options) && is_number (olderThan options));
    [by apply keys_filter_NoDup|apply NoDup_nil_2].
Qed.

Lemma begin_NoDup (request : payload) (now : N) (w : Worker) :
  NoDup (jsmap_keys (apiCache w)) ->
  NoDup (jsmap_keys (apiCache (snd (processRequest_begin request now w)))).
Proof.
  intros H. unfold processRequest_begin.
  destruct (_ && _ && _); [|done].
  destruct (jsmap_get _ _) as [e|]; [|done].
  destruct (_ <? _)%Z; [done|]. simpl. by apply keys_filter_NoDup.
Qed.

Lemma resume_NoDup (p : in_flight) (o : fetch_outcome) (now : N)
    (w : Worker) :
  NoDup (jsmap_keys (apiCache w)) ->
  NoDup (jsmap_keys (apiCache (snd (processRequest_resume p o now w)))).
Proof.
  intros H. unfold processRequest_resume. destruct o as [msg|r t]; [done|].
  destruct (_ && _ && _); [|done]. simpl. by apply jsmap_set_NoDup.
Qed.

Lemma worker_step_NoDup (w : Worker) (e : worker_event) :
  NoDup (jsmap_keys (apiCache w)) ->
  NoDup (jsmap_keys
           (apiCache (worker_step RegExp JSON_stringify_length w e))).
Proof.
  intros H. destruct e as [m now|id p o now]; simpl.
  - unfold listener_begin. destruct (switch (msg_action m)); try done.
    + destruct (msg_payload m) as [r|]; [|done].
      pose proof (begin_NoDup r now w H) as H'.
      by destruct (processRequest_begin r now w) as [[res|p] w'].
    + pose proof (purgeCache_NoDup
                    (default empty_payload (msg_payload m)) now _ H) as H'.
      by destruct (purgeCache _ _ _ _) as [[keys|e] c'].
  - unfold listener_resume.
    pose proof (resume_NoDup p o now w H) as H'.
    by destruct (processRequest_resume p o now w) as [r w'].
Qed.

Lemma worker_run_NoDup (events : list worker_event) (w : Worker) :
  NoDup (jsmap_keys (apiCache w)) ->
  NoDup (jsmap_keys
           (apiCache (worker_run RegExp JSON_stringify_length events w))).
Proof.
  revert w. induction events as [|e events IH]; intros w H; [done|].
  apply IH. by apply worker_step_NoDup.
Qed.

(** On whatever cache the executor has built up, [purgeCache] works in
    one of four modes, tried in the order [url], [pattern], [olderThan],
    everything.  A [url] decides, whatever else is given: the entry of
    ["GET:<url>"] is deleted and every other entry left as it is.
    Without a [url], a [pattern] decides, whatever [olderThan] is: the
    entries whose key the expression matches are removed and their keys
    returned, and a pattern that is no expression throws and removes
    nothing.  Without both, a non-zero number [olderThan] decides: the
    entries stamped earlier than that many milliseconds ago are removed
    and their keys returned.  With no option that counts the cache is
    emptied and all its keys are returned.  In the pattern, age and full
    modes the keys returned are exactly the keys evicted. *)
Theorem purgeCache_on_any_cache
    (events : list worker_event) (options : payload) (now : N) :
  let cache :=
    apiCache (worker_run RegExp JSON_stringify_length events new_worker) in
  let key := "GET:" +:+ template (url options) in
  let r := purgeCache RegExp options now cache in
  let old (e : string * cache_entry) : bool :=
    (Z.of_N (timestamp (snd e))
     <? Z.of_N now - number_of (olderThan options))%Z in
  (given (url options) = true ->
   r = (Returns [key], jsmap_delete key cache)
   /\ jsmap_get key (snd r) = None
   /\ forall k, k <> key -> jsmap_get k (snd r) = jsmap_get k cache)
  /\ (given (url options) = false -> given (pattern options) = true ->
      match RegExp (template (pattern options)) with
      | Some test =>
          r = (Returns (filter (fun k => test k = true) (jsmap_keys cache)),
               filter (fun e => test (fst e) = false) cache)
      | None => exists e, r = (Throws e, cache)
      end)
  /\ (given (url options) = false -> given (pattern options) = false ->
      truthy (olderThan options) && is_number (olderThan options) = true ->
      r = (Returns (map fst (filter (fun e => old e = true) cache)),
           filter (fun e => old e = false) cache))
  /\ (given (url options) = false -> given (pattern options) = false ->
      truthy (olderThan options) && is_number (olderThan options) = false ->
      r = (Returns (jsmap_keys cache), []))
  /\ (given (url options) = false ->
      match r with
      | (Returns purged, cache') => purged = evicted cache cache'
      | (Throws _, cache') => cache' = cache
      end).
Proof.
  intros cache key r old.
  assert (Hnd : NoDup (jsmap_keys cache))
    by (apply worker_run_NoDup; apply NoDup_nil_2).
  destruct (purgeCache_modes RegExp options now cache Hnd)
    as (Hurl & Hev & Hall).
  split; [exact Hurl|]. split; [|split; [|split; [exact Hall|exact Hev]]].
  - intros Hu Hp. subst r. unfold purgeCache. rewrite Hu, Hp.
    destruct (RegExp (template (pattern options))); [done|by eexists].
  - intros Hu Hp Ho. subst r. unfold purgeCache. by rewrite Hu, Hp, Ho.
Qed.

(** A request that is not a GET, or that does not ask for the cache,
    always goes to the network and never reads or writes the cache,
    however the network call ends. *)
Theorem uncached_request_leaves_cache (request : payload) (now : N)
    (w : Worker) :
  String.eqb (default "GET" (method request)) "GET"
  && default false (useCache request) = false ->
  exists p call,
    processRequest_begin request now w
    = (Awaiting p,
       {| apiCache := apiCache w; fetches := fetches w ++ [call];
          posted := posted w |})
    /\ f_url call = url request
    /\ forall o now1 w1,
         apiCache (snd (processRequest_resume p o now1 w1)) = apiCache w1
         /\ fetches (snd (processRequest_resume p o now1 w1)) = fetches w1.
Proof.
  intros H. unfold processRequest_begin. rewrite H. simpl.
  do 2 eexists. split; [reflexivity|]. split; [reflexivity|].
  intros o now1 w1. unfold processRequest_resume. simpl.
  destruct o as [msg|r t]; [done|].
  destruct (ok r); simpl; [|done]. by rewrite H.
Qed.

(** A ["request"] message that carries a payload is answered exactly
    once, with the id of the message, and the listener never fails on
    it.  Either the answer is posted at once, and then it is the data of
    the entry cached for the url, marked [fromCache], with no network
    call made; or one network call is made for the url and nothing is
    posted until it ends, and then the answer is what the call gave: the
    response with its [ok], status, headers, data and time, or, when the
    call failed, the error with its message. *)
Theorem request_is_answered_once
    (m : message) (request : payload) (now : N) (w : Worker) :
  msg_action m = Some "request" ->
  msg_payload m = Some request ->
  match listener_begin RegExp JSON_stringify_length m now w with
  | (Answered, w') =>
      exists e,
        jsmap_get ("GET:" +:+ template (url request)) (apiCache w) = Some e
        /\ posted w'
           = posted w ++ [mkEnvelope (msg_id m) (FromCache (data e))]
        /\ fetches w' = fetches w
  | (WaitingForFetch id p, w') =>
      posted w' = posted w
      /\ (exists call, fetches w' = fetches w ++ [call]
                       /\ f_url call = url request)
      /\ forall o now1 w1,
           posted (listener_resume id p o now1 w1)
           = posted w1
             ++ [mkEnvelope (msg_id m)
                   match o with
                   | FetchFails message => NetworkError message
                   | FetchResponds r responseTime =>
                       Fetched (ok r) (status r) (statusText r)
                               (response_headers r) (response_data r)
                               responseTime
                   end]
  | (Failed _, _) => False
  end.
Proof.
  intros Ha Hp. unfold listener_begin. rewrite Ha, Hp. simpl.
  assert (Hres : forall p o now1 w1,
    posted (listener_resume (msg_id m) p o now1 w1)
    = posted w1
      ++ [mkEnvelope (msg_id m)
            match o with
            | FetchFails message => NetworkError message
            | FetchResponds r responseTime =>
                Fetched (ok r) (status r) (statusText r)
                        (response_headers r) (response_data r)
                        responseTime
            end]).
  { intros p o now1 w1. unfold listener_resume, processRequest_resume.
    destruct o as [msg|r t]; [done|].
    by destruct (_ && _ && _). }
  unfold processRequest_begin.
  destruct (String.eqb (default "GET" (method request)) "GET") eqn:Em;
    simpl.
  2:{ split; [done|]. split; [by eexists|]. apply Hres. }
  apply String.eqb_eq in Em. rewrite Em.
  change ("GET" +:+ ":" +:+ template (url request))
    with ("GET:" +:+ template (url request)).
  destruct (default false (useCache request)); simpl.
  2:{ split; [done|]. split; [by eexists|]. apply Hres. }
  destruct (jsmap_has _ _); simpl.
  2:{ split; [done|]. split; [by eexists|]. apply Hres. }
  destruct (jsmap_get _ _) as [e|] eqn:Eg.
  2:{ split; [done|]. split; [by eexists|]. apply Hres. }
  destruct (_ <? _)%Z; simpl.
  - by exists e.
  - split; [done|]. split; [by eexists|]. apply Hres.
Qed.

(** Two messages get no answer at all: a ["request"] without a payload,
    and a ["purgeCache"] whose pattern is no regular expression (and that
    names no url).  The listener throws before it posts; the cache, the
    network calls and the messages posted are as they were. *)
Theorem unanswered_messages (m : message) (now : N) (w : Worker) :
  (msg_action m = Some "request" /\ msg_payload m = None)
  \/ (msg_action m = Some "purgeCache"
      /\ exists options,
           msg_payload m = Some options
           /\ given (url options) = false
           /\ given (pattern options) = true
           /\ RegExp (template (pattern options)) = None) ->
  exists e,
    listener_begin RegExp JSON_stringify_length m now w = (Failed e, w).
Proof.
  unfold listener_begin.
  intros [[-> ->]|(-> & options & -> & Hu & Hp & Hr)]; simpl.
  - by eexists.
  - unfold purgeCache. rewrite Hu, Hp, Hr. destruct w. by eexists.
Qed.

(** After [purgeCache({url})] has been answered, the next cached GET of
    that url goes to the network, however recent the entry was. *)
Theorem purged_url_is_fetched_again
    (u id : string) (ttl : Z) (now now' : N) (w : Worker) :
  u <> "" ->
  let w1 :=
    snd (listener_begin RegExp JSON_stringify_length
           (mkMessage id (Some "purgeCache") (Some (url_options u))) now w) in
  posted w1 = posted w ++ [mkEnvelope id (Purged ["GET:" +:+ u])]
  /\ fetches w1 = fetches w
  /\ exists p call,
       processRequest_begin (get_request u ttl) now' w1
       = (Awaiting p, with_fetch w1 call)
       /\ f_url call = Some u /\ f_method call = "GET".
Proof.
  intros Hu w1. subst w1. unfold listener_begin, purgeCache. simpl.
  apply String.eqb_neq in Hu. rewrite Hu. simpl.
  split; [done|]. split; [done|].
  unfold processRequest_begin. simpl.
  change ("GET" +:+ ":" +:+ u) with ("GET:" +:+ u).
  assert (H : jsmap_has ("GET:" +:+ u)
                (jsmap_delete ("GET:" +:+ u) (apiCache w)) = false).
  { destruct (jsmap_has _ _) eqn:E; [|done].
    apply jsmap_has_get in E as [e He].
    by rewrite jsmap_get_delete_eq in He. }
  rewrite H. simpl. by do 2 eexists.
Qed.

(** A request with another method than GET does not invalidate anything:
    whatever its url and however it ends, an entry cached for a GET is
    still there afterwards, and a cached GET within the TTL is served the
    old data without a network call. *)
Theorem mutation_keeps_cached_get
    (request : payload) (o : fetch_outcome) (u : string) (ttl : Z)
    (e : cache_entry) (now0 now1 now2 : N) (w : Worker) :
  default "GET" (method request) <> "GET" ->
  jsmap_get ("GET:" +:+ u) (apiCache w) = Some e ->
  (Z.of_N now2 - Z.of_N (timestamp e) < ttl)%Z ->
  exists p w1,
    processRequest_begin request now0 w = (Awaiting p, w1)
    /\ let w2 := snd (processRequest_resume p o now1 w1) in
       processRequest_begin (get_request u ttl) now2 w2
       = (Done (FromCache (data e)), w2).
Proof.
  intros Hm He Ht. apply String.eqb_neq in Hm.
  unfold processRequest_begin at 1. rewrite Hm. simpl.
  do 2 eexists. split; [reflexivity|].
  unfold processRequest_resume. simpl. rewrite Hm.
  assert (Hw : forall w2, apiCache w2 = apiCache w ->
    processRequest_begin (get_request u ttl) now2 w2
    = (Done (FromCache (data e)), w2)).
  { intros w2 Hc. unfold processRequest_begin. simpl.
    change ("GET" +:+ ":" +:+ u) with ("GET:" +:+ u).
    rewrite Hc, He.
    assert (Hh : jsmap_has ("GET:" +:+ u) (apiCache w) = true).
    { apply jsmap_has_get. eauto. }
    rewrite Hh. simpl. apply Z.ltb_lt in Ht. by rewrite Ht. }
  destruct o as [msg|r t]; simpl.
  - by apply Hw.
  - rewrite andb_false_r. simpl. by apply Hw.
Qed.

End WorkerExtras.

Section WorkerExtraExamples.
Import Js ApiWorker WorkerRuns.

Lemma uncached_request_leaves_cache_witness :
  let request :=
    {| url := Some "/incidents"; method := Some "POST";
       body_ := Some (Text "x"); headers := ∅; useCache := Some true;
       cacheTTL := None; pattern := None; olderThan := VUndef |} in
  String.eqb (default "GET" (method request)) "GET"
  && default false (useCache request) = false
  /\ exists p call,
       processRequest_begin request 10 new_worker
       = (Awaiting p, mkWorker [] [call] [])
       /\ f_url call = Some "/incidents"
       /\ forall o now1 w1,
            apiCache (snd (processRequest_resume p o now1 w1)) = apiCache w1
            /\ fetches (snd (processRequest_resume p o now1 w1))
               = fetches w1.
Proof.
  intros request. split; [reflexivity|].
  exact (uncached_request_leaves_cache request 10 new_worker eq_refl).
Defined.

Lemma request_is_answered_once_witness :
  let w := mkWorker [("GET:/incidents", mkEntry 5 (Text "old"))] [] [] in
  let m :=
    mkMessage "msg_7_0" (Some "request")
      (Some (get_request "/incidents" 1000)) in
  let m' :=
    mkMessage "msg_2000_1" (Some "request")
      (Some (get_request "/incidents" 1000)) in
  msg_action m = Some "request"
  /\ msg_payload m = Some (get_request "/incidents" 1000)
  /\ listener_begin (fun _ => None) (fun _ => 0) m 10 w
     = (Answered, mkWorker (apiCache w) []
                    [mkEnvelope "msg_7_0" (FromCache (Text "old"))])
  /\ match listener_begin (fun _ => None) (fun _ => 0) m' 2000 w with
     | (WaitingForFetch id p, w') =>
         posted w' = []
         /\ posted (listener_resume id p (FetchFails "Failed to fetch")
                                    2010 w')
            = [mkEnvelope "msg_2000_1" (NetworkError "Failed to fetch")]
     | _ => False
     end.
Proof.
  intros w m m'. split; [reflexivity|]. split; [reflexivity|].
  split; [reflexivity|].
  pose proof (request_is_answered_once (fun _ => None) (fun _ => 0) m'
                (get_request "/incidents" 1000) 2000 w eq_refl eq_refl)
    as H.
  simpl in H. destruct H as (H1 & _ & H3). split; [exact H1|].
  exact (H3 (FetchFails "Failed to fetch") 2010%N _).
Defined.

Lemma unanswered_messages_witness :
  let m :=
    mkMessage "msg_7_1" (Some "purgeCache") (Some (pattern_options "(")) in
  let w := mkWorker [("GET:/incidents", mkEntry 5 (Text "x"))] [] [] in
  (exists options,
     msg_payload m = Some options
     /\ given (url options) = false /\ given (pattern options) = true)
  /\ exists e,
       listener_begin (fun _ => None) (fun _ => 0) m 10 w = (Failed e, w).
Proof.
  intros m w. split; [by eexists|].
  apply (unanswered_messages (fun _ => None) (fun _ => 0) m 10 w).
  right. split; [reflexivity|]. by eexists.
Defined.

Lemma purged_url_is_fetched_again_witness :
  let w := mkWorker [("GET:/incidents", mkEntry 5 (Text "x"))] [] [] in
  let w1 :=
    snd (listener_begin (fun _ => None) (fun _ => 0)
           (mkMessage "msg_7_2" (Some "purgeCache")
              (Some (url_options "/incidents"))) 6 w) in
  "/incidents" <> ""
  /\ posted w1 = [] ++ [mkEnvelope "msg_7_2" (Purged ["GET:/incidents"])]
  /\ fetches w1 = []
  /\ exists p call,
       processRequest_begin (get_request "/incidents" 300000) 7 w1
       = (Awaiting p, with_fetch w1 call)
       /\ f_url call = Some "/incidents" /\ f_method call = "GET".
Proof.
  intros w w1.
  assert (H : "/incidents" <> "") by discriminate.
  split; [exact H|].
  exact (purged_url_is_fetched_again (fun _ => None) (fun _ => 0)
           "/incidents" "msg_7_2" 300000 6 7 w H).
Defined.

Lemma mutation_keeps_cached_get_witness :
  let w := mkWorker [("GET:/incidents", mkEntry 5 (Text "old"))] [] [] in
  let request :=
    {| url := Some "/incidents"; method := Some "POST";
       body_ := Some (Text "new"); headers := ∅; useCache := Some false;
       cacheTTL := None; pattern := None; olderThan := VUndef |} in
  default "GET" (method request) <> "GET"
  /\ jsmap_get "GET:/incidents" (apiCache w)
     = Some (mkEntry 5 (Text "old"))
  /\ (Z.of_N 30 - Z.of_N 5 < 300000)%Z
  /\ exists p w1,
       processRequest_begin request 10 w = (Awaiting p, w1)
       /\ let w2 :=
            snd (processRequest_resume p
                   (FetchResponds (mkResponse true 201 "Created" []
                                     (Text "new")) 3) 20 w1) in
          processRequest_begin (get_request "/incidents" 300000) 30 w2
          = (Done (FromCache (Text "old")), w2).
Proof.
  intros w request.
  assert (H : default "GET" (method request) <> "GET") by discriminate.
  split; [exact H|]. split; [reflexivity|]. split; [reflexivity|].
  exact (mutation_keeps_cached_get request _ "/incidents" 300000
           (mkEntry 5 (Text "old")) 10 20 30 w H eq_refl eq_refl).
Defined.

End WorkerExtraExamples.

Section BridgeExtras.
Import Js WorkerBridge BridgeRuns.

Lemma next_ref_step (b : Bridge) (e : event) :
  next_ref b <= next_ref (step b e).
Proof.
  destruct e as [n path sp|n act pl now|w d|w|i|n|]; simpl.
  - unfold initWorker. destruct sp; simpl; lia.
  - unfold sendToWorker. destruct (workers b !! n); simpl; lia.
  - unfold on_message. destruct (listeners b !! w); [|done].
    destruct (is_init d); [done|].
    destruct (nonempty_id (in_id d)); [|done].
    by destruct (pendingCallbacks b !! s).
  - unfold on_error. by destruct (listeners b !! w).
  - unfold timer_fires. destruct (timers b !! i); [|done].
    by destruct (pendingCallbacks b !! t_messageId t).
  - unfold terminateWorker. by destruct (workers b !! n).
  - unfold terminateAllWorkers.
    destruct (terminate_many (map fst (map_to_list (workers b))) b)
      as (H1 & H2 & H3 & H4 & H5 & H6 & H7 & H8).
    simpl. lia.
Qed.

(** What one event settles is the promise it creates or a promise that
    was pending; what it registers is the promise it creates. *)
Lemma step_settles (b : Bridge) (e : event) :
  invariant b ->
  (settlements (step b e) = settlements b
   \/ exists q s, settlements (step b e) = settlements b ++ [(q, s)]
                  /\ (q = next_ref b
                      \/ exists id, pendingCallbacks b !! id = Some q))
  /\ forall id p, pendingCallbacks (step b e) !! id = Some p ->
                  pendingCallbacks b !! id = Some p \/ p = next_ref b.
Proof.
  intros Hinv. destruct e as [n path sp|n act pl now|w d|w|i|n|]; simpl.
  - unfold initWorker. destruct sp; simpl; eauto.
  - unfold sendToWorker. destruct (workers b !! n); simpl.
    + split; [by left|]. intros id p H.
      apply lookup_insert_Some in H as [[_ E]|[_ H]]; eauto.
    + split; [|eauto]. right. do 2 eexists. split; [done|]. by left.
  - unfold on_message. destruct (listeners b !! w); [|eauto].
    destruct (is_init d); [simpl; eauto|].
    destruct (nonempty_id (in_id d)) as [id|]; [|eauto].
    destruct (pendingCallbacks b !! id) as [p|] eqn:Hp; [|eauto].
    simpl. split.
    + right. do 2 eexists. split; [done|]. right. eauto.
    + intros id' p' H. apply lookup_delete_Some in H as [_ H]. by left.
  - unfold on_error. destruct (listeners b !! w); simpl; eauto.
  - unfold timer_fires. destruct (timers b !! i) as [t|] eqn:Ht; [|eauto].
    destruct (pendingCallbacks b !! t_messageId t) as [p|] eqn:Hp;
      [|simpl; eauto].
    simpl. split.
    + right. do 2 eexists. split; [done|]. right.
      exists (t_messageId t).
      by rewrite (proj2 (inv_timer b Hinv t
                           (list_elem_of_lookup_2 _ _ _ Ht)) p Hp) in Hp.
    + intros id' p' H. apply lookup_delete_Some in H as [_ H]. by left.
  - unfold terminateWorker. destruct (workers b !! n); simpl; [|eauto].
    split; [by left|].
    intros id p H. apply map_lookup_filter_Some in H as [H _]. by left.
  - unfold terminateAllWorkers.
    destruct (terminate_many (map fst (map_to_list (workers b))) b)
      as (H1 & H2 & H3 & H4 & H5 & H6 & H7 & H8).
    simpl. split; [by left|].
    intros id p H. by rewrite lookup_empty in H.
Qed.

Lemma abandoned_step (p : nat) (b : Bridge) (e : event) :
  invariant b -> abandoned p b -> abandoned p (step b e).
Proof.
  intros Hinv (Hlt & Hs & Hp).
  destruct (step_settles b e Hinv) as [Hset Hpend].
  split; [|split].
  - pose proof (next_ref_step b e). lia.
  - destruct Hset as [->|(q & s & -> & Hq)]; [done|].
    rewrite map_app. simpl. intros H.
    apply elem_of_app in H as [H|H]; [done|].
    apply list_elem_of_singleton in H as ->.
    destruct Hq as [->|[id Hq]]; [lia|]. by apply (Hp id).
  - intros id H. destruct (Hpend _ _ H) as [H' | ->]; [|lia].
    by apply (Hp id).
Qed.

Lemma abandoned_run (p : nat) (events : list event) (b : Bridge) :
  invariant b -> abandoned p b -> abandoned p (run events b).
Proof.
  revert b. induction events as [|e events IH]; intros b Hinv Ha; [done|].
  apply IH; [by apply invariant_step|by apply abandoned_step].
Qed.

Lemma workers_terminateWorker (name : string) (b : Bridge) :
  workers (terminateWorker name b) = delete name (workers b).
Proof.
  unfold terminateWorker.
  destruct (workers b !! name) eqn:E; [done|].
  symmetry. by apply delete_id.
Qed.

Lemma workers_terminate_many (names : list string) (b : Bridge)
    (k : string) :
  k ∈ names -> workers (foldr terminateWorker b names) !! k = None.
Proof.
  induction names as [|n names IH]; intros H; simpl.
  - by apply elem_of_nil in H.
  - rewrite workers_terminateWorker.
    destruct (decide (k = n)) as [->|Hne]; [apply lookup_delete_eq|].
    rewrite lookup_delete_ne by done.
    apply elem_of_cons in H as [H|H]; [done|]. by apply IH.
Qed.

Lemma workers_terminateAllWorkers (b : Bridge) :
  workers (terminateAllWorkers b) = ∅.
Proof.
  apply map_empty. intros k. unfold terminateAllWorkers. simpl.
  destruct (workers b !! k) as [w|] eqn:E.
  - apply workers_terminate_many.
    apply list_elem_of_fmap. exists (k, w). split; [done|].
    by apply elem_of_map_to_list.
  - destruct (terminate_many (map fst (map_to_list (workers b))) b)
      as (_ & H & _).
    simpl in H.
    destruct (workers (foldr terminateWorker b
                         (map fst (map_to_list (workers b)))) !! k)
      as [w|] eqn:E'; [|done].
    eapply lookup_weaken in E'; [|exact H]. congruence.
Qed.

(** [terminateAllWorkers] empties the registry and [pendingCallbacks]
    without settling anything, and a request that was pending is then
    left for good: whatever follows (a late response with its id, its
    timer, other requests), its promise is neither resolved nor
    rejected. *)
Theorem terminateAllWorkers_abandons_pending
    (events after : list event) (id : string) (p : nat) :
  let b := run events new_bridge in
  let b' := terminateAllWorkers b in
  pendingCallbacks b !! id = Some p ->
  workers b' = ∅
  /\ pendingCallbacks b' = ∅
  /\ settlements b' = settlements b
  /\ timers b' = timers b
  /\ settled p (run after b') = [].
Proof.
  intros b b' Hp.
  assert (Hinv : invariant b) by apply invariant_run, invariant_new.
  destruct (terminate_many (map fst (map_to_list (workers b))) b)
    as (H1 & H2 & H3 & H4 & H5 & H6 & H7 & H8).
  split; [apply workers_terminateAllWorkers|].
  split; [done|]. split; [done|]. split; [done|].
  apply settled_nil.
  assert (Ha : abandoned p b').
  { split; [|split].
    - subst b'. unfold terminateAllWorkers. simpl. rewrite H5.
      by eapply inv_pending_ref.
    - subst b'. unfold terminateAllWorkers. simpl. rewrite H6.
      by eapply inv_pending_unsettled.
    - intros id'. subst b'. unfold terminateAllWorkers. simpl.
      by rewrite lookup_empty. }
  apply (abandoned_run p after b') in Ha;
    [by destruct Ha as (_ & Ha & _)|].
  by apply invariant_terminateAllWorkers.
Qed.

Lemma elem_of_delete_other {A : Type} (l : list A) (i : nat) (x y : A) :
  l !! i = Some x -> y ∈ l -> y <> x -> y ∈ delete i l.
Proof.
  intros Hi Hy Hne. apply list_elem_of_lookup in Hy as [j Hj].
  destruct (decide (j < i)) as [Hlt|Hge].
  - apply (list_elem_of_lookup_2 _ j). by rewrite list_lookup_delete_lt.
  - assert (j <> i) by congruence.
    apply (list_elem_of_lookup_2 _ (pred j)).
    rewrite list_lookup_delete_ge by lia.
    by replace (S (pred j)) with j by lia.
Qed.

Lemma armed_step (b : Bridge) (e : event) :
  invariant b -> armed b -> armed (step b e).
Proof.
  intros Hinv Ha. destruct e as [n path sp|n act pl now|w d|w|i|n|]; simpl.
  - unfold initWorker. by destruct sp.
  - unfold sendToWorker. destruct (workers b !! n); simpl; [|done].
    intros id p H. simpl in *.
    apply lookup_insert_Some in H as [[<- <-]|[_ H]].
    + exists (mkTimer (message_id now (messageIdCounter b)) (next_ref b) n).
      split; [|done]. apply elem_of_app. right. by left.
    + destruct (Ha _ _ H) as (t & Ht & Hid & Hpr).
      exists t. split; [|done]. apply elem_of_app. by left.
  - unfold on_message. destruct (listeners b !! w); [|done].
    destruct (is_init d); [done|].
    destruct (nonempty_id (in_id d)) as [id|]; [|done].
    destruct (pendingCallbacks b !! id) as [p|] eqn:Hp; [|done].
    intros id' p' H. simpl in *.
    apply lookup_delete_Some in H as [_ H]. by apply Ha.
  - unfold on_error. by destruct (listeners b !! w).
  - unfold timer_fires. destruct (timers b !! i) as [t|] eqn:Ht; [|done].
    destruct (pendingCallbacks b !! t_messageId t) as [p|] eqn:Hp.
    + intros id' p' H. simpl in *.
      apply lookup_delete_Some in H as [Hne H].
      destruct (Ha _ _ H) as (t' & Ht' & Hid & Hpr).
      exists t'. split; [|done].
      apply (elem_of_delete_other _ _ t); [done|done|]. congruence.
    + intros id' p' H. simpl in *.
      destruct (Ha _ _ H) as (t' & Ht' & Hid & Hpr).
      exists t'. split; [|done].
      apply (elem_of_delete_other _ _ t); [done|done|]. congruence.
  - unfold terminateWorker. destruct (workers b !! n); simpl; [|done].
    intros id p H. simpl in *.
    apply map_lookup_filter_Some in H as [H _]. by apply Ha.
  - unfold terminateAllWorkers.
    destruct (terminate_many (map fst (map_to_list (workers b))) b)
      as (H1 & H2 & H3 & H4 & H5 & H6 & H7 & H8).
    intros id p H. simpl in *. by rewrite lookup_empty in H.
Qed.

Lemma armed_new : armed new_bridge.
Proof. intros id p H. cbn in H. by rewrite lookup_empty in H. Qed.

Lemma armed_run (events : list event) (b : Bridge) :
  invariant b -> armed b -> armed (run events b).
Proof.
  revert b. induction events as [|e events IH]; intros b Hinv Ha; [done|].
  apply IH; [by apply invariant_step|by apply armed_step].
Qed.

(** No request waits without a deadline: whatever has happened to the
    bridge, every pending entry has its timer still armed, and when that
    timer fires the promise of the entry is rejected with the timeout
    error that names the worker, and the entry is removed. *)
Theorem pending_request_times_out
    (events : list event) (id : string) (p : nat) :
  let b := run events new_bridge in
  pendingCallbacks b !! id = Some p ->
  exists i t,
    timers b !! i = Some t
    /\ t_messageId t = id /\ t_promise t = p
    /\ settled p (timer_fires i b) = [timeout_error (t_workerName t)]
    /\ pendingCallbacks (timer_fires i b) !! id = None.
Proof.
  intros b Hp.
  assert (Hinv : invariant b) by apply invariant_run, invariant_new.
  assert (Ha : armed b).
  { apply armed_run; [apply invariant_new|apply armed_new]. }
  destruct (Ha _ _ Hp) as (t & Ht & Hid & Hpr).
  apply list_elem_of_lookup in Ht as [i Hi].
  exists i, t. split; [done|]. split; [done|]. split; [done|].
  subst id.
  destruct (timeout_rejects b i t p Hinv Hi Hp) as (_ & Hnone & _ & Hs).
  by split.
Qed.

(** A request for a worker that is not in the registry (never
    initialised, or terminated) is rejected at once with an error that
    names the worker: no message is posted, no id is used, and neither an
    entry nor a timer is registered. *)
Theorem send_to_missing_worker_rejects
    (events : list event) (name action : string)
    (payload : option ApiWorker.payload) (now : N) :
  let b := run events new_bridge in
  let p := fst (sendToWorker name action payload now b) in
  let b' := snd (sendToWorker name action payload now b) in
  workers b !! name = None ->
  settled p b' = [not_initialised name]
  /\ outbox b' = outbox b
  /\ pendingCallbacks b' = pendingCallbacks b
  /\ timers b' = timers b
  /\ messageIdCounter b' = messageIdCounter b.
Proof.
  intros b p b' Hw. subst p b'. unfold sendToWorker. rewrite Hw. simpl.
  split; [|done].
  assert (Hinv : invariant b) by apply invariant_run, invariant_new.
  unfold settled. simpl. rewrite omap_app. simpl.
  rewrite decide_True by done.
  rewrite calls_on_nil; [done|].
  intros H. apply (inv_settled_ref _ Hinv) in H. lia.
Qed.

(** Terminating the [api] worker removes it from the registry and rejects
    nothing: every request that was pending keeps its entry and is still
    unsettled, and its timer is still armed; when that timer fires, the
    promise is rejected with the timeout error. *)
Theorem terminated_worker_requests_wait_for_timeout
    (events : list event) (id : string) (p : nat) :
  let b := terminateWorker "api" (run events new_bridge) in
  pendingCallbacks (run events new_bridge) !! id = Some p ->
  workers b !! "api" = None
  /\ settlements b = settlements (run events new_bridge)
  /\ pendingCallbacks b = pendingCallbacks (run events new_bridge)
  /\ pendingCallbacks b !! id = Some p
  /\ settled p b = []
  /\ exists i t,
       timers b !! i = Some t
       /\ t_messageId t = id
       /\ settled p (timer_fires i b) = [timeout_error (t_workerName t)]
       /\ pendingCallbacks (timer_fires i b) !! id = None.
Proof.
  intros b Hp.
  set (b0 := run events new_bridge) in *.
  assert (Hinv0 : invariant b0) by apply invariant_run, invariant_new.
  assert (Hinv : invariant b) by by apply invariant_terminateWorker.
  assert (Hpend : pendingCallbacks b = pendingCallbacks b0)
    by apply terminateWorker_api_keeps_every_entry.
  assert (Ha : armed b).
  { apply (armed_step b0 (Terminate "api")); [done|].
    apply armed_run; [apply invariant_new|apply armed_new]. }
  split; [subst b; rewrite workers_terminateWorker; apply lookup_delete_eq|].
  split.
  { subst b. unfold terminateWorker. by destruct (workers b0 !! "api"). }
  split; [exact Hpend|].
  rewrite Hpend. split; [done|].
  split.
  { apply settled_nil. eapply inv_pending_unsettled; [done|].
    by rewrite Hpend. }
  rewrite <- Hpend in Hp.
  destruct (Ha _ _ Hp) as (t & Ht & Hid & Hpr).
  apply list_elem_of_lookup in Ht as [i Hi].
  exists i, t. split; [done|]. split; [done|]. subst id.
  destruct (timeout_rejects b i t p Hinv Hi Hp) as (_ & Hnone & _ & Hs).
  by split.
Qed.

Lemma terminateAllWorkers_abandons_pending_witness :
  let events :=
    [InitWorker "api" "src/core/workers/api.worker.js" true;
     Send "api" "request" None 1000] in
  let after :=
    [Message 1 (response_with "msg_1000_0" (ApiWorker.Purged []));
     TimerFires 0] in
  let b := run events new_bridge in
  let b' := terminateAllWorkers b in
  pendingCallbacks b !! "msg_1000_0" = Some 2
  /\ workers b' = ∅
  /\ pendingCallbacks b' = ∅
  /\ settlements b' = settlements b
  /\ timers b' = timers b
  /\ settled 2 (run after b') = [].
Proof.
  intros events after b b'.
  assert (Hp : pendingCallbacks b !! "msg_1000_0" = Some 2)
    by (vm_compute; reflexivity).
  split; [exact Hp|].
  exact (terminateAllWorkers_abandons_pending events after "msg_1000_0" 2
           Hp).
Defined.

Lemma pending_request_times_out_witness :
  let events :=
    [InitWorker "api" "src/core/workers/api.worker.js" true;
     Send "api" "request" None 1000;
     Send "api" "getCacheStats" None 1001;
     TimerFires 0] in
  let b := run events new_bridge in
  pendingCallbacks b !! "msg_1001_1" = Some 3
  /\ exists i t,
       timers b !! i = Some t
       /\ t_messageId t = "msg_1001_1" /\ t_promise t = 3
       /\ settled 3 (timer_fires i b) = [timeout_error (t_workerName t)]
       /\ pendingCallbacks (timer_fires i b) !! "msg_1001_1" = None.
Proof.
  intros events b.
  assert (Hp : pendingCallbacks b !! "msg_1001_1" = Some 3)
    by (vm_compute; reflexivity).
  split; [exact Hp|].
  exact (pending_request_times_out events "msg_1001_1" 3 Hp).
Defined.

Lemma send_to_missing_worker_rejects_witness :
  let events :=
    [InitWorker "api" "src/core/workers/api.worker.js" true;
     Terminate "api"] in
  let b := run events new_bridge in
  let p := fst (sendToWorker "api" "request" None 1000 b) in
  let b' := snd (sendToWorker "api" "request" None 1000 b) in
  workers b !! "api" = None
  /\ settled p b' = [not_initialised "api"]
  /\ outbox b' = outbox b
  /\ pendingCallbacks b' = pendingCallbacks b
  /\ timers b' = timers b
  /\ messageIdCounter b' = messageIdCounter b.
Proof.
  intros events b p b'.
  assert (Hw : workers b !! "api" = None) by (vm_compute; reflexivity).
  split; [exact Hw|].
  exact (send_to_missing_worker_rejects events "api" "request" None 1000 Hw).
Defined.

Lemma terminated_worker_requests_wait_for_timeout_witness :
  let events :=
    [InitWorker "api" "src/core/workers/api.worker.js" true;
     Send "api" "request" None 1000] in
  let b := terminateWorker "api" (run events new_bridge) in
  pendingCallbacks (run events new_bridge) !! "msg_1000_0" = Some 2
  /\ workers b !! "api" = None
  /\ settlements b = settlements (run events new_bridge)
  /\ pendingCallbacks b = pendingCallbacks (run events new_bridge)
  /\ pendingCallbacks b !! "msg_1000_0" = Some 2
  /\ settled 2 b = []
  /\ exists i t,
       timers b !! i = Some t
       /\ t_messageId t = "msg_1000_0"
       /\ settled 2 (timer_fires i b) = [timeout_error (t_workerName t)]
       /\ pendingCallbacks (timer_fires i b) !! "msg_1000_0" = None.
Proof.
  intros events b.
  assert (Hp : pendingCallbacks (run events new_bridge) !! "msg_1000_0"
               = Some 2) by (vm_compute; reflexivity).
  split; [exact Hp|].
  exact (terminated_worker_requests_wait_for_timeout events "msg_1000_0" 2
           Hp).
Defined.

End BridgeExtras.

Section ServiceExtras.
Import Js Actions Reducers ApiService ServiceRuns.

Variable URLSearchParams_toString : list (string * string) -> string.

Lemma pendingRequests_store_dispatch (now : N) (act : action) (a : App) :
  pendingRequests (store_dispatch now act a) = pendingRequests a
  /\ bridge (store_dispatch now act a) = bridge a.
Proof. done. Qed.

Lemma request_catch_throws (message : value) (now : N) (a : App) :
  fst (request_catch message now a)
  = Throws (ThrownObject
              {[ "message" := or_else message (VStr "Error de conexión");
                 "status" := VStr "NETWORK_ERROR" ]})
  /\ pendingRequests (snd (request_catch message now a)) = pendingRequests a
  /\ bridge (snd (request_catch message now a)) = bridge a.
Proof. done. Qed.

Lemma thrown_network_error (message : value) :
  let o : obj := {[ "message" := or_else message (VStr "Error de conexión");
                    "status" := VStr "NETWORK_ERROR" ]} in
  get o "status" = VStr "NETWORK_ERROR" /\ truthy (get o "message") = true.
Proof.
  intros o. subst o. unfold get. split.
  - rewrite lookup_insert_ne by done. by rewrite lookup_singleton_eq.
  - rewrite lookup_insert_eq. simpl. unfold or_else.
    by destruct (truthy message) eqn:E.
Qed.

(** The leading slash of an endpoint is optional: [apiUrl] adds it when
    it is missing and does not double it when it is there. *)
Theorem apiUrl_leading_slash (path : string) :
  startsWith path "/" = false ->
  apiUrl path = API_BASE_URL +:+ "/" +:+ path
  /\ apiUrl ("/" +:+ path) = apiUrl path.
Proof.
  intros H. unfold apiUrl. rewrite H. split; [done|].
  unfold startsWith. simpl. by destruct path.
Qed.

(** How [request] ends once the promise of the bridge is settled, on an
    application whose middlewares do not throw (a [dispatch] that throws
    inside [request] would be what it throws instead). It returns the data exactly when the executor's response has [success];
    in every other case (a response that is not a success, whatever its
    HTTP status, a response without result, a rejection by timeout or for
    a missing worker) it throws a plain object whose [status] is
    ["NETWORK_ERROR"] and whose [message] is not empty. *)
Theorem request_failure_is_network_error
    (s : suspended) (outcome : WorkerBridge.settlement) (now : N)
    (a : App) :
  quiet a ->
  match fst (request_resume s outcome now a) with
  | Returns d =>
      exists r, outcome = WorkerBridge.Resolved (Some r)
                /\ response_success r = true /\ d = response_data r
  | Throws e =>
      (forall r, outcome = WorkerBridge.Resolved (Some r) ->
                 response_success r = false)
      /\ exists o, e = ThrownObject o
                   /\ get o "status" = VStr "NETWORK_ERROR"
                   /\ truthy (get o "message") = true
  end.
Proof.
  intros _. unfold request_resume.
  destruct outcome as [[r|]|e].
  - destruct (response_success r) eqn:Hs; simpl.
    + by exists r.
    + split; [intros r' E; by inversion E; subst|].
      eexists. split; [reflexivity|]. apply thrown_network_error.
  - simpl. split; [intros r E; by inversion E|].
    eexists. split; [reflexivity|]. apply thrown_network_error.
  - simpl. split; [intros r E; by inversion E|].
    eexists. split; [reflexivity|]. apply thrown_network_error.
Qed.

(** The set of requests in flight, on an application whose middlewares
    do not throw: [request] adds its identifier before
    it waits; when the bridge resolves the promise, with whatever result,
    the identifier is removed and nothing else; when the bridge rejects
    it, the set is left as it is, identifier included. *)
Theorem pendingRequests_bookkeeping
    (method endpoint : string) (o : options) (now : N) (a : App) :
  quiet a ->
  let s := fst (request_begin URLSearchParams_toString method endpoint o
                              now a) in
  let a1 := snd (request_begin URLSearchParams_toString method endpoint o
                               now a) in
  requestId s
  = method +:+ ":" +:+ request_url URLSearchParams_toString endpoint o
    +:+ ":" +:+ pretty now
  /\ pendingRequests a1 = {[ requestId s ]} ∪ pendingRequests a
  /\ forall outcome now' a2,
       pendingRequests (snd (request_resume s outcome now' a2))
       = match outcome with
         | WorkerBridge.Resolved _ => pendingRequests a2 ∖ {[ requestId s ]}
         | WorkerBridge.RejectedWith _ => pendingRequests a2
         end.
Proof.
  intros _ s a1. subst s a1. unfold request_begin.
  destruct (default true (showLoader o));
    destruct (WorkerBridge.sendToWorker _ _ _ _ _) as [p b] eqn:E; simpl.
  - split; [done|]. split; [done|].
    intros outcome now' a2. unfold request_resume. simpl.
    destruct outcome as [[r|]|e]; simpl; [| |done].
    + destruct (bool_decide _); destruct (response_success r); done.
    + by destruct (bool_decide _).
  - split; [done|]. split; [done|].
    intros outcome now' a2. unfold request_resume. simpl.
    destruct outcome as [[r|]|e]; simpl; [| |done].
    + destruct (response_success r); done.
    + done.
Qed.

(** What the facade sends to the executor, when the [api] worker is
    initialised and no middleware throws: one ["request"] message for the
    url it built, which asks for the cache only for a GET that did not
    switch it off.  A POST, PUT or DELETE, and a GET with
    [useCache: false], always goes to the network and leaves the
    executor's cache as it is, however the network call ends. *)
Theorem facade_cache_use
    (method endpoint : string) (o : options) (now : N) (a : App)
    (worker : nat) :
  quiet a ->
  WorkerBridge.workers (bridge a) !! "api" = Some worker ->
  let a1 := snd (request_begin URLSearchParams_toString method endpoint o
                               now a) in
  exists id payload,
    WorkerBridge.outbox (bridge a1)
    = WorkerBridge.outbox (bridge a)
      ++ [(worker, ApiWorker.mkMessage id (Some "request") (Some payload))]
    /\ ApiWorker.url payload
       = Some (request_url URLSearchParams_toString endpoint o)
    /\ ApiWorker.method payload = Some method
    /\ ApiWorker.useCache payload = Some (asks_for_cache method o)
    /\ (asks_for_cache method o = false ->
        forall now1 w,
        exists p call,
          ApiWorker.processRequest_begin payload now1 w
          = (ApiWorker.Awaiting p, ApiWorker.with_fetch w call)
          /\ forall out now2 w1,
               ApiWorker.apiCache
                 (snd (ApiWorker.processRequest_resume p out now2 w1))
               = ApiWorker.apiCache w1).
Proof.
  intros _ Hw a1. subst a1. unfold request_begin.
  assert (Hb : forall a',
    bridge a' = bridge a ->
    WorkerBridge.workers (bridge a') !! "api" = Some worker)
    by (by intros a' ->).
  set (a2 := if default true (showLoader o) then _ else _).
  assert (Ha2 : bridge a2 = bridge a) by (subst a2; by destruct (default _ _)).
  unfold WorkerBridge.sendToWorker. rewrite (Hb a2 Ha2). simpl.
  rewrite Ha2. do 2 eexists. split; [reflexivity|].
  simpl. split; [done|]. split; [done|]. split; [done|].
  unfold asks_for_cache. intros Hc now1 w.
  unfold ApiWorker.processRequest_begin. simpl. rewrite Hc.
  rewrite andb_false_r. simpl. do 2 eexists. split; [reflexivity|].
  intros out now2 w1. unfold ApiWorker.processRequest_resume. simpl.
  destruct out as [msg|r t]; [done|].
  by rewrite andb_false_r.
Qed.

End ServiceExtras.

Section ServiceExtraExamples.
Import Js Actions Reducers ApiService ServiceRuns.

Lemma quiet_started : quiet started.
Proof. intros st act. reflexivity. Qed.

Lemma apiUrl_leading_slash_witness :
  startsWith "incidents" "/" = false
  /\ apiUrl "incidents" = API_BASE_URL +:+ "/" +:+ "incidents"
  /\ apiUrl ("/" +:+ "incidents") = apiUrl "incidents".
Proof.
  split; [reflexivity|]. exact (apiUrl_leading_slash "incidents" eq_refl).
Defined.

Lemma request_failure_is_network_error_witness :
  let s := mkSuspended "GET:http://localhost:3000/incidents:1000" true 2 in
  let outcome :=
    WorkerBridge.Resolved
      (Some (ApiWorker.Fetched false 404 "Not Found" []
               (ApiWorker.Text "") 12)) in
  quiet started
  /\ match fst (request_resume s outcome 1012 started) with
     | Returns d =>
         exists r, outcome = WorkerBridge.Resolved (Some r)
                   /\ response_success r = true /\ d = response_data r
     | Throws e =>
         (forall r, outcome = WorkerBridge.Resolved (Some r) ->
                    response_success r = false)
         /\ exists o, e = ThrownObject o
                      /\ get o "status" = VStr "NETWORK_ERROR"
                      /\ truthy (get o "message") = true
     end.
Proof.
  intros s outcome. split; [exact quiet_started|].
  exact (request_failure_is_network_error s outcome 1012 started
           quiet_started).
Defined.

Lemma pendingRequests_bookkeeping_witness :
  let encode := fun _ : list (string * string) => "" in
  let s := fst (request_begin encode "GET" "incidents" no_options 1000
                              started) in
  let a1 := snd (request_begin encode "GET" "incidents" no_options 1000
                               started) in
  quiet started
  /\ requestId s
     = "GET" +:+ ":" +:+ request_url encode "incidents" no_options
       +:+ ":" +:+ pretty 1000%N
  /\ pendingRequests a1 = {[ requestId s ]} ∪ pendingRequests started
  /\ forall outcome now' a2,
       pendingRequests (snd (request_resume s outcome now' a2))
       = match outcome with
         | WorkerBridge.Resolved _ => pendingRequests a2 ∖ {[ requestId s ]}
         | WorkerBridge.RejectedWith _ => pendingRequests a2
         end.
Proof.
  intros encode s a1. split; [exact quiet_started|].
  exact (pendingRequests_bookkeeping encode "GET" "incidents" no_options
           1000 started quiet_started).
Defined.

Lemma facade_cache_use_witness :
  let encode := fun _ : list (string * string) => "" in
  let o := mkOptions (Some (ApiWorker.Text "x")) None None None in
  let a1 := snd (request_begin encode "POST" "incidents" o 1000 started) in
  quiet started
  /\ WorkerBridge.workers (bridge started) !! "api" = Some 1
  /\ exists id payload,
       WorkerBridge.outbox (bridge a1)
       = WorkerBridge.outbox (bridge started)
         ++ [(1, ApiWorker.mkMessage id (Some "request") (Some payload))]
       /\ ApiWorker.url payload = Some (request_url encode "incidents" o)
       /\ ApiWorker.method payload = Some "POST"
       /\ ApiWorker.useCache payload = Some (asks_for_cache "POST" o)
       /\ (asks_for_cache "POST" o = false ->
           forall now1 w,
           exists p call,
             ApiWorker.processRequest_begin payload now1 w
             = (ApiWorker.Awaiting p, ApiWorker.with_fetch w call)
             /\ forall out now2 w1,
                  ApiWorker.apiCache
                    (snd (ApiWorker.processRequest_resume p out now2 w1))
                  = ApiWorker.apiCache w1).
Proof.
  intros encode o a1.
  assert (Hw : WorkerBridge.workers (bridge started) !! "api" = Some 1)
    by (vm_compute; reflexivity).
  split; [exact quiet_started|]. split; [exact Hw|].
  exact (facade_cache_use encode "POST" "incidents" o 1000 started 1
           quiet_started Hw).
Defined.

End ServiceExtraExamples.

Section PersistenceExtras.
Import Js Actions Reducers Store StoreRuns Persistence.

Lemma find_map_same {A : Type} (P : A -> bool) (f : A -> A) (l : list A) :
  (forall x, P (f x) = P x) -> find P (map f l) = f <$> find P l.
Proof.
  intros H. induction l as [|x l IH]; [done|]. simpl.
  rewrite H. by destruct (P x).
Qed.

Lemma find_filter_same {A : Type} (P Q : A -> bool) (l : list A) :
  (forall x, P x = true -> Q x = false) ->
  find P (filter (fun x => Q x = false) l) = find P l.
Proof.
  intros H. induction l as [|x l IH]; [done|].
  destruct (Q x) eqn:Eq.
  - rewrite filter_cons_False by congruence. simpl.
    destruct (P x) eqn:Ep; [|done]. apply H in Ep. congruence.
  - rewrite filter_cons_True by done. simpl. by rewrite IH.
Qed.

Lemma find_app_first {A : Type} (P : A -> bool) (l l' : list A) (x : A) :
  find P l = Some x -> find P (l ++ l') = Some x.
Proof.
  induction l as [|y l IH]; [done|]. simpl. by destruct (P y).
Qed.

Lemma has_id_neq (id id' : nat) (c : continuation) :
  id <> id' -> has_id id c = true -> has_id id' c = false.
Proof.
  unfold has_id. destruct (_id (k_action c)) as [n|]; [|done].
  intros Hne H. apply Nat.eqb_eq in H as ->. by apply Nat.eqb_neq.
Qed.

Lemma not_all_fulfilled (ps : list promise_state) (i : nat)
    (p : promise_state) :
  ps !! i = Some p -> is_fulfilled p = false ->
  forallb is_fulfilled ps = false.
Proof.
  revert i. induction ps as [|q ps IH]; intros [|i] H Hp; try done.
  - simpl in H. inversion H; subst. simpl. by rewrite Hp.
  - simpl in *. rewrite (IH i H Hp). apply andb_false_r.
Qed.

Lemma spares_notify (id : nat) (st : State) (subs : list subscriber) :
  forallb (spares id) (flat_map (notify_one st) subs) = true
  /\ forallb (fun c => negb (is_reducer_call c))
             (flat_map (notify_one st) subs) = true.
Proof.
  induction subs as [|s subs [IH1 IH2]]; [done|].
  cbn [flat_map]. rewrite !forallb_app, IH1, IH2.
  unfold notify_one. by destruct (sub_throws s st).
Qed.

(** What the middlewares are given: only calls of middlewares are
    recorded, and when all return, the promises are theirs, in order. *)
Lemma call_middlewares_shape (ms : list middleware) (st : State)
    (a : action) :
  forallb (fun c => negb (is_reducer_call c))
          (snd (call_middlewares ms st a)) = true
  /\ forall ps, fst (call_middlewares ms st a) = Returns ps ->
                ps = map (promise_of st a) ms.
Proof.
  induction ms as [|m ms [IH1 IH2]]; simpl.
  - split; [done|]. intros ps H. by inversion H.
  - unfold promise_of at 1.
    destruct (mw_call m st a) eqn:Em; simpl.
    + split; [done|]. intros ps H. discriminate.
    + destruct (call_middlewares ms st a) as [[ps'|e] cs]; simpl in *.
      * split; [done|]. intros ps H. inversion H. f_equal. by apply IH2.
      * split; [done|]. intros ps H. discriminate.
    + destruct (call_middlewares ms st a) as [[ps'|e] cs]; simpl in *.
      * split; [done|]. intros ps H. inversion H. f_equal. by apply IH2.
      * split; [done|]. intros ps H. discriminate.
Qed.

Lemma spares_of_other (id : nat) (cs : list call) :
  forallb (fun c => negb (is_reducer_call c)) cs = true ->
  forallb (spares id) cs = true.
Proof.
  induction cs as [|c cs IH]; [done|]. simpl.
  intros H. apply andb_true_iff in H as [Hc Hcs].
  rewrite (IH Hcs). destruct c; simpl in *; done.
Qed.

Lemma rejected_step (id : nat) (w : World) (e : store_event) :
  rejected_dispatch id w ->
  rejected_dispatch id (store_step w e)
  /\ exists new, calls (store_step w e) = calls w ++ new
                 /\ forallb (spares id) new = true.
Proof.
  intros (c & Hc & Hr).
  destruct e as [s|s|m|now arg|id' k ok|id'|d]; simpl.
  - unfold subscribe. destruct (is_subscribed _ _);
      (split; [by exists c|exists []; simpl; by rewrite app_nil_r]).
  - split; [|exists []; by rewrite app_nil_r]. by exists c.
  - split; [|exists []; by rewrite app_nil_r]. by exists c.
  - unfold dispatch. destruct arg as [v|a].
    { destruct (typeof_is_object v);
        (split; [by exists c|exists []; by rewrite app_nil_r]). }
    destruct (negb (truthy (type a)));
      [split; [by exists c|exists []; by rewrite app_nil_r]|].
    destruct (call_middlewares_shape (middlewares (store w)) (getState w)
                (enhance a (S (actionCounter (store w))) now)) as [Hcs _].
    destruct (call_middlewares _ _ _) as [[ps|e] cs]; simpl in *.
    + split.
      * exists c. split; [|done]. unfold find_continuation. simpl.
        by apply find_app_first.
      * exists cs. split; [done|]. by apply spares_of_other.
    + split; [by exists c|].
      exists cs. split; [done|]. by apply spares_of_other.
  - split; [|exists []; by rewrite app_nil_r].
    unfold rejected_dispatch, find_continuation, settle. simpl.
    rewrite find_map_same.
    2:{ intros x. by destruct (has_id id' x). }
    unfold find_continuation in Hc. rewrite Hc. simpl.
    eexists. split; [reflexivity|].
    destruct (has_id id' c); [|done]. simpl.
    apply list_elem_of_lookup in Hr as [i Hi].
    destruct (decide (i = k)) as [->|Hne].
    + apply (list_elem_of_lookup_2 _ k).
      by rewrite list_lookup_alter_eq, Hi.
    + apply (list_elem_of_lookup_2 _ i).
      by rewrite list_lookup_alter_ne by done.
  - unfold run_continuation.
    destruct (find_continuation id' w) as [c'|] eqn:Hc';
      [|split; [by exists c|exists []; by rewrite app_nil_r]].
    destruct (all_fulfilled c') eqn:Hf;
      [|split; [by exists c|exists []; by rewrite app_nil_r]].
    assert (Hne : id' <> id).
    { intros ->. rewrite Hc in Hc'. inversion Hc'; subst c'.
      apply list_elem_of_lookup in Hr as [i Hi].
      unfold all_fulfilled in Hf.
      by rewrite (not_all_fulfilled _ i Rejected Hi) in Hf. }
    assert (Hid' : has_id id' c' = true).
    { unfold find_continuation in Hc'. by apply find_some in Hc' as [_ H]. }
    split.
    + exists c. split; [|done]. unfold find_continuation. simpl.
      rewrite find_filter_same; [done|].
      intros x Hx. apply (has_id_neq id id'); [done|done].
    + unfold notifySubscribers. simpl. rewrite <- app_assoc.
      eexists. split; [reflexivity|]. simpl.
      rewrite (proj1 (spares_notify id _ _)), andb_true_r.
      unfold has_id in Hid'. destruct (_id (k_action c')) as [n|]; [|done].
      apply Nat.eqb_eq in Hid' as ->. apply negb_true_iff.
      by apply Nat.eqb_neq.
  - split; [by exists c|].
    unfold reset, notifySubscribers. simpl.
    eexists. split; [reflexivity|]. apply spares_notify.
Qed.

Lemma rejected_run (id : nat) (events : list store_event) (w : World) :
  rejected_dispatch id w ->
  rejected_dispatch id (store_run events w)
  /\ exists new, calls (store_run events w) = calls w ++ new
                 /\ forallb (spares id) new = true.
Proof.
  revert w. induction events as [|e events IH]; intros w H.
  - split; [done|]. exists []. by rewrite app_nil_r.
  - destruct (rejected_step id w e H) as (H1 & new1 & E1 & F1).
    destruct (IH _ H1) as (H2 & new2 & E2 & F2).
    split; [exact H2|]. exists (new1 ++ new2). simpl.
    change (fold_left store_step events (store_step w e))
      with (store_run events (store_step w e)).
    rewrite E2, E1, <- app_assoc. split; [done|].
    by rewrite forallb_app, F1, F2.
Qed.

(** A dispatch one of whose middleware promises has been rejected is
    never applied.  Whatever happens to the store afterwards, its
    continuation stays where it is with the promise rejected, and the
    reducer is never called with its action: the state never shows it and
    no subscriber hears of it. *)
Theorem rejected_dispatch_is_never_applied
    (events : list store_event) (id : nat) (w : World) :
  rejected_dispatch id w ->
  let w' := store_run events w in
  rejected_dispatch id w'
  /\ run_continuation id w' = w'
  /\ forallb (spares id) (calls_since w w') = true.
Proof.
  intros H. cbv zeta.
  destruct (rejected_run id events w H) as (H1 & new & E & F).
  split; [exact H1|]. split.
  - destruct H1 as (c & Hc & Hr). unfold run_continuation. rewrite Hc.
    apply list_elem_of_lookup in Hr as [i Hi].
    unfold all_fulfilled.
    by rewrite (not_all_fulfilled _ i Rejected Hi).
  - unfold calls_since. rewrite E. by rewrite drop_app_length.
Qed.

Lemma rejected_dispatch_is_never_applied_witness :
  let w :=
    settle 1 0 false
      (snd (dispatch 1000 (ArgObject (setLoading true))
                     (subscribe (quiet_subscriber 0)
                                (app_store false false)))) in
  let events :=
    [RunContinuation 1; Settle 1 0 true;
     Dispatch 1001 (ArgObject (setDarkMode true)); Settle 2 0 true;
     RunContinuation 2; RunContinuation 1] in
  let w' := store_run events w in
  rejected_dispatch 1 w
  /\ rejected_dispatch 1 w'
  /\ run_continuation 1 w' = w'
  /\ forallb (spares 1) (calls_since w w') = true.
Proof.
  intros w events w'.
  assert (H : rejected_dispatch 1 w).
  { eexists. split; [reflexivity|]. simpl. apply list_elem_of_singleton.
    reflexivity. }
  split; [exact H|].
  exact (rejected_dispatch_is_never_applied events 1 w H).
Defined.

(** [actions] has no member [SET_DARK_MODE], so the callback of the
    persistence middleware throws whatever the state and the action. *)
Lemma persistence_callback_throws (st : State) (a : action) :
  fulfils (persistence_callback st a) = false.
Proof. reflexivity. Qed.

Lemma stuck_app_store (dev dark : bool) : stuck dev (app_store dev dark).
Proof.
  unfold stuck. split; [|split; [|split]].
  - exists persistence_middleware. by destruct dev.
  - by destruct dev.
  - by destruct dev.
  - exists dark. by destruct dev.
Qed.

Lemma stuck_step (dev : bool) (w : World) (e : store_event) :
  as_coded dev w e = true -> stuck dev w -> stuck dev (store_step w e).
Proof.
  intros He ((m & Hm & Hp) & Hk & Hc & (d & Hd)).
  destruct e as [s|s|m'|now arg|id k ok|id|d']; simpl.
  - unfold subscribe. destruct (is_subscribed _ _); [by repeat split; eauto|].
    repeat split; eauto.
  - repeat split; eauto.
  - split; [|repeat split; eauto].
    exists m. split; [|done]. simpl. by apply lookup_app_l_Some.
  - unfold dispatch. destruct arg as [v|a].
    { destruct (typeof_is_object v); repeat split; eauto. }
    destruct (negb (truthy (type a))); [repeat split; eauto|].
    destruct (call_middlewares_shape (middlewares (store w)) (getState w)
                (enhance a (S (actionCounter (store w))) now)) as [Hcs Hps].
    destruct (call_middlewares _ _ _) as [[ps|e] cs]; simpl in *.
    + unfold stuck. simpl. split; [eauto|]. split; [|split; [|eauto]].
      * apply Forall_app. split; [done|]. apply Forall_singleton. simpl.
        rewrite (Hps ps eq_refl), list_lookup_fmap, Hm. simpl.
        eexists. split; [reflexivity|]. unfold promise_of. by rewrite Hp.
      * by rewrite forallb_app, Hc, Hcs.
    + unfold stuck. simpl. split; [eauto|]. split; [done|]. split; [|eauto].
      by rewrite forallb_app, Hc, Hcs.
  - unfold stuck, settle. simpl. split; [eauto|]. split; [|split; eauto].
    apply Forall_fmap.
    apply Forall_forall. intros c Hin.
    pose proof (proj1 (Forall_forall _ _) Hk c Hin) as (p & Hlk & Hf).
    simpl. destruct (has_id id c) eqn:Hid; [|eauto]. simpl.
    destruct (decide (k = persistence_index dev)) as [->|Hne].
    + rewrite list_lookup_alter_eq, Hlk. simpl.
      eexists. split; [reflexivity|].
      unfold as_coded in He. rewrite Nat.eqb_refl in He.
      destruct (find_continuation id w) as [c0|] eqn:Hfind.
      * rewrite persistence_callback_throws in He.
        destruct ok; [discriminate|]. by destruct p.
      * unfold find_continuation in Hfind.
        rewrite (find_none _ _ Hfind c) in Hid; [done|].
        by apply list_elem_of_In.
    + rewrite list_lookup_alter_ne by done. eauto.
  - unfold run_continuation.
    destruct (find_continuation id w) as [c|] eqn:Hfind;
      [|repeat split; eauto].
    unfold find_continuation in Hfind.
    apply find_some in Hfind as [Hin _].
    apply list_elem_of_In in Hin.
    pose proof (proj1 (Forall_forall _ _) Hk c Hin) as (p & Hlk & Hf).
    unfold all_fulfilled. rewrite (not_all_fulfilled _ _ p Hlk Hf).
    repeat split; eauto.
  - unfold stuck, reset, notifySubscribers. simpl.
    split; [eauto|]. split; [done|]. split; [|eauto].
    by rewrite forallb_app, Hc, (proj2 (spares_notify 0 _ _)).
Qed.

Lemma stuck_run (dev : bool) (events : list store_event) (w : World) :
  coded_run dev events w = true -> stuck dev w ->
  stuck dev (store_run events w).
Proof.
  revert w. induction events as [|e events IH]; intros w H Hs; [done|].
  simpl in H. apply andb_true_iff in H as [He H].
  apply IH; [done|]. by apply stuck_step.
Qed.

(** On the exported store no dispatch is ever applied.  The callback of
    the persistence middleware reads [actions.SET_DARK_MODE.type], which
    throws, so the promise it returns is rejected for every action; with
    it [Promise.all] is rejected, and whatever is dispatched, in
    development or not, the reducer is never called, the continuation of
    every dispatch stays behind, and the state is the initial one. *)
Theorem app_store_never_reduces
    (dev storedDarkMode : bool) (events : list store_event) :
  coded_run dev events (app_store dev storedDarkMode) = true ->
  let w := store_run events (app_store dev storedDarkMode) in
  (forall st a, fulfils (persistence_callback st a) = false)
  /\ forallb (fun c => negb (is_reducer_call c)) (calls w) = true
  /\ (forall id, run_continuation id w = w)
  /\ exists d, getState w = initialState d.
Proof.
  intros H w.
  destruct (stuck_run dev events _ H (stuck_app_store dev storedDarkMode))
    as (_ & Hk & Hc & Hd).
  split; [apply persistence_callback_throws|]. split; [exact Hc|].
  split; [|exact Hd].
  intros id. unfold run_continuation.
  destruct (find_continuation id w) as [c|] eqn:Hfind; [|done].
  unfold find_continuation in Hfind.
  apply find_some in Hfind as [Hin _]. apply list_elem_of_In in Hin.
  pose proof (proj1 (Forall_forall _ _) Hk c Hin) as (p & Hlk & Hf).
  unfold all_fulfilled. by rewrite (not_all_fulfilled _ _ p Hlk Hf).
Qed.

Lemma app_store_never_reduces_witness :
  let events :=
    [Subscribe (quiet_subscriber 0);
     Dispatch 1000 (ArgObject (setDarkMode true));
     Settle 1 0 false; RunContinuation 1;
     Dispatch 1001 (ArgObject (setLoading true)); RunContinuation 2] in
  let w := store_run events (app_store false false) in
  coded_run false events (app_store false false) = true
  /\ (forall st a, fulfils (persistence_callback st a) = false)
  /\ forallb (fun c => negb (is_reducer_call c)) (calls w) = true
  /\ (forall id, run_continuation id w = w)
  /\ exists d, getState w = initialState d.
Proof.
  intros events w.
  assert (H : coded_run false events (app_store false false) = true)
    by reflexivity.
  split; [exact H|].
  exact (app_store_never_reduces false false events H).
Defined.

End PersistenceExtras.
